(** * autoregtest: a shallow embedding of [autoregtest.py]

    The script checks out a fork/branch of a weather model, runs its
    regression-test harness, looks for a success marker in the harness log,
    mails the verdict and removes the scratch directory after a successful
    run.  Python [str] values are represented by their UTF-8 encoding as
    Rocq [string]s, [bytes] values by [string]s too (one character per
    byte); the effects of the script (logging, subprocesses, the working
    directory, the file system) are threaded through a state-and-exception
    monad over a [World]. *)

From Stdlib Require Import ZArith String Ascii List Bool Lia DecimalString.
From stdpp Require Import gmap strings.

Open Scope string_scope.

(** ** Python string operations used by the script *)

Module PyStr.

(** The double quote character, as a one-character string. *)
Definition dq : string := String "034" EmptyString.

(** The newline character. *)
Definition nl : string := String "010" EmptyString.

(** [needle in hay] for two [str]s: substring test. *)
Fixpoint str_in (needle hay : string) : bool :=
  String.prefix needle hay ||
  match hay with
  | EmptyString => false
  | String _ rest => str_in needle rest
  end.

(** [s.rstrip('\n')]: drop every trailing newline. *)
Fixpoint rstrip_nl (s : string) : string :=
  match s with
  | EmptyString => EmptyString
  | String c rest =>
      match rstrip_nl rest with
      | EmptyString => if Ascii.eqb c "010" then EmptyString
                       else String c EmptyString
      | r => String c r
      end
  end.

(** [s.replace(old, new)] for one-character [old] and [new]. *)
Fixpoint replace_char (old new : ascii) (s : string) : string :=
  match s with
  | EmptyString => EmptyString
  | String c rest =>
      String (if Ascii.eqb c old then new else c) (replace_char old new rest)
  end.

(** [s.endswith('/')]. *)
Fixpoint ends_with_slash (s : string) : bool :=
  match s with
  | EmptyString => false
  | String c EmptyString => Ascii.eqb c "/"
  | String _ rest => ends_with_slash rest
  end.

(** ['{}'.format(n)] for an [int]. *)
Definition str_of_int (n : Z) : string :=
  NilZero.string_of_int (Z.to_int n).

(** Truth value of a [str]: the empty string is false. *)
Definition truthy (s : string) : bool :=
  match s with EmptyString => false | _ => true end.

(** Well-formed UTF-8, the byte sequences [bytes.decode()] accepts:
    [pending] continuation bytes are still due, the next one within
    [lo..hi]. *)
Fixpoint utf8_ok (pending : nat) (lo hi : N) (s : string) : bool :=
  match s with
  | EmptyString => Nat.eqb pending 0
  | String c rest =>
      let b := N_of_ascii c in
      match pending with
      | O =>
          if (b <? 128)%N then utf8_ok 0 128 191 rest
          else if ((194 <=? b) && (b <=? 223))%N then utf8_ok 1 128 191 rest
          else if (b =? 224)%N then utf8_ok 2 160 191 rest
          else if ((225 <=? b) && (b <=? 236))%N then utf8_ok 2 128 191 rest
          else if (b =? 237)%N then utf8_ok 2 128 159 rest
          else if ((238 <=? b) && (b <=? 239))%N then utf8_ok 2 128 191 rest
          else if (b =? 240)%N then utf8_ok 3 144 191 rest
          else if ((241 <=? b) && (b <=? 243))%N then utf8_ok 3 128 191 rest
          else if (b =? 244)%N then utf8_ok 3 128 143 rest
          else false
      | S k =>
          if ((lo <=? b) && (b <=? hi))%N then utf8_ok k 128 191 rest
          else false
      end
  end.

Definition utf8_valid (b : string) : bool := utf8_ok 0 128 191 b.

(** [os.path.join(a, b)] on a POSIX platform. *)
Definition path_join (a b : string) : string :=
  if String.prefix "/" b then b
  else if negb (truthy a) || ends_with_slash a then a ++ b
  else a ++ "/" ++ b.

End PyStr.
Export PyStr.

(** ** Exceptions and results *)

Inductive exn : Type :=
| Exception (message : string)
| UnicodeDecodeError
| FileNotFoundError (path : string)
| IsADirectoryError (path : string)
| KeyError (key : string).

Inductive result (A : Type) : Type :=
| Ok (a : A)
| Raise (e : exn).
Arguments Ok {A} a.
Arguments Raise {A} e.

(** ** The world the script runs in *)

(** The directories and the regular files that exist, each file with the
    bytes it holds.  Permissions are not modelled: the process may enter
    every directory and read every file. *)
Record FileSystem : Type := mkFS {
  dirs : gset string;
  contents : gmap string string;
}.

(** The text of the readable files: the files whose bytes are well-formed
    UTF-8, the encoding [open] decodes with; the text of such a file is its
    bytes. *)
Definition files (f : FileSystem) : gmap string string :=
  filter (fun kv => utf8_valid kv.2 = true) (contents f).

(** What the script does to its environment, in order; a subprocess is
    recorded with the exit status it finished with. *)
Inductive event : Type :=
| EvLog (lvl : Z) (message : string)
| EvPopen (cmd : string) (status : Z)
| EvMkdtemp (path : string)
| EvChdir (path : string)
| EvOpen (path : string)
| EvRmtree (path : string).

(** The process and its surroundings: the file system, the working
    directory, the root logger (its level, and whether it has a handler
    yet: a fresh process has none) and what has been done so far. *)
Record World : Type := mkWorld {
  fs : FileSystem;
  cwd : string;
  loglevel : Z;
  handlers : bool;
  trace : list event;
}.

(** A finished subprocess: exit status and the two captured streams. *)
Record Completed : Type := mkCompleted {
  returncode : Z;
  stdout_bytes : string;
  stderr_bytes : string;
}.

(** [datetime] objects are used through [strftime] only. *)
Record datetime : Type := mkDatetime {
  strftime : string -> string;
}.

(** ** The state-and-exception monad *)

Definition M (A : Type) : Type := World -> result A * World.

Definition ret {A} (a : A) : M A := fun w => (Ok a, w).

Definition raise {A} (e : exn) : M A := fun w => (Raise e, w).

Definition bind {A B} (m : M A) (k : A -> M B) : M B :=
  fun w =>
    match m w with
    | (Ok a, w') => k a w'
    | (Raise e, w') => (Raise e, w')
    end.

Declare Scope py_scope.
Delimit Scope py_scope with py.
Notation "'do' x <- m ; k" := (bind m (fun x => k))
  (at level 10, x name, m at level 100, k at level 200) : py_scope.
Notation "'do' ' pat <- m ; k" :=
  (bind m (fun x => match x with pat => k end))
  (at level 10, pat pattern, m at level 100, k at level 200) : py_scope.
Notation "'run' m ; k" := (bind m (fun _ => k))
  (at level 10, m at level 100, k at level 200) : py_scope.
Open Scope py_scope.

Definition emit (ev : event) : M unit :=
  fun w => (Ok tt,
            {| fs := fs w; cwd := cwd w; loglevel := loglevel w;
               handlers := handlers w; trace := trace w ++ [ev] |}).

(** [logging] levels. *)
Definition DEBUG : Z := 10.
Definition INFO : Z := 20.
Definition ERROR : Z := 40.

(** The root logger with a handler: what [logging.basicConfig()] without
    arguments leaves when there was none, the level staying as it is. *)
Definition with_handler (w : World) : World :=
  {| fs := fs w; cwd := cwd w; loglevel := loglevel w; handlers := true;
     trace := trace w |}.

(** [logging.log(lvl, message)] through the module-level functions
    [logging.debug], [logging.info], [logging.error]: they first give the
    root logger a handler when it has none; the record is written when the
    logger's effective level does not exceed [lvl]. *)
Definition logging_log (lvl : Z) (message : string) : M unit :=
  fun w => if (loglevel w <=? lvl)%Z
           then emit (EvLog lvl message) (with_handler w)
           else (Ok tt, with_handler w).

Definition logging_debug := logging_log DEBUG.
Definition logging_info := logging_log INFO.
Definition logging_error := logging_log ERROR.

Definition getEffectiveLevel : M Z := fun w => (Ok (loglevel w), w).

(** [d[k]] on a dictionary with string keys. *)
Definition getitem {V} (d : gmap string V) (k : string) : M V :=
  match d !! k with
  | Some v => ret v
  | None => raise (KeyError k)
  end.

(** [bytes.decode()]: strict UTF-8. *)
Definition decode (b : string) : M string :=
  if utf8_valid b then ret b else raise UnicodeDecodeError.

(** ** User configuration *)

Record ForkEntry : Type := mkFork {
  branches : list string;
  url : string;
}.

Record SystemEntry : Type := mkSystem {
  compilers : list string;
  default_compiler : string;
  default_project : string;
  default_rtconfig : gmap string string;
}.

Definition FORKS : gmap string ForkEntry :=
  <[ "dtc" := {| branches := [ "dtc/develop" ];
                 url := "https://github.com/NCAR/ufs-weather-model" |} ]>
  (<[ "emc" := {| branches := [ "develop" ];
                  url := "https://github.com/ufs-community/ufs-weather-model" |} ]>
  (<[ "dom" := {| branches := [ "nems_machine_env_var" ];
                  url := "https://github.com/climbfuji/ufs-weather-model" |} ]>
   ∅)).

Definition SYSTEMS : gmap string SystemEntry :=
  <[ "cheyenne" := {| compilers := [ "intel"; "gnu" ];
                      default_compiler := "intel";
                      default_project := "P48503002";
                      default_rtconfig :=
                        <[ "intel" := "rt.conf" ]>
                        (<[ "gnu" := "rt_gnu.conf" ]> ∅) |} ]>
  (<[ "hera" := {| compilers := [ "intel" ];
                   default_compiler := "intel";
                   default_project := "gmtb";
                   default_rtconfig := <[ "intel" := "rt.conf" ]> ∅ |} ]>
   ∅).

Definition CHECKOUT_DIR : string := "ufs-weather-model".
Definition TEST_DIR : string := "tests".
Definition RT_SUCCESSFUL : string := "REGRESSION TEST WAS SUCCESSFUL".
Definition DEFAULT_EMAIL_RECIPIENT : string := "heinzell@ucar.edu".

(** ** Command line arguments *)

(** The namespace [parser.parse_args()] returns: the three required options
    are strings, the optional ones are [None] unless given, [--keep] is a
    flag. *)
Record Namespace : Type := mkNamespace {
  arg_fork : string;
  arg_branch : string;
  arg_system : string;
  arg_compiler : option string;
  arg_project : option string;
  arg_rtconfig : option string;
  arg_keep : bool;
  arg_email : option string;
}.

(** The run parameters, in the order [parse_arguments] returns them:
    (fork, branch, system, compiler, project, rtconfig, keep, email). *)
Definition Params : Type :=
  (string * string * string * string * string * string * bool * string)%type.

(** [x = a if a else <fallback>], the fallback being evaluated only when
    the argument is false. *)
Definition given_or (a : option string) (fallback : M string) : M string :=
  match a with
  | Some s => if truthy s then ret s else fallback
  | None => fallback
  end.

Definition parse_arguments (args : Namespace) : M Params :=
  (* GitHub fork *)
  let fork := arg_fork args in
  if negb (bool_decide (fork ∈ dom FORKS))
  then raise (Exception ("Invalid fork " ++ fork)) else
  (* GitHub branch *)
  let branch := arg_branch args in
  do fork_entry <- getitem FORKS fork;
  if negb (bool_decide (branch ∈ branches fork_entry))
  then raise (Exception ("Invalid branch " ++ branch ++ " of fork")) else
  run logging_info ("Using branch " ++ branch ++ " of fork " ++ fork);
  (* System *)
  let system := arg_system args in
  if negb (bool_decide (system ∈ dom SYSTEMS))
  then raise (Exception ("Invalid system " ++ system)) else
  (* Compiler *)
  do compiler <- given_or (arg_compiler args)
                   (do system_entry <- getitem SYSTEMS system;
                    ret (default_compiler system_entry));
  do system_entry <- getitem SYSTEMS system;
  if negb (bool_decide (compiler ∈ compilers system_entry))
  then raise (Exception ("Invalid compiler " ++ compiler
                         ++ " for system " ++ system)) else
  (* Project *)
  do project <- given_or (arg_project args)
                  (do system_entry <- getitem SYSTEMS system;
                   ret (default_project system_entry));
  (* Regression test configuration *)
  do rtconfig <- given_or (arg_rtconfig args)
                   (do system_entry <- getitem SYSTEMS system;
                    getitem (default_rtconfig system_entry) compiler);
  run logging_info ("Running on " ++ system ++ " with compiler " ++ compiler
                    ++ " and project " ++ project ++ " using " ++ rtconfig
                    ++ " regression test config");
  let keep := arg_keep args in
  run (if keep
       then logging_info "Keep run directory after successful test"
       else logging_info
              "Delete run directory after successful test (keep if not successful)");
  (* Email *)
  do email <- given_or (arg_email args) (ret DEFAULT_EMAIL_RECIPIENT);
  ret (fork, branch, system, compiler, project, rtconfig, keep, email).

(** ** File-system primitives *)

(** [p] is [root] itself or lies below it. *)
Definition below (root p : string) : bool :=
  String.eqb p root || String.prefix (root ++ "/") p.

Definition remove_tree (root : string) (f : FileSystem) : FileSystem :=
  {| dirs := filter (fun d => below root d = false) (dirs f);
     contents := filter (fun kv => below root kv.1 = false) (contents f) |}.

(** [os.chdir(path)]. *)
Definition os_chdir (path : string) : M unit :=
  fun w =>
    let target := path_join (cwd w) path in
    if bool_decide (target ∈ dirs (fs w))
    then (Ok tt, {| fs := fs w; cwd := target; loglevel := loglevel w;
                    handlers := handlers w;
                    trace := trace w ++ [EvChdir target] |})
    else (Raise (FileNotFoundError path), w).

(** [open(path).read()], the file opened for reading in text mode: the
    bytes are decoded strictly, so a file that is there but is not
    well-formed text is opened and then fails to be read; a directory
    cannot be opened as a file. *)
Definition read_text (path : string) : M string :=
  fun w =>
    let target := path_join (cwd w) path in
    match contents (fs w) !! target with
    | Some bytes =>
        let opened := {| fs := fs w; cwd := cwd w; loglevel := loglevel w;
                         handlers := handlers w;
                         trace := trace w ++ [EvOpen target] |} in
        if utf8_valid bytes then (Ok bytes, opened)
        else (Raise UnicodeDecodeError, opened)
    | None =>
        if bool_decide (target ∈ dirs (fs w))
        then (Raise (IsADirectoryError path), w)
        else (Raise (FileNotFoundError path), w)
    end.

(** [shutil.rmtree(path)]. *)
Definition shutil_rmtree (path : string) : M unit :=
  fun w =>
    let target := path_join (cwd w) path in
    if bool_decide (target ∈ dirs (fs w))
    then (Ok tt, {| fs := remove_tree target (fs w); cwd := cwd w;
                    loglevel := loglevel w; handlers := handlers w;
                    trace := trace w ++ [EvRmtree target] |})
    else (Raise (FileNotFoundError path), w).

(** [logging.basicConfig(level=level)]: when the root logger has no
    handler it gets one and its level is set; when it already has one the
    call does nothing. *)
Definition logging_basicConfig (level : Z) : M unit :=
  fun w => if handlers w then (Ok tt, w)
           else (Ok tt, {| fs := fs w; cwd := cwd w; loglevel := level;
                           handlers := true; trace := trace w |}).

(** ** The workflow *)

Section Workflow.

(** The directory the script is started in ([os.getcwd()] at import). *)
Variable BASEDIR : string.

(** [datetime.datetime.now()] at the start of [main]. *)
Variable datetime_now : datetime.

(** The platform shell: a command run in a working directory on a file
    system finishes with an exit status and two output streams, and
    leaves a file system behind. *)
Variable shell : string -> string -> FileSystem -> Completed * FileSystem.

(** The path [tempfile.mkdtemp] picks for a prefix. *)
Variable mkdtemp_path : string -> FileSystem -> string.

Definition RT_LOG : string := path_join BASEDIR "rt_%Y%m%dT%H%M%S.log".

(** [subprocess.Popen(cmd, stdout=PIPE, stderr=PIPE, shell=True)]
    followed by [communicate()]. *)
Definition Popen_communicate (cmd : string) : M Completed :=
  fun w =>
    let '(p, fs') := shell cmd (cwd w) (fs w) in
    (Ok p, {| fs := fs'; cwd := cwd w; loglevel := loglevel w;
              handlers := handlers w;
              trace := trace w ++ [EvPopen cmd (returncode p)] |}).

(** [tempfile.mkdtemp(prefix=prefix)]. *)
Definition tempfile_mkdtemp (prefix : string) : M string :=
  fun w =>
    let path := mkdtemp_path prefix (fs w) in
    (Ok path, {| fs := {| dirs := {[ path ]} ∪ dirs (fs w);
                          contents := contents (fs w) |};
                 cwd := cwd w; loglevel := loglevel w;
                 handlers := handlers w;
                 trace := trace w ++ [EvMkdtemp path] |}).

Definition debug_message (cmd : string) (status : Z)
    (stdout stderr : string) : string :=
  "Execution of " ++ dq ++ cmd ++ dq ++ " returned with exit code "
  ++ str_of_int status ++ nl
  ++ "    stdout: " ++ dq ++ stdout ++ dq ++ nl
  ++ "    stderr: " ++ dq ++ stderr ++ dq.

Definition failure_message (cmd : string) (status : Z)
    (stdout stderr : string) : string :=
  "Execution of command " ++ cmd ++ " failed, exit code "
  ++ str_of_int status ++ nl
  ++ "    stdout: " ++ dq ++ stdout ++ dq ++ nl
  ++ "    stderr: " ++ dq ++ stderr ++ dq.

(** Runs a local command in a shell.  Waits for completion and returns
    status, stdout and stderr if execution of the command is successful,
    aborts otherwise. *)
Definition execute (cmd : string) : M (Z * string * string) :=
  do level <- getEffectiveLevel;
  let debug := (level =? DEBUG)%Z in
  run logging_debug ("Executing " ++ dq ++ cmd ++ dq);
  do p <- Popen_communicate cmd;
  do stdout <- decode (stdout_bytes p);
  let stdout := rstrip_nl stdout in
  do stderr <- decode (stderr_bytes p);
  let stderr := rstrip_nl stderr in
  let status := returncode p in
  run (if debug
       then logging_debug (debug_message cmd status stdout stderr)
       else ret tt);
  if negb (status =? 0)%Z
  then raise (Exception (failure_message cmd status stdout stderr))
  else ret (status, stdout, stderr).

(** Sets up the logging module and logging level. *)
Definition setup_logging : M unit :=
  let level := DEBUG in
  run logging_basicConfig level;
  do effective <- getEffectiveLevel;
  logging_info ("Logging level set to " ++ str_of_int effective).

Definition get_workdir (now : datetime) (fork branch compiler : string)
    : M string :=
  do tmpdir <- tempfile_mkdtemp
                 ("regtest_ufs_weather_model_" ++ fork ++ "_"
                  ++ replace_char "/" "-" branch ++ "_" ++ compiler ++ "_"
                  ++ strftime now "%Y%m%dT%H%M%S" ++ "_");
  run logging_info ("Setting up temporary directory " ++ tmpdir);
  ret tmpdir.

Definition checkout_code (fork branch tmpdir : string) : M unit :=
  do fork_entry <- getitem FORKS fork;
  let url := url fork_entry in
  run logging_info ("Cloning branch " ++ branch ++ " from url " ++ url);
  run os_chdir tmpdir;
  let cmd := "git clone -v -b " ++ branch ++ " " ++ url ++ " "
             ++ CHECKOUT_DIR in
  do _ <- execute cmd;
  run logging_info "Checking out submodules";
  run os_chdir CHECKOUT_DIR;
  let cmd := "git submodule sync" in
  do _ <- execute cmd;
  let cmd := "git submodule update --init --recursive" in
  do _ <- execute cmd;
  os_chdir BASEDIR.

Definition run_tests (now : datetime)
    (system compiler project rtconfig : string) (keep : bool)
    (tmpdir : string) : M string :=
  run os_chdir (path_join (path_join tmpdir CHECKOUT_DIR) TEST_DIR);
  let keep_flag := if keep then "-k" else "" in
  let rtlog := strftime now RT_LOG in
  run logging_info ("Launching regression test, logging to " ++ rtlog
                    ++ " ... ");
  let cmd := "NEMS_MACHINE=" ++ system ++ " NEMS_COMPILER=" ++ compiler
             ++ " ACCNR=" ++ project ++ " ./rt.sh -l " ++ rtconfig ++ " "
             ++ keep_flag ++ " > " ++ rtlog ++ " 2>&1" in
  do _ <- execute cmd;
  run os_chdir BASEDIR;
  ret rtlog.

(** The command that mails the verdict with the log attached. *)
Definition mail_cmd (message rtlog subject email : string) : string :=
  "echo " ++ dq ++ message ++ dq ++ " | mail -a " ++ dq ++ rtlog ++ dq
  ++ " -s " ++ dq ++ subject ++ dq ++ " " ++ email.

Definition check_logs (system compiler tmpdir rtlog : string)
    (keep : bool) (email : string) : M bool :=
  (* Check for the string indicating success in the regression test log *)
  do text <- read_text rtlog;
  let success := str_in RT_SUCCESSFUL text in
  do '(subject, message) <-
    (if success && keep then
       let subject := system ++ "/" ++ compiler
                      ++ ": regression tests passed" in
       let message := "Regression tests passed, see regression test log "
                      ++ rtlog ++ " and run directory " ++ tmpdir ++ "." in
       run logging_info message;
       ret (subject, message)
     else if success && negb keep then
       let subject := system ++ "/" ++ compiler
                      ++ ": regression tests passed" in
       let message := "Regression tests passed, see regression test log "
                      ++ rtlog ++ "." in
       run logging_info message;
       ret (subject, message)
     else
       let subject := system ++ "/" ++ compiler
                      ++ ": regression tests did NOT PASS" in
       let message :=
         "Regression tests did NOT PASS, check latest regression test log "
         ++ rtlog ++ " and run directory " ++ tmpdir in
       run logging_error message;
       ret (subject, message));
  (* Send out email *)
  let cmd := mail_cmd message rtlog subject email in
  do _ <- execute cmd;
  ret success.

Definition cleanup (success keep : bool) (tmpdir : string) : M unit :=
  if success && negb keep then
    run logging_debug ("Deleting temporary directory " ++ tmpdir);
    shutil_rmtree tmpdir
  else ret tt.

Definition main (args : Namespace) : M unit :=
  let now := datetime_now in
  run setup_logging;
  run logging_info "Starting automatic regression test";
  do '(fork, branch, system, compiler, project, rtconfig, keep, email) <-
    parse_arguments args;
  do tmpdir <- get_workdir now fork branch compiler;
  run checkout_code fork branch tmpdir;
  do rtlog <- run_tests now system compiler project rtconfig keep tmpdir;
  do success <- check_logs system compiler tmpdir rtlog keep email;
  run cleanup success keep tmpdir;
  logging_info "Finished automatic regression test".

End Workflow.

(** ** A simulated platform

    A concrete shell, clock and temporary-directory chooser, used to run
    the workflow on explicit inputs. *)

Module Sim.

(** Replace every occurrence of [old] in [s] by [new]; [skip] characters
    of a match just replaced are still to be dropped. *)
Fixpoint subst_from (old new : string) (skip : nat) (s : string) : string :=
  match s with
  | EmptyString => EmptyString
  | String c rest =>
      match skip with
      | S k => subst_from old new k rest
      | O =>
          if String.prefix old s
          then new ++ subst_from old new (String.length old - 1) rest
          else String c (subst_from old new 0 rest)
      end
  end.

Definition BASEDIR : string := "/home/user".

(** A clock stopped at 2019-11-22 10:15:00. *)
Definition now : datetime :=
  {| strftime := subst_from "%Y%m%dT%H%M%S" "20191122T101500" 0 |}.

Definition rtlog : string := "/home/user/rt_20191122T101500.log".

Definition mkdtemp_path (prefix : string) (f : FileSystem) : string :=
  "/tmp/" ++ prefix ++ "k3x9_w2a".

Definition finished (status : Z) (out err : string) : Completed :=
  {| returncode := status; stdout_bytes := out; stderr_bytes := err |}.

(** A shell in which the commands selected by [fails] exit with status 1,
    [git clone] creates the checkout with its test directory, and the
    harness writes [logtext] to the log; no command removes anything. *)
Definition shell (fails : string -> bool) (logtext : string)
    (cmd dir : string) (f : FileSystem) : Completed * FileSystem :=
  if fails cmd then (finished 1 "" ("failed" ++ nl), f)
  else if String.prefix "git clone" cmd then
    (finished 0 "" ("Cloning into 'ufs-weather-model'..." ++ nl),
     {| dirs := {[ path_join dir CHECKOUT_DIR ]}
                ∪ {[ path_join (path_join dir CHECKOUT_DIR) TEST_DIR ]}
                ∪ dirs f;
        contents := contents f |})
  else if String.prefix "NEMS_MACHINE=" cmd then
    (finished 0 "" "",
     {| dirs := dirs f; contents := <[ rtlog := logtext ]> (contents f) |})
  else (finished 0 "" "", f).

Definition never (cmd : string) : bool := false.
Definition mail_fails (cmd : string) : bool := str_in "| mail -a" cmd.
Definition clone_fails (cmd : string) : bool := String.prefix "git clone" cmd.
Definition harness_fails (cmd : string) : bool :=
  String.prefix "NEMS_MACHINE=" cmd.

(** A shell whose every command prints one byte that is not UTF-8 and
    exits with status 0. *)
Definition binary_shell (cmd dir : string) (f : FileSystem)
    : Completed * FileSystem :=
  (finished 0 (String "255" EmptyString) "", f).

Definition world0 : World :=
  {| fs := {| dirs := {[ "/home/user" ]} ∪ {[ "/tmp" ]}; contents := ∅ |};
     cwd := "/home/user";
     loglevel := 30;
     handlers := false;
     trace := [] |}.

Definition args_hera : Namespace :=
  {| arg_fork := "emc"; arg_branch := "develop"; arg_system := "hera";
     arg_compiler := None; arg_project := None; arg_rtconfig := None;
     arg_keep := false; arg_email := None |}.

Definition tmpdir : string :=
  "/tmp/regtest_ufs_weather_model_emc_develop_intel_20191122T101500_k3x9_w2a".

Definition passing_log : string :=
  "baseline dir = /scratch" ++ nl ++ "REGRESSION TEST WAS SUCCESSFUL" ++ nl.

Definition failing_log : string :=
  "Test 007 FAIL" ++ nl ++ "REGRESSION TEST FAILED" ++ nl.

(** A world in which the harness has already written [logtext] to the
    log and the work directory still exists. *)
Definition world_with_log (logtext : string) : World :=
  {| fs := {| dirs := {[ "/home/user" ]} ∪ {[ "/tmp" ]} ∪ {[ tmpdir ]};
              contents := <[ rtlog := logtext ]> ∅ |};
     cwd := "/home/user";
     loglevel := 10;
     handlers := true;
     trace := [] |}.

End Sim.

(** * Specification vocabulary *)

(** The value of an optional argument after defaulting: the argument when
    it is a non-empty string, the default otherwise. *)
Definition chosen (a : option string) (default : string) : string :=
  match a with
  | Some s => if truthy s then s else default
  | None => default
  end.

(** ** Properties of event traces *)

Definition is_log (ev : event) : Prop :=
  match ev with EvLog _ _ => True | _ => False end.

(** Neither a subprocess nor a deletion. *)
Definition harmless (ev : event) : Prop :=
  match ev with EvPopen _ _ | EvRmtree _ => False | _ => True end.

Definition is_raise {A} (r : result A) : Prop :=
  match r with Raise _ => True | Ok _ => False end.

Definition no_rmtree (evs : list event) : Prop :=
  forall p, EvRmtree p ∉ evs.

Definition no_popen (evs : list event) : Prop :=
  forall cmd status, EvPopen cmd status ∉ evs.

(** Every subprocess in the trace exited with status zero. *)
Definition all_zero (evs : list event) : Prop :=
  forall cmd status, EvPopen cmd status ∈ evs -> status = 0%Z.

(** After a subprocess that exited with a non-zero status nothing happens
    but logging. *)
Definition stops_at_failure (evs : list event) : Prop :=
  forall before cmd status after,
    evs = (before ++ EvPopen cmd status :: after)%list ->
    status <> 0%Z -> Forall is_log after.

(** A directory is removed only after a mail command that exited with
    status zero. *)
Definition guarded (evs : list event) : Prop :=
  forall before p after,
    evs = (before ++ EvRmtree p :: after)%list ->
    exists message rtlog subject email,
      EvPopen (mail_cmd message rtlog subject email) 0 ∈ before.

(** The events a step adds to the trace, with the step's outcome. *)
Definition emits {A} (m : M A) (Q : result A -> list event -> Prop) : Prop :=
  forall w, exists evs,
    trace (m w).2 = (trace w ++ evs)%list /\ Q (m w).1 evs.

(** A step that deletes nothing and runs on only while its subprocesses
    exit with status zero. *)
Definition quiet {A} (r : result A) (evs : list event) : Prop :=
  no_rmtree evs /\
  match r with
  | Ok _ => all_zero evs
  | Raise _ => stops_at_failure evs
  end.

(** What holds of a whole run. *)
Definition run_post {A} (r : result A) (evs : list event) : Prop :=
  stops_at_failure evs /\ guarded evs /\
  match r with
  | Ok _ => all_zero evs
  | Raise _ => no_rmtree evs
  end.

(** Steps that add no event. *)
Definition silent {A} (m : M A) : Prop := forall w, (m w).2 = w.

(** A quiet step that, when it returns, has run a mail command to a zero
    exit status. *)
Definition mailed {A} (r : result A) (evs : list event) : Prop :=
  quiet r evs /\
  (~ is_raise r ->
   exists message rtlog subject email,
     EvPopen (mail_cmd message rtlog subject email) 0 ∈ evs).

(** What the end of a run adds: no subprocess, and no deletion when it
    raises. *)
Definition tail_post {A} (r : result A) (evs : list event) : Prop :=
  no_popen evs /\ (is_raise r -> no_rmtree evs).

(** Components of the resolved run parameters. *)
Definition project_of (p : Params) : string :=
  let '(_, _, _, _, project, _, _, _) := p in project.
Definition rtconfig_of (p : Params) : string :=
  let '(_, _, _, _, _, rtconfig, _, _) := p in rtconfig.
Definition email_of (p : Params) : string :=
  let '(_, _, _, _, _, _, _, email) := p in email.

(** The selection passes the four table checks of the resolver. *)
Definition valid_selection (args : Namespace)
    (fork_entry : ForkEntry) (system_entry : SystemEntry) : Prop :=
  FORKS !! arg_fork args = Some fork_entry /\
  arg_branch args ∈ branches fork_entry /\
  SYSTEMS !! arg_system args = Some system_entry /\
  chosen (arg_compiler args) (default_compiler system_entry)
    ∈ compilers system_entry.

(** The selection fails one of the four table checks. *)
Definition invalid_selection (args : Namespace) : Prop :=
  arg_fork args ∉ dom FORKS
  \/ (exists fork_entry,
        FORKS !! arg_fork args = Some fork_entry /\
        arg_branch args ∉ branches fork_entry)
  \/ arg_system args ∉ dom SYSTEMS
  \/ (exists system_entry,
        SYSTEMS !! arg_system args = Some system_entry /\
        chosen (arg_compiler args) (default_compiler system_entry)
          ∉ compilers system_entry).

(** The step leaves the file system and the working directory alone and
    adds only log records to the trace. *)
Definition logs_only (w w' : World) : Prop :=
  fs w' = fs w /\ cwd w' = cwd w /\
  exists logs, trace w' = (trace w ++ logs)%list /\ Forall is_log logs.

Definition only_logs {A} (m : M A) : Prop := forall w, logs_only w (m w).2.

(** The subprocess exited with status zero and printed well-formed UTF-8 on
    both streams. *)
Definition exits_cleanly (p : Completed) : Prop :=
  returncode p = 0%Z /\
  utf8_valid (stdout_bytes p) = true /\ utf8_valid (stderr_bytes p) = true.

(** No command run by the shell removes a directory. *)
Definition shell_keeps_dirs
    (shell : string -> string -> FileSystem -> Completed * FileSystem) : Prop :=
  forall cmd dir f, dirs f ⊆ dirs (shell cmd dir f).2.

(** The directories present before are present after, and so is every
    directory made in between. *)
Definition kept (w w' : World) : Prop :=
  dirs (fs w) ⊆ dirs (fs w') /\
  exists evs,
    trace w' = (trace w ++ evs)%list /\
    forall p, EvMkdtemp p ∈ evs -> p ∈ dirs (fs w').

Definition keeps {A} (m : M A) : Prop := forall w, kept w (m w).2.

Definition keeps_when_raising {A} (m : M A) : Prop :=
  forall w, is_raise (m w).1 -> kept w (m w).2.

(** From every world satisfying [P] the step returns normally, with a value
    and a world satisfying [Q]. *)
Definition succeeds {A} (P : World -> Prop) (m : M A)
    (Q : A -> World -> Prop) : Prop :=
  forall w, P w -> exists a w', m w = (Ok a, w') /\ Q a w'.

(** The script stands in directory [c], the directories [D] exist and the
    readable text files satisfy [F]. *)
Definition standing (c : string) (D : gset string)
    (F : gmap string string -> Prop) (w : World) : Prop :=
  cwd w = c /\ D ⊆ dirs (fs w) /\ F (files (fs w)).

Definition any_files (fl : gmap string string) : Prop := True.

(** The text files hold a log at [path], a file whose bytes decode, that
    carries the success marker. *)
Definition passing_log_at (path : string) (fl : gmap string string) : Prop :=
  exists text,
    fl !! path = Some text /\ utf8_valid text = true /\
    str_in RT_SUCCESSFUL text = true.

(** [git clone] run in a directory makes the checkout there, with its test
    directory. *)
Definition clone_makes_checkout
    (shell : string -> string -> FileSystem -> Completed * FileSystem) : Prop :=
  forall cmd dir f,
    String.prefix "git clone" cmd = true ->
    path_join dir CHECKOUT_DIR ∈ dirs (shell cmd dir f).2 /\
    path_join (path_join dir CHECKOUT_DIR) TEST_DIR ∈ dirs (shell cmd dir f).2.

(** The harness leaves a text log at [path] that carries the success
    marker. *)
Definition harness_writes_passing_log
    (shell : string -> string -> FileSystem -> Completed * FileSystem)
    (path : string) : Prop :=
  forall cmd dir f,
    String.prefix "NEMS_MACHINE=" cmd = true ->
    passing_log_at path (files (shell cmd dir f).2).

(** The event is in the trace. *)
Definition knows (ev : event) (w : World) : Prop := ev ∈ trace w.

(** A run of [k] newline characters. *)
Fixpoint newlines (k : nat) : string :=
  match k with
  | O => EmptyString
  | S k' => String "010" (newlines k')
  end.

(** ** The order of the external commands *)

(** The commands of the subprocesses in a trace, in the order they ran. *)
Fixpoint commands (evs : list event) : list string :=
  match evs with
  | [] => []
  | EvPopen cmd _ :: rest => cmd :: commands rest
  | _ :: rest => commands rest
  end.

(** The commands are, one by one and from the first on, of the given
    kinds; there may be fewer commands than kinds, not more. *)
Fixpoint in_order (kinds : list (string -> bool)) (cmds : list string)
    {struct cmds} : bool :=
  match cmds, kinds with
  | [], _ => true
  | cmd :: cmds', kind :: kinds' => kind cmd && in_order kinds' cmds'
  | _ :: _, [] => false
  end.

(** A step that runs commands of the given kinds in order, all of them
    when it returns. *)
Definition follows (kinds : list (string -> bool)) {A}
    (r : result A) (evs : list event) : Prop :=
  in_order kinds (commands evs) = true /\
  match r with
  | Ok _ => length (commands evs) = length kinds
  | Raise _ => True
  end.

Definition is_clone (cmd : string) : bool :=
  String.prefix "git clone -v -b " cmd.
Definition is_submodule_sync (cmd : string) : bool :=
  String.eqb cmd "git submodule sync".
Definition is_submodule_update (cmd : string) : bool :=
  String.eqb cmd "git submodule update --init --recursive".
Definition is_harness (cmd : string) : bool :=
  String.prefix "NEMS_MACHINE=" cmd && str_in " ./rt.sh -l " cmd.
Definition is_mail (cmd : string) : bool :=
  String.prefix "echo " cmd && str_in " | mail -a " cmd.

(** The five commands of a run. *)
Definition workflow : list (string -> bool) :=
  [ is_clone; is_submodule_sync; is_submodule_update; is_harness; is_mail ].


(** ** Lookups that cannot fail *)

(** Not the exception of a dictionary lookup with a missing key. *)
Definition not_KeyError (e : exn) : Prop :=
  match e with
  | KeyError _ => False
  | _ => True
  end.

(** The step raises only exceptions that satisfy [P]. *)
Definition raises_only {A} (P : exn -> Prop) (m : M A) : Prop :=
  forall w e, (m w).1 = Raise e -> P e.

(** ** What a run writes to the log *)

(** Every subprocess in the trace comes right after the record that
    announces its command. *)
Definition announced (evs : list event) : Prop :=
  forall before cmd status after,
    evs = (before ++ EvPopen cmd status :: after)%list ->
    exists earlier,
      before = (earlier
                ++ [EvLog DEBUG ("Executing " ++ dq ++ cmd ++ dq)%string])%list.

(** The last record of a run that went through. *)
Definition finished_record : event :=
  EvLog INFO "Finished automatic regression test".

(** A step on the way: its commands are announced and it does not write
    the last record. *)
Definition orderly {A} (r : result A) (evs : list event) : Prop :=
  announced evs /\ finished_record ∉ evs.

(** A step to the end of the run: its commands are announced and it writes
    the last record exactly when it returns. *)
Definition complete {A} (r : result A) (evs : list event) : Prop :=
  announced evs /\ (finished_record ∈ evs <-> ~ is_raise r).

(** What a step does when the logger's level is DEBUG, the level it then
    leaves in place. *)
Definition at_debug {A} (m : M A) (Q : result A -> list event -> Prop)
    : Prop :=
  forall w, loglevel w = DEBUG ->
    loglevel (m w).2 = DEBUG /\
    exists evs, trace (m w).2 = (trace w ++ evs)%list /\ Q (m w).1 evs.

(** * Verification *)

(** ** Facts about the string operations *)

Lemma append_cons (c : ascii) (a b : string) :
  String c a ++ b = String c (a ++ b).
Proof. reflexivity. Qed.

Lemma append_nil_l (b : string) : "" ++ b = b.
Proof. reflexivity. Qed.

Lemma prefix_app (p t : string) : String.prefix p (p ++ t) = true.
Proof.
  induction p as [|c p IH].
  - rewrite append_nil_l. destruct t; reflexivity.
  - rewrite append_cons. simpl.
    destruct (ascii_dec c c); [exact IH | congruence].
Qed.

Lemma prefix_inv (p s : string) :
  String.prefix p s = true -> exists t, s = p ++ t.
Proof.
  revert s. induction p as [|c p IH]; intros s H.
  - exists s. reflexivity.
  - destruct s as [|d s]; simpl in H; [discriminate|].
    destruct (ascii_dec c d) as [->|]; [|discriminate].
    destruct (IH s H) as [t ->]. exists t. reflexivity.
Qed.

Lemma str_in_here (needle hay : string) :
  String.prefix needle hay = true -> str_in needle hay = true.
Proof. intros H. destruct hay; cbn [str_in]; rewrite H; reflexivity. Qed.

Lemma str_in_later (needle : string) (c : ascii) (hay : string) :
  str_in needle hay = true -> str_in needle (String c hay) = true.
Proof. intros H. cbn [str_in]. rewrite H. apply orb_true_r. Qed.

Lemma str_in_app (needle before after : string) :
  str_in needle (before ++ needle ++ after) = true.
Proof.
  induction before as [|c before IH].
  - rewrite append_nil_l. apply str_in_here, prefix_app.
  - rewrite append_cons. apply str_in_later, IH.
Qed.

Lemma str_in_inv (needle hay : string) :
  str_in needle hay = true ->
  exists before after, hay = before ++ needle ++ after.
Proof.
  induction hay as [|c hay IH]; cbn [str_in]; intros H.
  - rewrite orb_false_r in H. destruct (prefix_inv _ _ H) as [t Ht].
    exists "", t. exact Ht.
  - apply orb_true_iff in H as [H|H].
    + destruct (prefix_inv _ _ H) as [t Ht]. exists "", t. exact Ht.
    + destruct (IH H) as (b & a & ->). exists (String c b), a. reflexivity.
Qed.

Lemma str_in_spec (needle hay : string) :
  str_in needle hay = true <->
  exists before after, hay = before ++ needle ++ after.
Proof.
  split; [apply str_in_inv|]. intros (b & a & ->). apply str_in_app.
Qed.

(** The operations on small inputs. *)

Example rstrip_nl_trailing : rstrip_nl ("out" ++ nl ++ nl) = "out".
Proof. reflexivity. Qed.

Example rstrip_nl_inner :
  rstrip_nl ("a" ++ nl ++ "b" ++ nl) = "a" ++ nl ++ "b".
Proof. reflexivity. Qed.

Example replace_char_branch : replace_char "/" "-" "dtc/develop" = "dtc-develop".
Proof. reflexivity. Qed.

Example path_join_relative : path_join "/home/user" "rt.log" = "/home/user/rt.log".
Proof. reflexivity. Qed.

Example path_join_rooted : path_join "/home/user" "/tmp/x" = "/tmp/x".
Proof. reflexivity. Qed.

Example str_of_int_negative : str_of_int (-9) = "-9".
Proof. reflexivity. Qed.

Example utf8_two_byte_character :
  utf8_valid (String "195" (String "169" EmptyString)) = true.
Proof. reflexivity. Qed.

Example utf8_lone_byte : utf8_valid (String "255" EmptyString) = false.
Proof. reflexivity. Qed.

Example utf8_overlong_encoding :
  utf8_valid (String "192" (String "128" EmptyString)) = false.
Proof. reflexivity. Qed.

Example utf8_surrogate :
  utf8_valid (String "237" (String "160" (String "128" EmptyString))) = false.
Proof. reflexivity. Qed.

(** ** The monad and traces *)


Lemma bind_ok {A B} (m : M A) (k : A -> M B) w a w' :
  m w = (Ok a, w') -> bind m k w = k a w'.
Proof. unfold bind. intros ->. reflexivity. Qed.

Lemma bind_raise {A B} (m : M A) (k : A -> M B) w e w' :
  m w = (Raise e, w') -> bind m k w = (Raise e, w').
Proof. unfold bind. intros ->. reflexivity. Qed.

Lemma all_zero_app evs1 evs2 :
  all_zero evs1 -> all_zero evs2 -> all_zero (evs1 ++ evs2)%list.
Proof.
  intros H1 H2 c st H. apply elem_of_app in H as [H|H]; eauto.
Qed.

Lemma no_rmtree_app evs1 evs2 :
  no_rmtree evs1 -> no_rmtree evs2 -> no_rmtree (evs1 ++ evs2)%list.
Proof.
  intros H1 H2 p H. apply elem_of_app in H as [H|H];
    [exact (H1 p H) | exact (H2 p H)].
Qed.

Lemma all_zero_stops evs : all_zero evs -> stops_at_failure evs.
Proof.
  intros H before c st after -> Hst. exfalso. apply Hst.
  apply (H c). apply elem_of_app. right. left.
Qed.

Lemma stops_app evs1 evs2 :
  all_zero evs1 -> stops_at_failure evs2 -> stops_at_failure (evs1 ++ evs2)%list.
Proof.
  intros H1 H2 before c st after E Hst.
  apply app_eq_app in E as [l [[E1 E2]|[E1 E2]]].
  - destruct l as [|ev l].
    + simpl in E2. symmetry in E2. exact (H2 [] c st after E2 Hst).
    + simpl in E2. injection E2 as <- E2. exfalso. apply Hst.
      apply (H1 c). rewrite E1. apply elem_of_app. right. left.
  - exact (H2 l c st after E2 Hst).
Qed.

Lemma guarded_no_rmtree evs : no_rmtree evs -> guarded evs.
Proof.
  intros H before p after ->. exfalso. apply (H p).
  apply elem_of_app. right. left.
Qed.

Lemma guarded_app evs1 evs2 :
  no_rmtree evs1 -> guarded evs2 -> guarded (evs1 ++ evs2)%list.
Proof.
  intros H1 H2 before p after E.
  apply app_eq_app in E as [l [[E1 E2]|[E1 E2]]].
  - destruct l as [|ev l].
    + simpl in E2. symmetry in E2.
      destruct (H2 [] p after E2) as (m & r & s & e & H). inversion H.
    + simpl in E2. injection E2 as <- E2. exfalso. apply (H1 p).
      rewrite E1. apply elem_of_app. right. left.
  - destruct (H2 l p after E2) as (m & r & s & e & H).
    exists m, r, s, e. rewrite E1. apply elem_of_app. right. exact H.
Qed.

Lemma emits_bind {A B} (m : M A) (k : A -> M B)
    (Q1 : result A -> list event -> Prop)
    (Q2 : A -> result B -> list event -> Prop)
    (Q : result B -> list event -> Prop) :
  emits m Q1 ->
  (forall a, emits (k a) (Q2 a)) ->
  (forall e evs, Q1 (Raise e) evs -> Q (Raise e) evs) ->
  (forall a r evs1 evs2, Q1 (Ok a) evs1 -> Q2 a r evs2 -> Q r (evs1 ++ evs2)%list) ->
  emits (bind m k) Q.
Proof.
  intros Hm Hk Hraise Hok w. unfold bind.
  destruct (Hm w) as (evs1 & E1 & H1).
  destruct (m w) as [[a|e] w1]; cbn [fst snd] in *.
  - destruct (Hk a w1) as (evs2 & E2 & H2).
    exists (evs1 ++ evs2)%list. split.
    + rewrite E2, E1, app_assoc. reflexivity.
    + eapply Hok; eassumption.
  - exists evs1. split; [exact E1 | apply Hraise, H1].
Qed.

Lemma quiet_bind {A B} (m : M A) (k : A -> M B) :
  emits m quiet -> (forall a, emits (k a) quiet) -> emits (bind m k) quiet.
Proof.
  intros Hm Hk. apply (emits_bind m k quiet (fun _ => quiet)); auto.
  intros a r evs1 evs2 [N1 Z1] [N2 H2]. split.
  - apply no_rmtree_app; assumption.
  - destruct r; [apply all_zero_app | apply stops_app]; assumption.
Qed.

Lemma run_post_bind {A B} (m : M A) (k : A -> M B) :
  emits m quiet -> (forall a, emits (k a) run_post) ->
  emits (bind m k) run_post.
Proof.
  intros Hm Hk. apply (emits_bind m k quiet (fun _ => run_post)); auto.
  - intros e evs [N S]. repeat split; auto using guarded_no_rmtree.
  - intros a r evs1 evs2 [N1 Z1] (S2 & G2 & H2). repeat split.
    + apply stops_app; assumption.
    + apply guarded_app; assumption.
    + destruct r; [apply all_zero_app | apply no_rmtree_app]; assumption.
Qed.

Lemma logging_log_run (lvl : Z) (message : string) (w : World) :
  exists logs,
    logging_log lvl message w =
      (Ok tt, {| fs := fs w; cwd := cwd w; loglevel := loglevel w;
                 handlers := true; trace := trace w ++ logs |})
    /\ Forall is_log logs.
Proof.
  unfold logging_log, emit, with_handler. destruct (loglevel w <=? lvl)%Z.
  - exists [EvLog lvl message]. split; [reflexivity|].
    constructor; [exact I | constructor].
  - exists []. rewrite app_nil_r. split; [reflexivity | constructor].
Qed.

Lemma is_log_harmless ev : is_log ev -> harmless ev.
Proof. destruct ev; simpl; auto. Qed.

Lemma quiet_of_harmless {A} (r : result A) evs :
  Forall harmless evs -> quiet r evs.
Proof.
  intros H.
  assert (Hz : all_zero evs).
  { intros c st Hin. rewrite Forall_forall in H.
    destruct (H _ Hin). }
  split.
  - intros p Hin. rewrite Forall_forall in H.
    destruct (H _ Hin).
  - destruct r; [exact Hz | apply all_zero_stops, Hz].
Qed.


Lemma quiet_silent {A} (m : M A) : silent m -> emits m quiet.
Proof.
  intros H w. exists []. rewrite H, app_nil_r. split; [reflexivity|].
  apply quiet_of_harmless. constructor.
Qed.

Lemma silent_ret {A} (a : A) : silent (ret a).
Proof. intros w. reflexivity. Qed.

Lemma silent_raise {A} (e : exn) : silent (@raise A e).
Proof. intros w. reflexivity. Qed.

Lemma silent_getitem {V} (d : gmap string V) k : silent (getitem d k).
Proof. intros w. unfold getitem. destruct (d !! k); reflexivity. Qed.

Lemma silent_decode b : silent (decode b).
Proof. intros w. unfold decode. destruct (utf8_valid b); reflexivity. Qed.

Lemma silent_getEffectiveLevel : silent getEffectiveLevel.
Proof. intros w. reflexivity. Qed.

Lemma quiet_ret {A} (a : A) : emits (ret a) quiet.
Proof. apply quiet_silent, silent_ret. Qed.

Lemma quiet_raise {A} (e : exn) : emits (@raise A e) quiet.
Proof. apply quiet_silent, silent_raise. Qed.

Lemma quiet_getitem {V} (d : gmap string V) k : emits (getitem d k) quiet.
Proof. apply quiet_silent, silent_getitem. Qed.

Lemma quiet_logging_log lvl message : emits (logging_log lvl message) quiet.
Proof.
  intros w. destruct (logging_log_run lvl message w) as (logs & -> & H).
  exists logs. split; [reflexivity|]. apply quiet_of_harmless.
  eapply Forall_impl; [exact H|]. apply is_log_harmless.
Qed.

Lemma quiet_basicConfig level : emits (logging_basicConfig level) quiet.
Proof.
  intros w. exists []. unfold logging_basicConfig.
  destruct (handlers w); cbn [fst snd trace]; rewrite app_nil_r;
    (split; [reflexivity|]); apply quiet_of_harmless; constructor.
Qed.

Lemma quiet_chdir path : emits (os_chdir path) quiet.
Proof.
  intros w. unfold os_chdir. case_bool_decide.
  - exists [EvChdir (path_join (cwd w) path)]. split; [reflexivity|].
    apply quiet_of_harmless. repeat constructor.
  - exists []. cbn. rewrite app_nil_r. split; [reflexivity|].
    apply quiet_of_harmless. constructor.
Qed.

Lemma quiet_read_text path : emits (read_text path) quiet.
Proof.
  intros w. unfold read_text. cbv zeta.
  destruct (contents (fs w) !! _);
    [destruct (utf8_valid _) | case_bool_decide].
  1,2: eexists [_]; split; [reflexivity|];
       apply quiet_of_harmless; repeat constructor.
  all: exists []; cbn [fst snd]; rewrite app_nil_r; split; [reflexivity|];
       apply quiet_of_harmless; constructor.
Qed.

Lemma quiet_mkdtemp mk prefix : emits (tempfile_mkdtemp mk prefix) quiet.
Proof.
  intros w. eexists [_]. split; [reflexivity|].
  apply quiet_of_harmless. repeat constructor.
Qed.

(** The trace [execute] leaves: log records around one subprocess. *)
Lemma execute_trace shell (cmd : string) (w : World) :
  exists logs1 logs2,
    Forall is_log logs1 /\ Forall is_log logs2 /\
    trace (execute shell cmd w).2 =
      (trace w ++ logs1
       ++ EvPopen cmd (returncode (shell cmd (cwd w) (fs w)).1) :: logs2)%list.
Proof.
  unfold execute, bind, getEffectiveLevel, logging_debug, Popen_communicate,
    decode, ret, raise.
  destruct (logging_log_run DEBUG ("Executing " ++ dq ++ cmd ++ dq) w)
    as (logs & -> & Hlogs).
  cbn [fs cwd loglevel trace].
  destruct (shell cmd (cwd w) (fs w)) as [p f'].
  cbn [fst snd].
  exists logs.
  destruct (utf8_valid (stdout_bytes p));
    [|exists []; repeat split; auto; cbn; now rewrite <- app_assoc].
  destruct (utf8_valid (stderr_bytes p));
    [|exists []; repeat split; auto; cbn; now rewrite <- app_assoc].
  destruct (loglevel w =? DEBUG)%Z.
  - match goal with
    | |- context [logging_log ?l ?m ?w0] =>
        destruct (logging_log_run l m w0) as (logs' & -> & Hlogs')
    end.
    exists logs'. repeat split; auto.
    destruct (returncode p =? 0)%Z; cbn;
      rewrite <- !app_assoc; reflexivity.
  - exists []. repeat split; auto.
    destruct (returncode p =? 0)%Z; cbn; now rewrite <- app_assoc.
Qed.

Lemma execute_result shell (cmd : string) (w : World) :
  (execute shell cmd w).1 =
    let p := (shell cmd (cwd w) (fs w)).1 in
    let stdout := rstrip_nl (stdout_bytes p) in
    let stderr := rstrip_nl (stderr_bytes p) in
    if utf8_valid (stdout_bytes p) then
      if utf8_valid (stderr_bytes p) then
        if (returncode p =? 0)%Z then Ok (returncode p, stdout, stderr)
        else Raise (Exception
                      (failure_message cmd (returncode p) stdout stderr))
      else Raise UnicodeDecodeError
    else Raise UnicodeDecodeError.
Proof.
  unfold execute, bind, getEffectiveLevel, logging_debug, Popen_communicate,
    decode, ret, raise.
  destruct (logging_log_run DEBUG ("Executing " ++ dq ++ cmd ++ dq) w)
    as (logs & -> & _).
  cbn [fs cwd loglevel trace].
  destruct (shell cmd (cwd w) (fs w)) as [p f'].
  cbn [fst snd].
  destruct (utf8_valid (stdout_bytes p)); [|reflexivity].
  destruct (utf8_valid (stderr_bytes p)); [|reflexivity].
  destruct (loglevel w =? DEBUG)%Z.
  - match goal with
    | |- context [logging_log ?l ?m ?w0] =>
        destruct (logging_log_run l m w0) as (logs' & -> & _)
    end.
    destruct (returncode p =? 0)%Z; reflexivity.
  - destruct (returncode p =? 0)%Z; reflexivity.
Qed.

Lemma stops_around_popen logs1 logs2 cmd status :
  Forall is_log logs1 -> Forall is_log logs2 ->
  stops_at_failure (logs1 ++ EvPopen cmd status :: logs2)%list.
Proof.
  intros H1 H2 before c st after E _.
  apply app_eq_app in E as [l [[E1 E2]|[E1 E2]]].
  - destruct l as [|ev l]; simpl in E2.
    + injection E2 as _ _ ->. exact H2.
    + injection E2 as <- _. subst logs1.
      apply Forall_app in H1 as [_ H1]. inversion H1 as [|? ? F _]. destruct F.
  - destruct l as [|ev l]; simpl in E2.
    + injection E2 as _ _ <-. exact H2.
    + injection E2 as _ ->. apply Forall_app in H2 as [_ H2].
      inversion H2; assumption.
Qed.

Lemma quiet_execute shell cmd : emits (execute shell cmd) quiet.
Proof.
  intros w.
  destruct (execute_trace shell cmd w) as (l1 & l2 & H1 & H2 & E).
  eexists. split; [exact E|]. split.
  - intros p Hin. apply elem_of_app in Hin as [Hin|Hin].
    + rewrite Forall_forall in H1. destruct (H1 _ Hin).
    + apply elem_of_cons in Hin as [Hin|Hin]; [discriminate|].
      rewrite Forall_forall in H2. destruct (H2 _ Hin).
  - rewrite execute_result. cbv zeta.
    destruct (utf8_valid _); [|now apply stops_around_popen].
    destruct (utf8_valid _); [|now apply stops_around_popen].
    destruct (returncode _ =? 0)%Z eqn:Hz; [|now apply stops_around_popen].
    apply Z.eqb_eq in Hz.
    intros c st Hin. apply elem_of_app in Hin as [Hin|Hin].
    + rewrite Forall_forall in H1. destruct (H1 _ Hin).
    + apply elem_of_cons in Hin as [Hin|Hin].
      * injection Hin as _ ->. exact Hz.
      * rewrite Forall_forall in H2. destruct (H2 _ Hin).
Qed.

Create HintDb quiet.
#[export] Hint Resolve quiet_ret quiet_raise quiet_getitem quiet_logging_log
  quiet_basicConfig quiet_chdir quiet_read_text quiet_mkdtemp quiet_execute
  : quiet.

Lemma quiet_decode b : emits (decode b) quiet.
Proof. apply quiet_silent, silent_decode. Qed.

Lemma quiet_getEffectiveLevel : emits getEffectiveLevel quiet.
Proof. apply quiet_silent, silent_getEffectiveLevel. Qed.

#[export] Hint Resolve quiet_decode quiet_getEffectiveLevel : quiet.

(** Walk through a sequence of quiet steps. *)
Ltac quiet_steps :=
  repeat first
    [ progress cbv zeta
    | solve [ auto with quiet ]
    | apply quiet_bind; [|intros ?]
    | match goal with
      | |- emits (if ?c then _ else _) _ => destruct c
      | |- emits (match ?x with _ => _ end) _ => destruct x
      | |- emits (logging_info _) _ => apply quiet_logging_log
      | |- emits (logging_debug _) _ => apply quiet_logging_log
      | |- emits (logging_error _) _ => apply quiet_logging_log
      end ].

Lemma quiet_given_or a fallback :
  emits fallback quiet -> emits (given_or a fallback) quiet.
Proof. intros H. unfold given_or. quiet_steps. Qed.


Lemma quiet_parse_arguments args : emits (parse_arguments args) quiet.
Proof.
  unfold parse_arguments.
  repeat first [ apply quiet_given_or | progress quiet_steps ].
Qed.

Lemma quiet_setup_logging : emits setup_logging quiet.
Proof. unfold setup_logging. quiet_steps. Qed.

Lemma quiet_get_workdir mk now fork branch compiler :
  emits (get_workdir mk now fork branch compiler) quiet.
Proof. unfold get_workdir. quiet_steps. Qed.

Lemma quiet_checkout_code BASEDIR shell fork branch tmpdir :
  emits (checkout_code BASEDIR shell fork branch tmpdir) quiet.
Proof. unfold checkout_code. quiet_steps. Qed.

Lemma quiet_run_tests BASEDIR shell now system compiler project rtconfig
    keep tmpdir :
  emits (run_tests BASEDIR shell now system compiler project rtconfig keep
           tmpdir) quiet.
Proof. unfold run_tests. quiet_steps. Qed.

Lemma quiet_check_logs shell system compiler tmpdir rtlog keep email :
  emits (check_logs shell system compiler tmpdir rtlog keep email) quiet.
Proof. unfold check_logs. quiet_steps. Qed.

Lemma execute_popen shell cmd :
  emits (execute shell cmd)
    (fun r evs => quiet r evs /\ (~ is_raise r -> EvPopen cmd 0 ∈ evs)).
Proof.
  intros w. destruct (quiet_execute shell cmd w) as (evs & E & Hq).
  exists evs. split; [exact E|]. split; [exact Hq|].
  destruct (execute_trace shell cmd w) as (l1 & l2 & _ & _ & E').
  rewrite E' in E. apply app_inv_head in E. subst evs.
  rewrite execute_result. cbv zeta.
  destruct (utf8_valid _); [|intros H; destruct H; exact I].
  destruct (utf8_valid _); [|intros H; destruct H; exact I].
  destruct (returncode _ =? 0)%Z eqn:Hz; [|intros H; destruct H; exact I].
  apply Z.eqb_eq in Hz. rewrite Hz. intros _.
  apply elem_of_app. right. left.
Qed.

Lemma mailed_after_quiet {A B} (m : M A) (k : A -> M B) :
  emits m quiet -> (forall a, emits (k a) mailed) -> emits (bind m k) mailed.
Proof.
  intros Hm Hk. apply (emits_bind m k quiet (fun _ => mailed)); auto.
  - intros e evs H. split; [exact H|]. intros N. destruct N. exact I.
  - intros a r evs1 evs2 [N1 Z1] [[N2 H2] Hmail]. split; [split|].
    + apply no_rmtree_app; assumption.
    + destruct r; [apply all_zero_app | apply stops_app]; assumption.
    + intros Hr. destruct (Hmail Hr) as (ms & rl & s & e & Hin).
      exists ms, rl, s, e. apply elem_of_app. right. exact Hin.
Qed.

Lemma mailed_check_logs shell system compiler tmpdir rtlog keep email :
  emits (check_logs shell system compiler tmpdir rtlog keep email) mailed.
Proof.
  unfold check_logs.
  apply mailed_after_quiet; [quiet_steps|]. intros text. cbv zeta.
  apply mailed_after_quiet; [quiet_steps|]. intros [subject message].
  eapply emits_bind;
    [ apply execute_popen | intros a; apply quiet_ret | | ].
  - intros e evs [H _]. split; [exact H|]. intros N. destruct N. exact I.
  - intros a r evs1 evs2 [[N1 Z1] Hp] [N2 H2]. split; [split|].
    + apply no_rmtree_app; assumption.
    + destruct r; [apply all_zero_app | apply stops_app]; assumption.
    + intros _. exists message, rtlog, subject, email.
      apply elem_of_app. left. apply Hp. intros N. exact N.
Qed.

Lemma shutil_rmtree_trace path w :
  match shutil_rmtree path w with
  | (Ok _, w') => trace w' = (trace w ++ [EvRmtree (path_join (cwd w) path)])%list
  | (Raise _, w') => w' = w
  end.
Proof. unfold shutil_rmtree. case_bool_decide; reflexivity. Qed.

Lemma cleanup_tail success keep tmpdir :
  emits (run cleanup success keep tmpdir;
         logging_info "Finished automatic regression test") tail_post.
Proof.
  intros w. unfold cleanup, bind, logging_debug, logging_info, ret.
  destruct (success && negb keep).
  - destruct (logging_log_run DEBUG
                ("Deleting temporary directory " ++ tmpdir) w)
      as (l1 & -> & H1).
    match goal with
    | |- context [shutil_rmtree ?p ?w0] =>
        pose proof (shutil_rmtree_trace p w0) as Hrm;
        destruct (shutil_rmtree p w0) as [[[]|e] w1]
    end; cbn [trace cwd] in Hrm.
    + destruct (logging_log_run INFO
                  "Finished automatic regression test" w1) as (l2 & -> & H2).
      cbn [fst snd trace]. rewrite Hrm.
      eexists (l1 ++ _ :: l2)%list. split.
      * rewrite <- !app_assoc. reflexivity.
      * split; [|intros []].
        intros c st Hin. apply elem_of_app in Hin as [Hin|Hin].
        -- rewrite Forall_forall in H1. destruct (H1 _ Hin).
        -- apply elem_of_cons in Hin as [Hin|Hin]; [discriminate|].
           rewrite Forall_forall in H2. destruct (H2 _ Hin).
    + subst w1. cbn [fst snd trace]. exists l1. split; [reflexivity|].
      split.
      * intros c st Hin. rewrite Forall_forall in H1. destruct (H1 _ Hin).
      * intros _ p Hin. rewrite Forall_forall in H1. destruct (H1 _ Hin).
  - destruct (logging_log_run INFO
                "Finished automatic regression test" w) as (l2 & -> & H2).
    cbn [fst snd trace]. exists l2. split; [reflexivity|]. split.
    + intros c st Hin. rewrite Forall_forall in H2. destruct (H2 _ Hin).
    + intros [].
Qed.

Lemma no_popen_all_zero evs : no_popen evs -> all_zero evs.
Proof. intros H c st Hin. destruct (H c st Hin). Qed.

Lemma guarded_after_mail evs1 evs2 :
  no_rmtree evs1 ->
  (exists message rtlog subject email,
     EvPopen (mail_cmd message rtlog subject email) 0 ∈ evs1) ->
  guarded (evs1 ++ evs2)%list.
Proof.
  intros H1 (m & r & s & e & Hmail) before p after E.
  exists m, r, s, e.
  apply app_eq_app in E as [l [[E1 E2]|[E1 E2]]].
  - destruct l as [|ev l]; simpl in E2.
    + rewrite app_nil_r in E1. subst before. exact Hmail.
    + injection E2 as <- _. exfalso. apply (H1 p). rewrite E1.
      apply elem_of_app. right. left.
  - rewrite E1. apply elem_of_app. left. exact Hmail.
Qed.

Lemma run_post_main BASEDIR now shell mk args :
  emits (main BASEDIR now shell mk args) run_post.
Proof.
  unfold main. cbv zeta.
  apply run_post_bind; [apply quiet_setup_logging|]. intros _.
  apply run_post_bind; [apply quiet_logging_log|]. intros _.
  apply run_post_bind; [apply quiet_parse_arguments|].
  intros [[[[[[[fork branch] system] compiler] project] rtconfig] keep] email].
  apply run_post_bind; [apply quiet_get_workdir|]. intros tmpdir.
  apply run_post_bind; [apply quiet_checkout_code|]. intros _.
  apply run_post_bind; [apply quiet_run_tests|]. intros rtlog.
  eapply emits_bind;
    [ apply mailed_check_logs | intros success; apply cleanup_tail | | ].
  - intros e evs [[N S] _]. repeat split; auto using guarded_no_rmtree.
  - intros success r evs1 evs2 [[N1 Z1] Hmail] [P2 R2].
    assert (Hz : all_zero (evs1 ++ evs2)%list)
      by (apply all_zero_app; [exact Z1 | apply no_popen_all_zero, P2]).
    repeat split.
    + apply all_zero_stops, Hz.
    + apply guarded_after_mail; [exact N1 | apply Hmail; intros []].
    + destruct r; [exact Hz|].
      apply no_rmtree_app; [exact N1 | apply R2; exact I].
Qed.

(** ** The configuration tables *)

Lemma SYSTEMS_inv system entry :
  SYSTEMS !! system = Some entry ->
  (system = "cheyenne" /\
   entry = {| compilers := [ "intel"; "gnu" ];
              default_compiler := "intel";
              default_project := "P48503002";
              default_rtconfig :=
                <[ "intel" := "rt.conf" ]> (<[ "gnu" := "rt_gnu.conf" ]> ∅) |})
  \/
  (system = "hera" /\
   entry = {| compilers := [ "intel" ];
              default_compiler := "intel";
              default_project := "gmtb";
              default_rtconfig := <[ "intel" := "rt.conf" ]> ∅ |}).
Proof.
  unfold SYSTEMS. intros H.
  apply lookup_insert_Some in H as [[<- <-]|[_ H]]; [left; auto|].
  apply lookup_insert_Some in H as [[<- <-]|[_ H]]; [right; auto|].
  rewrite lookup_empty in H. discriminate.
Qed.

Lemma default_compiler_allowed system entry :
  SYSTEMS !! system = Some entry ->
  default_compiler entry ∈ compilers entry.
Proof.
  intros H. destruct (SYSTEMS_inv _ _ H) as [[_ ->]|[_ ->]]; cbn; left.
Qed.

Lemma default_rtconfig_total system entry compiler :
  SYSTEMS !! system = Some entry ->
  compiler ∈ compilers entry ->
  exists rtconfig, default_rtconfig entry !! compiler = Some rtconfig.
Proof.
  intros H Hc. destruct (SYSTEMS_inv _ _ H) as [[_ ->]|[_ ->]];
    cbn in *; repeat (apply elem_of_cons in Hc as [->|Hc]);
    try (inversion Hc; fail); eexists; reflexivity.
Qed.

Lemma FORKS_emc :
  FORKS !! "emc" =
    Some {| branches := [ "develop" ];
            url := "https://github.com/ufs-community/ufs-weather-model" |}.
Proof. reflexivity. Qed.

Lemma SYSTEMS_hera :
  SYSTEMS !! "hera" =
    Some {| compilers := [ "intel" ]; default_compiler := "intel";
            default_project := "gmtb";
            default_rtconfig := <[ "intel" := "rt.conf" ]> ∅ |}.
Proof. reflexivity. Qed.

(** ** The resolver *)

Lemma getitem_ok {V} (d : gmap string V) k v w :
  d !! k = Some v -> getitem d k w = (Ok v, w).
Proof. unfold getitem. intros ->. reflexivity. Qed.

Lemma given_or_default a (fallback : M string) d w :
  fallback w = (Ok d, w) -> given_or a fallback w = (Ok (chosen a d), w).
Proof. intros H. destruct a as [s|]; [destruct s|]; cbn; auto. Qed.

(** Run the first step of a sequence with a known outcome. *)
Ltac step_ok H := rewrite (bind_ok _ _ _ _ _ H); cbv beta.

Ltac step_log :=
  match goal with
  | |- context [bind (logging_log ?l ?m) ?k ?w0] =>
      let logs := fresh "logs" in
      let E := fresh "E" in
      let H := fresh "Hlogs" in
      destruct (logging_log_run l m w0) as (logs & E & H);
      rewrite (bind_ok _ _ _ _ _ E); cbv beta; clear E
  end.

Lemma parse_arguments_ok args w fork_entry system_entry rtconfig :
  FORKS !! arg_fork args = Some fork_entry ->
  arg_branch args ∈ branches fork_entry ->
  SYSTEMS !! arg_system args = Some system_entry ->
  chosen (arg_compiler args) (default_compiler system_entry)
    ∈ compilers system_entry ->
  default_rtconfig system_entry
    !! chosen (arg_compiler args) (default_compiler system_entry)
    = Some rtconfig ->
  (parse_arguments args w).1 =
    Ok (arg_fork args, arg_branch args, arg_system args,
        chosen (arg_compiler args) (default_compiler system_entry),
        chosen (arg_project args) (default_project system_entry),
        chosen (arg_rtconfig args) rtconfig,
        arg_keep args,
        chosen (arg_email args) DEFAULT_EMAIL_RECIPIENT).
Proof.
  intros Hf Hb Hs Hc Hr. unfold parse_arguments, logging_info. cbv zeta.
  rewrite bool_decide_eq_true_2 by (apply elem_of_dom; eauto). cbn [negb].
  step_ok (getitem_ok _ _ _ w Hf).
  rewrite bool_decide_eq_true_2 by exact Hb. cbn [negb].
  step_log.
  rewrite bool_decide_eq_true_2 by (apply elem_of_dom; eauto). cbn [negb].
  assert (Hdef : forall (f : SystemEntry -> string) w0,
             (do se <- getitem SYSTEMS (arg_system args);
              ret (f se)) w0 = (Ok (f system_entry), w0)).
  { intros f w0. rewrite (bind_ok _ _ _ _ _ (getitem_ok _ _ _ w0 Hs)).
    reflexivity. }
  match goal with
  | |- context [bind (given_or ?a ?fb) ?k ?w0] =>
      rewrite (bind_ok _ _ _ _ _ (given_or_default a fb _ w0 (Hdef _ w0)))
  end; cbv beta.
  match goal with
  | |- context [bind (getitem SYSTEMS ?s) ?k ?w0] =>
      rewrite (bind_ok _ _ _ _ _ (getitem_ok _ _ _ w0 Hs))
  end; cbv beta.
  rewrite bool_decide_eq_true_2 by exact Hc. cbn [negb].
  match goal with
  | |- context [bind (given_or ?a ?fb) ?k ?w0] =>
      rewrite (bind_ok _ _ _ _ _ (given_or_default a fb _ w0 (Hdef _ w0)))
  end; cbv beta.
  assert (Hrt : forall w0,
             (do se <- getitem SYSTEMS (arg_system args);
              getitem (default_rtconfig se)
                (chosen (arg_compiler args) (default_compiler system_entry)))
               w0 = (Ok rtconfig, w0)).
  { intros w0. rewrite (bind_ok _ _ _ _ _ (getitem_ok _ _ _ w0 Hs)).
    apply getitem_ok, Hr. }
  match goal with
  | |- context [bind (given_or ?a ?fb) ?k ?w0] =>
      rewrite (bind_ok _ _ _ _ _ (given_or_default a fb _ w0 (Hrt w0)))
  end; cbv beta.
  step_log.
  destruct (arg_keep args); step_log;
    match goal with
    | |- context [bind (given_or ?a ?fb) ?k ?w0] =>
        rewrite (bind_ok _ _ _ _ _
                   (given_or_default a fb DEFAULT_EMAIL_RECIPIENT w0 eq_refl))
    end; reflexivity.
Qed.

(** ** Steps that only log *)

Lemma logs_only_refl w : logs_only w w.
Proof.
  repeat split. exists []. rewrite app_nil_r. split; [reflexivity|constructor].
Qed.

Lemma logs_only_trans w1 w2 w3 :
  logs_only w1 w2 -> logs_only w2 w3 -> logs_only w1 w3.
Proof.
  intros (F1 & C1 & l1 & T1 & H1) (F2 & C2 & l2 & T2 & H2).
  split; [congruence|]. split; [congruence|].
  exists (l1 ++ l2)%list. split.
  - rewrite T2, T1, app_assoc. reflexivity.
  - apply Forall_app; auto.
Qed.

Lemma only_logs_bind {A B} (m : M A) (k : A -> M B) :
  only_logs m -> (forall a, only_logs (k a)) -> only_logs (bind m k).
Proof.
  intros Hm Hk w. unfold bind. specialize (Hm w).
  destruct (m w) as [[a|e] w1]; cbn [snd] in *; [|exact Hm].
  eapply logs_only_trans; [exact Hm | apply Hk].
Qed.

Lemma only_logs_silent {A} (m : M A) : silent m -> only_logs m.
Proof. intros H w. rewrite H. apply logs_only_refl. Qed.

Lemma only_logs_logging_log lvl message : only_logs (logging_log lvl message).
Proof.
  intros w. destruct (logging_log_run lvl message w) as (logs & -> & H).
  repeat split. exists logs. auto.
Qed.

Lemma only_logs_given_or a fallback :
  only_logs fallback -> only_logs (given_or a fallback).
Proof.
  intros H. destruct a as [s|]; [destruct s|]; cbn; auto;
    apply only_logs_silent, silent_ret.
Qed.

Ltac only_logs_steps :=
  repeat first
    [ progress cbv zeta
    | apply only_logs_logging_log
    | apply only_logs_silent;
      first [ apply silent_ret | apply silent_raise | apply silent_getitem
            | apply silent_getEffectiveLevel ]
    | apply only_logs_given_or
    | apply only_logs_bind; [|intros ?]
    | match goal with
      | |- only_logs (if ?c then _ else _) => destruct c
      | |- only_logs (match ?x with _ => _ end) => destruct x
      end ].

Lemma only_logs_parse_arguments args : only_logs (parse_arguments args).
Proof.
  unfold parse_arguments, logging_info. only_logs_steps.
Qed.

Lemma only_logs_setup_logging : only_logs setup_logging.
Proof.
  intros w. unfold setup_logging, bind, logging_basicConfig, getEffectiveLevel,
    logging_info. destruct (handlers w); cbn [loglevel];
  match goal with
  | |- context [logging_log ?l ?m ?w0] =>
      destruct (logging_log_run l m w0) as (logs & -> & H)
  end;
  repeat split; exists logs; auto.
Qed.

(** ** Invalid selections *)

Lemma parse_arguments_bad_fork args w :
  arg_fork args ∉ dom FORKS ->
  (parse_arguments args w).1
  = Raise (Exception ("Invalid fork " ++ arg_fork args)).
Proof.
  intros H. unfold parse_arguments.
  rewrite bool_decide_eq_false_2 by exact H. reflexivity.
Qed.

Lemma parse_arguments_bad_branch args w fork_entry :
  FORKS !! arg_fork args = Some fork_entry ->
  arg_branch args ∉ branches fork_entry ->
  (parse_arguments args w).1
  = Raise (Exception ("Invalid branch " ++ arg_branch args ++ " of fork")).
Proof.
  intros Hf Hb. unfold parse_arguments. cbv zeta.
  rewrite bool_decide_eq_true_2 by (apply elem_of_dom; eauto). cbn [negb].
  step_ok (getitem_ok _ _ _ w Hf).
  rewrite bool_decide_eq_false_2 by exact Hb. reflexivity.
Qed.

Lemma parse_arguments_bad_system args w fork_entry :
  FORKS !! arg_fork args = Some fork_entry ->
  arg_branch args ∈ branches fork_entry ->
  arg_system args ∉ dom SYSTEMS ->
  (parse_arguments args w).1
  = Raise (Exception ("Invalid system " ++ arg_system args)).
Proof.
  intros Hf Hb Hs. unfold parse_arguments, logging_info. cbv zeta.
  rewrite bool_decide_eq_true_2 by (apply elem_of_dom; eauto). cbn [negb].
  step_ok (getitem_ok _ _ _ w Hf).
  rewrite bool_decide_eq_true_2 by exact Hb. cbn [negb].
  step_log.
  rewrite bool_decide_eq_false_2 by exact Hs. reflexivity.
Qed.

Lemma parse_arguments_bad_compiler args w fork_entry system_entry :
  FORKS !! arg_fork args = Some fork_entry ->
  arg_branch args ∈ branches fork_entry ->
  SYSTEMS !! arg_system args = Some system_entry ->
  chosen (arg_compiler args) (default_compiler system_entry)
    ∉ compilers system_entry ->
  (parse_arguments args w).1
  = Raise (Exception
             ("Invalid compiler "
              ++ chosen (arg_compiler args) (default_compiler system_entry)
              ++ " for system " ++ arg_system args)).
Proof.
  intros Hf Hb Hs Hc. unfold parse_arguments, logging_info. cbv zeta.
  rewrite bool_decide_eq_true_2 by (apply elem_of_dom; eauto). cbn [negb].
  step_ok (getitem_ok _ _ _ w Hf).
  rewrite bool_decide_eq_true_2 by exact Hb. cbn [negb].
  step_log.
  rewrite bool_decide_eq_true_2 by (apply elem_of_dom; eauto). cbn [negb].
  assert (Hdef : forall (f : SystemEntry -> string) w0,
             (do se <- getitem SYSTEMS (arg_system args);
              ret (f se)) w0 = (Ok (f system_entry), w0)).
  { intros f w0. rewrite (bind_ok _ _ _ _ _ (getitem_ok _ _ _ w0 Hs)).
    reflexivity. }
  match goal with
  | |- context [bind (given_or ?a ?fb) ?k ?w0] =>
      rewrite (bind_ok _ _ _ _ _ (given_or_default a fb _ w0 (Hdef _ w0)))
  end; cbv beta.
  match goal with
  | |- context [bind (getitem SYSTEMS ?s) ?k ?w0] =>
      rewrite (bind_ok _ _ _ _ _ (getitem_ok _ _ _ w0 Hs))
  end; cbv beta.
  rewrite bool_decide_eq_false_2 by exact Hc. reflexivity.
Qed.

(** An invalid selection is rejected with one and the same message in
    every world. *)
Lemma parse_arguments_invalid args :
  invalid_selection args ->
  exists message,
    String.prefix "Invalid " message = true /\
    forall w, (parse_arguments args w).1 = Raise (Exception message).
Proof.
  intros Hinv.
  destruct (FORKS !! arg_fork args) as [fork_entry|] eqn:Hf.
  2:{ eexists. split; [|intros w; apply parse_arguments_bad_fork;
                          apply not_elem_of_dom, Hf]. reflexivity. }
  destruct (decide (arg_branch args ∈ branches fork_entry)) as [Hb|Hb].
  2:{ eexists. split; [|intros w; eapply parse_arguments_bad_branch; eauto].
      reflexivity. }
  destruct (SYSTEMS !! arg_system args) as [system_entry|] eqn:Hs.
  2:{ eexists. split; [|intros w; eapply parse_arguments_bad_system; eauto;
                          apply not_elem_of_dom, Hs]. reflexivity. }
  destruct (decide (chosen (arg_compiler args) (default_compiler system_entry)
                      ∈ compilers system_entry)) as [Hc|Hc].
  2:{ eexists. split; [|intros w; eapply parse_arguments_bad_compiler; eauto].
      reflexivity. }
  exfalso. destruct Hinv as [H|[(fe & H1 & H2)|[H|(se & H1 & H2)]]].
  - apply H, elem_of_dom. eauto.
  - rewrite Hf in H1. injection H1 as <-. auto.
  - apply H, elem_of_dom. eauto.
  - rewrite Hs in H1. injection H1 as <-. auto.
Qed.

(** C4.  An argument set whose fork is not a key of [FORKS], whose branch
    is not among the chosen fork's branches, whose system is not a key of
    [SYSTEMS], or whose compiler (the one given, or the system's default
    when none is given) is not among the chosen system's compilers, makes
    the resolver raise [Exception "Invalid ..."].  [main] then stops with
    that exception, having added nothing but log records to the trace and
    left the file system and the working directory as they were: no
    external command has been run. *)
Theorem invalid_selection_rejected_before_any_command
    BASEDIR now shell mkdtemp_path args w :
  invalid_selection args ->
  exists message,
    String.prefix "Invalid " message = true /\
    (parse_arguments args w).1 = Raise (Exception message) /\
    (main BASEDIR now shell mkdtemp_path args w).1
      = Raise (Exception message) /\
    logs_only w (main BASEDIR now shell mkdtemp_path args w).2.
Proof.
  intros Hinv. destruct (parse_arguments_invalid args Hinv) as (msg & Hp & Hr).
  exists msg. split; [exact Hp|]. split; [apply Hr|].
  unfold main. cbv zeta.
  pose proof (only_logs_setup_logging w) as L1.
  destruct (setup_logging w) as [[[]|e] w1] eqn:E1.
  2:{ exfalso. revert E1. unfold setup_logging, bind, logging_basicConfig,
        getEffectiveLevel, logging_info. destruct (handlers w); cbn [loglevel];
      match goal with
      | |- context [logging_log ?l ?m ?w0] =>
          destruct (logging_log_run l m w0) as (logs & -> & H)
      end; discriminate. }
  cbn [snd] in L1. step_ok E1. unfold logging_info. step_log.
  match goal with
  | |- context [bind (parse_arguments args) ?k ?w0] =>
      pose proof (Hr w0) as E2;
      pose proof (only_logs_parse_arguments args w0) as L2;
      destruct (parse_arguments args w0) as [r w3] eqn:E3;
      cbn [fst snd] in E2, L2; subst r;
      rewrite (bind_raise _ k _ _ _ E3)
  end.
  split; [reflexivity|]. cbn [snd].
  eapply logs_only_trans; [exact L1|].
  eapply logs_only_trans; [|exact L2].
  repeat split. exists logs. auto.
Qed.

(** ** Valid selections and defaults *)

Lemma truthy_nonempty s : s <> "" -> truthy s = true.
Proof. destruct s; [congruence | reflexivity]. Qed.

Lemma chosen_given s d : s <> "" -> chosen (Some s) d = s.
Proof. intros H. unfold chosen. rewrite truthy_nonempty by exact H. reflexivity. Qed.

(** A valid selection is resolved, whatever the optional arguments. *)
Lemma parse_arguments_valid args fork_entry system_entry :
  valid_selection args fork_entry system_entry ->
  exists rtconfig,
    default_rtconfig system_entry
      !! chosen (arg_compiler args) (default_compiler system_entry)
      = Some rtconfig /\
    forall w,
      (parse_arguments args w).1 =
        Ok (arg_fork args, arg_branch args, arg_system args,
            chosen (arg_compiler args) (default_compiler system_entry),
            chosen (arg_project args) (default_project system_entry),
            chosen (arg_rtconfig args) rtconfig,
            arg_keep args,
            chosen (arg_email args) DEFAULT_EMAIL_RECIPIENT).
Proof.
  intros (Hf & Hb & Hs & Hc).
  destruct (default_rtconfig_total _ _ _ Hs Hc) as [rt Hrt].
  exists rt. split; [exact Hrt|]. intros w.
  eapply parse_arguments_ok; eauto.
Qed.

(** C10.  For a valid (fork, branch, system, compiler) selection the
    resolver returns whatever strings are supplied as [--project] and
    [--rtconfig]: no table is consulted for them, and a supplied non-empty
    value is the resolved value. *)
Theorem supplied_project_and_rtconfig_are_accepted
    args fork_entry system_entry w :
  valid_selection args fork_entry system_entry ->
  exists params,
    (parse_arguments args w).1 = Ok params /\
    (forall project,
       arg_project args = Some project -> project <> "" ->
       project_of params = project) /\
    (forall rtconfig,
       arg_rtconfig args = Some rtconfig -> rtconfig <> "" ->
       rtconfig_of params = rtconfig).
Proof.
  intros Hv. destruct (parse_arguments_valid _ _ _ Hv) as (rt & _ & Hp).
  eexists. split; [apply Hp|]. split.
  - intros p -> Hne. cbn. apply chosen_given, Hne.
  - intros r -> Hne. cbn. apply chosen_given, Hne.
Qed.

(** C9 as stated does not hold: a given [--email] is not always used
    unchanged.  With [--email ''] the resolver falls back to the default
    recipient. *)
Lemma given_email_is_not_always_used :
  ~ (forall args w params email,
       arg_email args = Some email ->
       (parse_arguments args w).1 = Ok params ->
       email_of params = email).
Proof.
  intros H.
  specialize (H {| arg_fork := "emc"; arg_branch := "develop";
                   arg_system := "hera"; arg_compiler := None;
                   arg_project := None; arg_rtconfig := None;
                   arg_keep := false; arg_email := Some "" |}
                Sim.world0
                ("emc", "develop", "hera", "intel", "gmtb", "rt.conf", false,
                 "heinzell@ucar.edu")
                "" eq_refl).
  assert (E : email_of ("emc", "develop", "hera", "intel", "gmtb", "rt.conf",
                        false, "heinzell@ucar.edu") = "")
    by (apply H; vm_compute; reflexivity).
  discriminate E.
Qed.

(** C9, amended.  For a valid selection the resolved recipient is
    ['heinzell@ucar.edu'] when [--email] is absent or given with an empty
    value, whatever the system, and it is the given value, unchanged, when
    that value is not empty. *)
Theorem email_recipient_resolution args fork_entry system_entry w :
  valid_selection args fork_entry system_entry ->
  exists params,
    (parse_arguments args w).1 = Ok params /\
    (arg_email args = None -> email_of params = "heinzell@ucar.edu") /\
    (arg_email args = Some "" -> email_of params = "heinzell@ucar.edu") /\
    (forall email,
       arg_email args = Some email -> email <> "" ->
       email_of params = email).
Proof.
  intros Hv. destruct (parse_arguments_valid _ _ _ Hv) as (rt & _ & Hp).
  eexists. split; [apply Hp|]. cbn. repeat split.
  - intros ->. reflexivity.
  - intros ->. reflexivity.
  - intros e -> Hne. apply chosen_given, Hne.
Qed.

Lemma valid_emc_develop_hera compiler project rtconfig keep email :
  compiler = None \/ compiler = Some "" \/ compiler = Some "intel" ->
  valid_selection
    {| arg_fork := "emc"; arg_branch := "develop"; arg_system := "hera";
       arg_compiler := compiler; arg_project := project;
       arg_rtconfig := rtconfig; arg_keep := keep; arg_email := email |}
    {| branches := [ "develop" ];
       url := "https://github.com/ufs-community/ufs-weather-model" |}
    {| compilers := [ "intel" ]; default_compiler := "intel";
       default_project := "gmtb";
       default_rtconfig := <[ "intel" := "rt.conf" ]> ∅ |}.
Proof.
  intros Hc. unfold valid_selection. cbn.
  split; [exact FORKS_emc|]. split; [left|]. split; [exact SYSTEMS_hera|].
  destruct Hc as [->|[->| ->]]; cbn; left.
Qed.

Lemma resolve_emc_develop_hera keep email w :
  (parse_arguments
     {| arg_fork := "emc"; arg_branch := "develop"; arg_system := "hera";
        arg_compiler := None; arg_project := None; arg_rtconfig := None;
        arg_keep := keep; arg_email := email |} w).1
  = Ok ("emc", "develop", "hera", "intel", "gmtb", "rt.conf", keep,
        chosen email DEFAULT_EMAIL_RECIPIENT).
Proof.
  destruct (parse_arguments_valid _ _ _
              (valid_emc_develop_hera None None None keep email
                 (or_introl eq_refl))) as (rt & Hrt & Hp).
  vm_compute in Hrt. injection Hrt as <-. exact (Hp w).
Qed.

(** ** The process executor *)

Lemma str_in_head (needle after : string) :
  str_in needle (needle ++ after) = true.
Proof. apply (str_in_app needle "" after). Qed.

Lemma str_in_append_r (needle a b : string) :
  str_in needle b = true -> str_in needle (a ++ b) = true.
Proof.
  intros H. induction a as [|c a IH]; [exact H|].
  rewrite append_cons. apply str_in_later, IH.
Qed.

Ltac find_substring :=
  repeat first [ apply str_in_head | apply str_in_append_r ].

Lemma failure_message_carries cmd status stdout stderr :
  str_in cmd (failure_message cmd status stdout stderr) = true /\
  str_in (str_of_int status) (failure_message cmd status stdout stderr) = true /\
  str_in stdout (failure_message cmd status stdout stderr) = true /\
  str_in stderr (failure_message cmd status stdout stderr) = true.
Proof. unfold failure_message. repeat split; find_substring. Qed.

(** C1.  [execute] at a command that succeeds with output that is not
    text: the command prints the one byte 255 and exits with status zero,
    and [execute], which decodes both streams before it looks at the
    status, raises [UnicodeDecodeError] where its docstring promises
    status, stdout and stderr. *)
Theorem successful_command_with_binary_output_raises :
  returncode
    (Sim.binary_shell "printf '\377'" (cwd Sim.world0) (fs Sim.world0)).1
  = 0%Z /\
  (execute Sim.binary_shell "printf '\377'" Sim.world0).1
  = Raise UnicodeDecodeError.
Proof. split; [reflexivity|]. rewrite execute_result. reflexivity. Qed.

(** So an exit status of zero does not always make [execute] return. *)
Lemma zero_exit_status_may_still_raise :
  ~ (forall (shell : string -> string -> FileSystem -> Completed * FileSystem)
            cmd w,
       returncode (shell cmd (cwd w) (fs w)).1 = 0%Z ->
       exists triple, (execute shell cmd w).1 = Ok triple).
Proof.
  intros H.
  destruct (H Sim.binary_shell "printf '\377'" Sim.world0 eq_refl)
    as [triple E].
  rewrite execute_result in E. vm_compute in E. discriminate E.
Qed.

(** On output that decodes, [execute] does what its docstring says: when
    both captured streams are well-formed UTF-8, it returns the triple
    (status, stdout, stderr), the streams decoded and without their
    trailing newlines, when the exit status is zero, and otherwise raises
    an [Exception] whose message contains the command string, the exit code
    and both streams. *)
Theorem execute_contract
    (shell : string -> string -> FileSystem -> Completed * FileSystem)
    cmd w p f' :
  shell cmd (cwd w) (fs w) = (p, f') ->
  utf8_valid (stdout_bytes p) = true ->
  utf8_valid (stderr_bytes p) = true ->
  (returncode p = 0%Z ->
   (execute shell cmd w).1
   = Ok (0%Z, rstrip_nl (stdout_bytes p), rstrip_nl (stderr_bytes p))) /\
  (returncode p <> 0%Z ->
   exists message,
     (execute shell cmd w).1 = Raise (Exception message) /\
     str_in cmd message = true /\
     str_in (str_of_int (returncode p)) message = true /\
     str_in (rstrip_nl (stdout_bytes p)) message = true /\
     str_in (rstrip_nl (stderr_bytes p)) message = true).
Proof.
  intros E Hout Herr. rewrite execute_result, E. cbn [fst]. cbv zeta.
  rewrite Hout, Herr. split.
  - intros Hz. rewrite Hz. reflexivity.
  - intros Hnz. apply Z.eqb_neq in Hnz. rewrite Hnz.
    eexists. split; [reflexivity|]. apply failure_message_carries.
Qed.

Lemma execute_contract_witness :
  (execute (Sim.shell Sim.clone_fails Sim.passing_log)
     "git submodule sync" Sim.world0).1
  = Ok (0%Z, "", "")
  /\ exists message,
       (execute (Sim.shell Sim.clone_fails Sim.passing_log)
          "git clone -v -b develop u d" Sim.world0).1
       = Raise (Exception message) /\
       str_in "git clone -v -b develop u d" message = true.
Proof.
  split.
  - apply (execute_contract (Sim.shell Sim.clone_fails Sim.passing_log)
             "git submodule sync" Sim.world0
             (Sim.finished 0 "" "") (fs Sim.world0));
      reflexivity.
  - destruct (execute_contract (Sim.shell Sim.clone_fails Sim.passing_log)
                "git clone -v -b develop u d" Sim.world0
                (Sim.finished 1 "" ("failed" ++ nl)) (fs Sim.world0)
                eq_refl eq_refl eq_refl) as [_ H].
    destruct (H ltac:(discriminate)) as (message & E & Hc & _).
    exists message. split; assumption.
Defined.

(** ** Cleanup *)

Lemma below_refl root : below root root = true.
Proof. unfold below. rewrite String.eqb_refl. reflexivity. Qed.

Lemma remove_tree_gone root f : root ∉ dirs (remove_tree root f).
Proof.
  unfold remove_tree. cbn [dirs]. intros H.
  apply elem_of_filter in H as [H _]. rewrite below_refl in H. discriminate.
Qed.

(** C3.  For every (success, keep) pair, [cleanup] on an existing work
    directory returns normally, and the directory still exists afterwards
    exactly when it is not the case that success is true and keep is
    false. *)
Theorem cleanup_deletes_exactly_on_success_without_keep
    success keep tmpdir w :
  path_join (cwd w) tmpdir ∈ dirs (fs w) ->
  (cleanup success keep tmpdir w).1 = Ok tt /\
  (path_join (cwd w) tmpdir ∈ dirs (fs (cleanup success keep tmpdir w).2)
   <-> ~ (success = true /\ keep = false)).
Proof.
  intros Hexists. unfold cleanup, logging_debug.
  destruct success, keep; cbn [andb negb];
    try (split; [reflexivity|]; cbn [ret snd];
         split; [intros _ [? ?]; discriminate | intros _; exact Hexists]).
  step_log. unfold shutil_rmtree. cbn [fs cwd].
  rewrite bool_decide_eq_true_2 by exact Hexists.
  split; [reflexivity|]. cbn [snd fs]. split.
  - intros H. destruct (remove_tree_gone _ _ H).
  - intros H. destruct H. split; reflexivity.
Qed.

Lemma cleanup_deletes_exactly_on_success_without_keep_witness :
  (Sim.tmpdir ∉ dirs (fs (cleanup true false Sim.tmpdir
                            {| fs := {| dirs := {[ Sim.tmpdir ]}; contents := ∅ |};
                               cwd := "/home/user"; loglevel := 10;
                               handlers := true; trace := [] |}).2))
  /\ (Sim.tmpdir ∈ dirs (fs (cleanup false false Sim.tmpdir
                            {| fs := {| dirs := {[ Sim.tmpdir ]}; contents := ∅ |};
                               cwd := "/home/user"; loglevel := 10;
                               handlers := true; trace := [] |}).2)).
Proof.
  split.
  - intros H.
    apply (proj2 (cleanup_deletes_exactly_on_success_without_keep
                    true false Sim.tmpdir
                    {| fs := {| dirs := {[ Sim.tmpdir ]}; contents := ∅ |};
                       cwd := "/home/user"; loglevel := 10;
                       handlers := true; trace := [] |}
                    ltac:(apply (bool_decide_unpack _); vm_compute; exact I)))
      in H.
    apply H. split; reflexivity.
  - apply (proj2 (cleanup_deletes_exactly_on_success_without_keep
                    false false Sim.tmpdir
                    {| fs := {| dirs := {[ Sim.tmpdir ]}; contents := ∅ |};
                       cwd := "/home/user"; loglevel := 10;
                       handlers := true; trace := [] |}
                    ltac:(apply (bool_decide_unpack _); vm_compute; exact I))).
    intros [? _]. discriminate.
Defined.

(** ** The log evaluator and notifier *)

(** A file is among the readable text files when it is there and its
    bytes decode. *)
Lemma files_lookup f path text :
  files f !! path = Some text <->
  contents f !! path = Some text /\ utf8_valid text = true.
Proof. unfold files. apply map_lookup_filter_Some. Qed.

Lemma read_text_ok path w text :
  files (fs w) !! path_join (cwd w) path = Some text ->
  read_text path w
  = (Ok text, {| fs := fs w; cwd := cwd w; loglevel := loglevel w;
                 handlers := handlers w;
                 trace := trace w ++ [EvOpen (path_join (cwd w) path)] |}).
Proof.
  intros H. apply files_lookup in H as [Hc Hv].
  unfold read_text. cbv zeta. rewrite Hc, Hv. reflexivity.
Qed.

(** A file that is there and does not decode is opened, and reading it
    fails. *)
Lemma read_text_undecodable path w bytes :
  contents (fs w) !! path_join (cwd w) path = Some bytes ->
  utf8_valid bytes = false ->
  read_text path w
  = (Raise UnicodeDecodeError,
     {| fs := fs w; cwd := cwd w; loglevel := loglevel w;
        handlers := handlers w;
        trace := trace w ++ [EvOpen (path_join (cwd w) path)] |}).
Proof.
  intros Hc Hv. unfold read_text. cbv zeta. rewrite Hc, Hv. reflexivity.
Qed.

Lemma bind_assoc {A B C} (m : M A) (k1 : A -> M B) (k2 : B -> M C) w :
  bind (bind m k1) k2 w = bind m (fun a => bind (k1 a) k2) w.
Proof. unfold bind. destruct (m w) as [[a|e] w1]; reflexivity. Qed.

Lemma bind_ret {A B} (a : A) (k : A -> M B) w : bind (ret a) k w = k a w.
Proof. reflexivity. Qed.

(** With a readable log, [check_logs] comes down to running one mail
    command in an unchanged file system and working directory, and handing
    back the verdict read off the log. *)
Lemma check_logs_unfold shell system compiler tmpdir rtlog keep email w text :
  files (fs w) !! path_join (cwd w) rtlog = Some text ->
  exists subject message w2,
    fs w2 = fs w /\ cwd w2 = cwd w /\
    check_logs shell system compiler tmpdir rtlog keep email w
    = bind (execute shell (mail_cmd message rtlog subject email))
        (fun _ => ret (str_in RT_SUCCESSFUL text)) w2.
Proof.
  intros Hlog. unfold check_logs, logging_info, logging_error.
  step_ok (read_text_ok _ _ _ Hlog). cbv zeta.
  destruct (str_in RT_SUCCESSFUL text), keep; cbn [andb negb];
    rewrite bind_assoc; step_log; rewrite bind_ret;
    do 3 eexists; (split; [|split; [|reflexivity]]); reflexivity.
Qed.

Lemma bind_fst_ok {A B} (m : M A) (k : A -> M B) w a :
  (m w).1 = Ok a -> bind m k w = k a (m w).2.
Proof. unfold bind. destruct (m w) as [r w1]. cbn. intros ->. reflexivity. Qed.

Lemma bind_fst_raise {A B} (m : M A) (k : A -> M B) w e :
  (m w).1 = Raise e -> bind m k w = (Raise e, (m w).2).
Proof. unfold bind. destruct (m w) as [r w1]. cbn. intros ->. reflexivity. Qed.

Lemma execute_ok shell cmd w :
  exits_cleanly (shell cmd (cwd w) (fs w)).1 ->
  (execute shell cmd w).1
  = Ok (0%Z, rstrip_nl (stdout_bytes (shell cmd (cwd w) (fs w)).1),
        rstrip_nl (stderr_bytes (shell cmd (cwd w) (fs w)).1)).
Proof.
  intros (Hz & Hout & Herr). rewrite execute_result. cbv zeta.
  rewrite Hout, Herr, Hz. reflexivity.
Qed.

Lemma execute_returns_only_on_zero shell cmd w triple :
  (execute shell cmd w).1 = Ok triple ->
  returncode (shell cmd (cwd w) (fs w)).1 = 0%Z.
Proof.
  rewrite execute_result. cbv zeta.
  destruct (utf8_valid _); [|discriminate].
  destruct (utf8_valid _); [|discriminate].
  destruct (returncode _ =? 0)%Z eqn:Hz; [|discriminate].
  intros _. apply Z.eqb_eq, Hz.
Qed.

(** C2 as stated does not hold for every log file content: a log that
    carries the marker but is not well-formed text (here the byte 255
    before a passing log) cannot be read, [check_logs] raises
    [UnicodeDecodeError] and classifies nothing. *)
Lemma undecodable_log_is_not_classified :
  str_in RT_SUCCESSFUL (String "255" Sim.passing_log) = true /\
  (check_logs (Sim.shell Sim.never Sim.passing_log) "hera" "intel"
     Sim.tmpdir Sim.rtlog false "heinzell@ucar.edu"
     (Sim.world_with_log (String "255" Sim.passing_log))).1
  = Raise UnicodeDecodeError.
Proof. split; vm_compute; reflexivity. Qed.

(** C2, amended.  For every log file content that is well-formed text (its
    bytes decode), the verdict of [check_logs] is success = true if and
    only if the content contains ['REGRESSION TEST WAS SUCCESSFUL'] as a
    substring, whatever surrounds it, and success = false for content
    without the marker; the verdict is returned whenever the mail command
    exits cleanly. *)
Theorem check_logs_classifies_by_marker
    shell system compiler tmpdir rtlog keep email w text :
  contents (fs w) !! path_join (cwd w) rtlog = Some text ->
  utf8_valid text = true ->
  (forall success,
     (check_logs shell system compiler tmpdir rtlog keep email w).1
     = Ok success ->
     (success = true <->
      exists before after,
        text = before ++ "REGRESSION TEST WAS SUCCESSFUL" ++ after)) /\
  ((forall cmd, exits_cleanly (shell cmd (cwd w) (fs w)).1) ->
   exists success,
     (check_logs shell system compiler tmpdir rtlog keep email w).1
     = Ok success).
Proof.
  intros Hc Hv.
  assert (Hlog : files (fs w) !! path_join (cwd w) rtlog = Some text)
    by (apply files_lookup; auto).
  destruct (check_logs_unfold shell system compiler tmpdir rtlog keep email
              w text Hlog) as (subject & message & w2 & Hfs & Hcwd & ->).
  split.
  - intros success. unfold bind.
    destruct (execute shell (mail_cmd message rtlog subject email) w2)
      as [[triple|e] w3]; cbn [fst ret]; [|discriminate].
    intros [= <-]. apply str_in_spec.
  - intros Hmail. exists (str_in RT_SUCCESSFUL text).
    erewrite bind_fst_ok; [reflexivity|].
    apply execute_ok. rewrite Hfs, Hcwd. apply Hmail.
Qed.

(** C7.  With a readable log, [check_logs] sends its mail through
    [execute], in the file system and working directory it was called in.
    An exception of [execute] is the outcome of [check_logs], unchanged and
    in the world [execute] left; a mail command that exits with a non-zero
    status makes [check_logs] raise, with the [Exception] every failed
    subprocess gets when its output is well-formed; so the verdict is
    returned only when the mail command exits with status zero. *)
Theorem mail_failure_is_an_execution_error
    shell system compiler tmpdir rtlog keep email w text :
  files (fs w) !! path_join (cwd w) rtlog = Some text ->
  exists subject message w2,
    fs w2 = fs w /\ cwd w2 = cwd w /\
    (forall e,
       (execute shell (mail_cmd message rtlog subject email) w2).1 = Raise e ->
       check_logs shell system compiler tmpdir rtlog keep email w
       = (Raise e,
          (execute shell (mail_cmd message rtlog subject email) w2).2)) /\
    (forall p f',
       shell (mail_cmd message rtlog subject email) (cwd w) (fs w) = (p, f') ->
       returncode p <> 0%Z ->
       is_raise
         (check_logs shell system compiler tmpdir rtlog keep email w).1 /\
       (utf8_valid (stdout_bytes p) = true ->
        utf8_valid (stderr_bytes p) = true ->
        (check_logs shell system compiler tmpdir rtlog keep email w).1
        = Raise (Exception
                   (failure_message (mail_cmd message rtlog subject email)
                      (returncode p) (rstrip_nl (stdout_bytes p))
                      (rstrip_nl (stderr_bytes p)))))).
Proof.
  intros Hlog.
  destruct (check_logs_unfold shell system compiler tmpdir rtlog keep email
              w text Hlog) as (subject & message & w2 & Hfs & Hcwd & ->).
  exists subject, message, w2. split; [exact Hfs|]. split; [exact Hcwd|].
  split.
  - intros e He. apply bind_fst_raise, He.
  - intros p f' E Hnz.
    assert (Hres := execute_result shell
                      (mail_cmd message rtlog subject email) w2).
    rewrite Hfs, Hcwd, E in Hres. cbn [fst] in Hres. cbv zeta in Hres.
    apply Z.eqb_neq in Hnz. rewrite Hnz in Hres.
    split.
    + destruct (utf8_valid (stdout_bytes p));
        [destruct (utf8_valid (stderr_bytes p))|];
        rewrite (bind_fst_raise _ _ _ _ Hres); exact I.
    + intros Hout Herr. rewrite Hout, Herr in Hres.
      rewrite (bind_fst_raise _ _ _ _ Hres). reflexivity.
Qed.

(** ** The simulated platform at work *)

Lemma sim_shell_never_clean logtext cmd dir f :
  exits_cleanly (Sim.shell Sim.never logtext cmd dir f).1.
Proof.
  unfold Sim.shell, Sim.never.
  destruct (String.prefix "git clone" cmd);
    [|destruct (String.prefix "NEMS_MACHINE=" cmd)];
    repeat split; reflexivity.
Qed.

Example failing_log_is_not_a_pass :
  (check_logs (Sim.shell Sim.never Sim.failing_log) "hera" "intel"
     Sim.tmpdir Sim.rtlog false "heinzell@ucar.edu"
     (Sim.world_with_log Sim.failing_log)).1 = Ok false.
Proof. vm_compute. reflexivity. Qed.

Lemma check_logs_classifies_by_marker_witness :
  exists success,
    (check_logs (Sim.shell Sim.never Sim.passing_log) "hera" "intel"
       Sim.tmpdir Sim.rtlog false "heinzell@ucar.edu"
       (Sim.world_with_log Sim.passing_log)).1 = Ok success /\
    (success = true <->
     exists before after,
       Sim.passing_log = before ++ "REGRESSION TEST WAS SUCCESSFUL" ++ after).
Proof.
  destruct (check_logs_classifies_by_marker
              (Sim.shell Sim.never Sim.passing_log) "hera" "intel"
              Sim.tmpdir Sim.rtlog false "heinzell@ucar.edu"
              (Sim.world_with_log Sim.passing_log) Sim.passing_log
              eq_refl eq_refl) as [Hverdict Hreturns].
  destruct (Hreturns (fun cmd => sim_shell_never_clean _ _ _ _))
    as [success E].
  exists success. split; [exact E | exact (Hverdict success E)].
Defined.

Lemma mail_failure_is_an_execution_error_witness :
  exists subject message w2,
    fs w2 = fs (Sim.world_with_log Sim.passing_log) /\
    cwd w2 = cwd (Sim.world_with_log Sim.passing_log) /\
    (forall e,
       (execute (Sim.shell Sim.mail_fails Sim.passing_log)
          (mail_cmd message Sim.rtlog subject "heinzell@ucar.edu") w2).1
       = Raise e ->
       check_logs (Sim.shell Sim.mail_fails Sim.passing_log) "hera" "intel"
         Sim.tmpdir Sim.rtlog false "heinzell@ucar.edu"
         (Sim.world_with_log Sim.passing_log)
       = (Raise e,
          (execute (Sim.shell Sim.mail_fails Sim.passing_log)
             (mail_cmd message Sim.rtlog subject "heinzell@ucar.edu") w2).2)).
Proof.
  destruct (mail_failure_is_an_execution_error
              (Sim.shell Sim.mail_fails Sim.passing_log) "hera" "intel"
              Sim.tmpdir Sim.rtlog false "heinzell@ucar.edu"
              (Sim.world_with_log Sim.passing_log) Sim.passing_log
              ltac:(vm_compute; reflexivity))
    as (subject & message & w2 & Hfs & Hcwd & Hsame & _).
  exists subject, message, w2. auto.
Defined.

Lemma invalid_selection_rejected_before_any_command_witness :
  exists message,
    String.prefix "Invalid " message = true /\
    (main Sim.BASEDIR Sim.now (Sim.shell Sim.never Sim.passing_log)
       Sim.mkdtemp_path
       {| arg_fork := "emc"; arg_branch := "main"; arg_system := "hera";
          arg_compiler := None; arg_project := None; arg_rtconfig := None;
          arg_keep := false; arg_email := None |} Sim.world0).1
    = Raise (Exception message).
Proof.
  destruct (invalid_selection_rejected_before_any_command
              Sim.BASEDIR Sim.now (Sim.shell Sim.never Sim.passing_log)
              Sim.mkdtemp_path
              {| arg_fork := "emc"; arg_branch := "main";
                 arg_system := "hera"; arg_compiler := None;
                 arg_project := None; arg_rtconfig := None;
                 arg_keep := false; arg_email := None |} Sim.world0)
    as (message & Hp & _ & Hm & _).
  - right. left. eexists. split; [exact FORKS_emc|].
    cbn. intros H. apply elem_of_cons in H as [H|H];
      [discriminate H | inversion H].
  - exists message. auto.
Defined.

Lemma supplied_project_and_rtconfig_are_accepted_witness :
  exists params,
    (parse_arguments
       {| arg_fork := "emc"; arg_branch := "develop"; arg_system := "hera";
          arg_compiler := Some "intel"; arg_project := Some "my-account";
          arg_rtconfig := Some "rt_short.conf";
          arg_keep := true; arg_email := None |} Sim.world0).1 = Ok params /\
    project_of params = "my-account" /\
    rtconfig_of params = "rt_short.conf".
Proof.
  destruct (supplied_project_and_rtconfig_are_accepted
              {| arg_fork := "emc"; arg_branch := "develop";
                 arg_system := "hera"; arg_compiler := Some "intel";
                 arg_project := Some "my-account";
                 arg_rtconfig := Some "rt_short.conf";
                 arg_keep := true; arg_email := None |}
              _ _ Sim.world0
              (valid_emc_develop_hera (Some "intel") (Some "my-account")
                 (Some "rt_short.conf") true None
                 (or_intror (or_intror eq_refl))))
    as (params & Hp & Hproj & Hrt).
  exists params. split; [exact Hp|]. split.
  - apply Hproj; [reflexivity | discriminate].
  - apply Hrt; [reflexivity | discriminate].
Defined.

Lemma email_recipient_resolution_witness :
  exists params,
    (parse_arguments
       {| arg_fork := "emc"; arg_branch := "develop"; arg_system := "hera";
          arg_compiler := None; arg_project := None; arg_rtconfig := None;
          arg_keep := false; arg_email := Some "ops@example.org" |}
       Sim.world0).1 = Ok params /\
    email_of params = "ops@example.org".
Proof.
  destruct (email_recipient_resolution
              {| arg_fork := "emc"; arg_branch := "develop";
                 arg_system := "hera"; arg_compiler := None;
                 arg_project := None; arg_rtconfig := None;
                 arg_keep := false; arg_email := Some "ops@example.org" |}
              _ _ Sim.world0
              (valid_emc_develop_hera None None None false
                 (Some "ops@example.org") (or_introl eq_refl)))
    as (params & Hp & _ & _ & He).
  exists params. split; [exact Hp|].
  apply He; [reflexivity | discriminate].
Defined.

(** ** Directories kept by a run that raises *)

Lemma kept_refl w : kept w w.
Proof.
  split; [reflexivity|]. exists []. rewrite app_nil_r.
  split; [reflexivity|]. intros p H. inversion H.
Qed.

Lemma kept_trans w1 w2 w3 : kept w1 w2 -> kept w2 w3 -> kept w1 w3.
Proof.
  intros (D1 & l1 & T1 & H1) (D2 & l2 & T2 & H2).
  split; [etrans; eassumption|].
  exists (l1 ++ l2)%list. split.
  - rewrite T2, T1, app_assoc. reflexivity.
  - intros p Hin. apply elem_of_app in Hin as [Hin|Hin]; auto.
Qed.

Lemma kept_of_logs_only w w' : logs_only w w' -> kept w w'.
Proof.
  intros (F & _ & logs & T & H). split; [rewrite F; reflexivity|].
  exists logs. split; [exact T|]. intros p Hin.
  rewrite Forall_forall in H. destruct (H _ Hin).
Qed.

Lemma keeps_of_only_logs {A} (m : M A) : only_logs m -> keeps m.
Proof. intros H w. apply kept_of_logs_only, H. Qed.

Lemma keeps_bind {A B} (m : M A) (k : A -> M B) :
  keeps m -> (forall a, keeps (k a)) -> keeps (bind m k).
Proof.
  intros Hm Hk w. unfold bind. specialize (Hm w).
  destruct (m w) as [[a|e] w1]; cbn [snd] in *; [|exact Hm].
  eapply kept_trans; [exact Hm | apply Hk].
Qed.

Lemma keeps_when_raising_bind {A B} (m : M A) (k : A -> M B) :
  keeps m -> (forall a, keeps_when_raising (k a)) ->
  keeps_when_raising (bind m k).
Proof.
  intros Hm Hk w. unfold bind. specialize (Hm w).
  destruct (m w) as [[a|e] w1]; cbn [fst snd] in *; [|intros _; exact Hm].
  intros Hr. eapply kept_trans; [exact Hm | apply Hk, Hr].
Qed.

Lemma keeps_silent {A} (m : M A) : silent m -> keeps m.
Proof. intros H w. rewrite H. apply kept_refl. Qed.

Lemma keeps_logging_log lvl message : keeps (logging_log lvl message).
Proof. apply keeps_of_only_logs, only_logs_logging_log. Qed.

Lemma keeps_basicConfig level : keeps (logging_basicConfig level).
Proof.
  intros w. unfold logging_basicConfig.
  destruct (handlers w); cbn [fst snd]; (split; [reflexivity|]);
    exists []; cbn [trace]; rewrite app_nil_r;
    (split; [reflexivity|]); intros p H; inversion H.
Qed.

Lemma keeps_chdir path : keeps (os_chdir path).
Proof.
  intros w. unfold os_chdir. case_bool_decide; [|apply kept_refl].
  split; [reflexivity|]. eexists [_]. split; [reflexivity|].
  intros p Hin. apply elem_of_cons in Hin as [Hin|Hin];
    [discriminate | inversion Hin].
Qed.

Lemma keeps_read_text path : keeps (read_text path).
Proof.
  intros w. unfold read_text. cbv zeta.
  destruct (contents (fs w) !! _);
    [destruct (utf8_valid _) | case_bool_decide]; try apply kept_refl.
  all: split; [reflexivity|]; eexists [_]; split; [reflexivity|];
       intros p H; apply elem_of_cons in H as [H|H];
       [discriminate | inversion H].
Qed.

Lemma keeps_mkdtemp mk prefix : keeps (tempfile_mkdtemp mk prefix).
Proof.
  intros w. unfold tempfile_mkdtemp. cbn [snd fs dirs trace]. split.
  - apply union_subseteq_r.
  - eexists [_]. split; [reflexivity|].
    intros p H. apply elem_of_cons in H as [H|H]; [|inversion H].
    injection H as ->. apply elem_of_union_l, elem_of_singleton. reflexivity.
Qed.

Section KeptDirectories.

Variable shell : string -> string -> FileSystem -> Completed * FileSystem.
Hypothesis shell_harmless : shell_keeps_dirs shell.

Lemma keeps_Popen_communicate cmd : keeps (Popen_communicate shell cmd).
Proof.
  intros w. unfold Popen_communicate.
  pose proof (shell_harmless cmd (cwd w) (fs w)) as H.
  destruct (shell cmd (cwd w) (fs w)) as [p f']. cbn [snd fs trace] in *.
  split; [exact H|]. eexists [_]. split; [reflexivity|].
  intros q Hin. apply elem_of_cons in Hin as [Hin|Hin];
    [discriminate | inversion Hin].
Qed.

Ltac keeps_steps :=
  repeat first
    [ progress cbv zeta
    | apply keeps_logging_log
    | apply keeps_Popen_communicate
    | apply keeps_basicConfig
    | apply keeps_chdir
    | apply keeps_read_text
    | apply keeps_mkdtemp
    | apply keeps_silent;
      first [ apply silent_ret | apply silent_raise | apply silent_getitem
            | apply silent_getEffectiveLevel | apply silent_decode ]
    | apply keeps_bind; [|intros ?]
    | match goal with
      | |- keeps (if ?c then _ else _) => destruct c
      | |- keeps (match ?x with _ => _ end) => destruct x
      end ].

Lemma keeps_execute cmd : keeps (execute shell cmd).
Proof. unfold execute, logging_debug. keeps_steps. Qed.

Lemma keeps_setup_logging : keeps setup_logging.
Proof. apply keeps_of_only_logs, only_logs_setup_logging. Qed.

Lemma keeps_parse_arguments args : keeps (parse_arguments args).
Proof. apply keeps_of_only_logs, only_logs_parse_arguments. Qed.

Lemma keeps_get_workdir mk now fork branch compiler :
  keeps (get_workdir mk now fork branch compiler).
Proof. unfold get_workdir, logging_info. keeps_steps. Qed.

Lemma keeps_checkout_code BASEDIR fork branch tmpdir :
  keeps (checkout_code BASEDIR shell fork branch tmpdir).
Proof.
  unfold checkout_code, logging_info.
  repeat first [ apply keeps_execute | progress keeps_steps ].
Qed.

Lemma keeps_run_tests BASEDIR now system compiler project rtconfig keep tmpdir :
  keeps (run_tests BASEDIR shell now system compiler project rtconfig keep
           tmpdir).
Proof.
  unfold run_tests, logging_info.
  repeat first [ apply keeps_execute | progress keeps_steps ].
Qed.

Lemma keeps_check_logs system compiler tmpdir rtlog keep email :
  keeps (check_logs shell system compiler tmpdir rtlog keep email).
Proof.
  unfold check_logs, logging_info, logging_error.
  repeat first [ apply keeps_execute | progress keeps_steps ].
Qed.

Lemma keeps_when_raising_tail success keep tmpdir :
  keeps_when_raising
    (run cleanup success keep tmpdir;
     logging_info "Finished automatic regression test").
Proof.
  intros w. unfold cleanup, bind, logging_debug, logging_info, ret.
  destruct (success && negb keep).
  - destruct (logging_log_run DEBUG
                ("Deleting temporary directory " ++ tmpdir) w)
      as (l1 & -> & H1).
    match goal with
    | |- context [shutil_rmtree ?p ?w0] =>
        pose proof (shutil_rmtree_trace p w0) as Hrm;
        destruct (shutil_rmtree p w0) as [[[]|e] w1]
    end.
    + match goal with
      | |- context [logging_log ?l ?m ?w0] =>
          destruct (logging_log_run l m w0) as (l2 & -> & H2)
      end. intros [].
    + subst w1. intros _. cbn [snd]. apply kept_of_logs_only.
      repeat split. exists l1. auto.
  - match goal with
    | |- context [logging_log ?l ?m ?w0] =>
        destruct (logging_log_run l m w0) as (l2 & -> & H2)
    end. intros [].
Qed.

Lemma keeps_when_raising_main BASEDIR now mk args :
  keeps_when_raising (main BASEDIR now shell mk args).
Proof.
  unfold main. cbv zeta.
  apply keeps_when_raising_bind; [apply keeps_setup_logging|]. intros _.
  apply keeps_when_raising_bind; [apply keeps_logging_log|]. intros _.
  apply keeps_when_raising_bind; [apply keeps_parse_arguments|].
  intros [[[[[[[fork branch] system] compiler] project] rtconfig] keep] email].
  apply keeps_when_raising_bind; [apply keeps_get_workdir|]. intros tmpdir.
  apply keeps_when_raising_bind; [apply keeps_checkout_code|]. intros _.
  apply keeps_when_raising_bind; [apply keeps_run_tests|]. intros rtlog.
  apply keeps_when_raising_bind; [apply keeps_check_logs|]. intros success.
  apply keeps_when_raising_tail.
Qed.

End KeptDirectories.

(** The trace of a run that starts with an empty trace. *)
(** ** Failing runs *)

Lemma main_trace BASEDIR now shell mk args w :
  trace w = [] ->
  run_post (main BASEDIR now shell mk args w).1
    (trace (main BASEDIR now shell mk args w).2).
Proof.
  intros Hw. destruct (run_post_main BASEDIR now shell mk args w)
    as (evs & E & H).
  rewrite Hw, app_nil_l in E. rewrite E. exact H.
Qed.

Lemma main_kept BASEDIR now shell mk args w p :
  shell_keeps_dirs shell ->
  trace w = [] ->
  is_raise (main BASEDIR now shell mk args w).1 ->
  EvMkdtemp p ∈ trace (main BASEDIR now shell mk args w).2 ->
  p ∈ dirs (fs (main BASEDIR now shell mk args w).2).
Proof.
  intros Hk Hw Hr Hin.
  destruct (keeps_when_raising_main shell Hk BASEDIR now mk args w Hr)
    as (_ & evs & E & H).
  rewrite Hw, app_nil_l in E. rewrite E in Hin. auto.
Qed.

(** C6.  In every run of [main] from an empty trace: a subprocess that
    exits with a non-zero status makes [main] raise and is followed in the
    trace by log records only, so nothing else is run and nothing is run
    again; and a run that raises removes no directory: its trace holds no
    [EvRmtree] and, if no shell command removes directories, the directory
    made by [mkdtemp] still exists at the end. *)
Theorem failed_run_stops_at_once_and_keeps_workdir
    BASEDIR now shell mkdtemp_path args w :
  trace w = [] ->
  (forall before cmd status after,
     trace (main BASEDIR now shell mkdtemp_path args w).2
       = (before ++ EvPopen cmd status :: after)%list ->
     status <> 0%Z ->
     is_raise (main BASEDIR now shell mkdtemp_path args w).1 /\
     Forall is_log after) /\
  (is_raise (main BASEDIR now shell mkdtemp_path args w).1 ->
   (forall p,
      EvRmtree p ∉ trace (main BASEDIR now shell mkdtemp_path args w).2) /\
   (shell_keeps_dirs shell ->
    forall tmpdir,
      EvMkdtemp tmpdir
        ∈ trace (main BASEDIR now shell mkdtemp_path args w).2 ->
      tmpdir ∈ dirs (fs (main BASEDIR now shell mkdtemp_path args w).2))).
Proof.
  intros Hw. pose proof (main_trace BASEDIR now shell mkdtemp_path args w Hw)
    as (Hstop & _ & Hres).
  split.
  - intros before cmd status after E Hnz. split.
    + destruct (main BASEDIR now shell mkdtemp_path args w).1; [|exact I].
      apply Hnz, (Hres cmd). rewrite E. apply elem_of_app. right. left.
    + exact (Hstop before cmd status after E Hnz).
  - intros Hr. split.
    + destruct (main BASEDIR now shell mkdtemp_path args w).1;
        [destruct Hr | exact Hres].
    + intros Hk tmpdir Hin. eapply main_kept; eauto.
Qed.

(** C8.  In every run of [main] from an empty trace a directory is removed
    only after a mail command has exited with status zero.  When the mail
    command exits with another status the run raises, removes nothing and,
    if no shell command removes directories, the work directory still
    exists at the end, whatever the log contained and whatever [keep]
    is. *)
Theorem workdir_is_deleted_only_after_mail_succeeded
    BASEDIR now shell mkdtemp_path args w :
  trace w = [] ->
  (forall before p after,
     trace (main BASEDIR now shell mkdtemp_path args w).2
       = (before ++ EvRmtree p :: after)%list ->
     exists message rtlog subject email,
       EvPopen (mail_cmd message rtlog subject email) 0 ∈ before) /\
  (forall message rtlog subject email status,
     EvPopen (mail_cmd message rtlog subject email) status
       ∈ trace (main BASEDIR now shell mkdtemp_path args w).2 ->
     status <> 0%Z ->
     is_raise (main BASEDIR now shell mkdtemp_path args w).1 /\
     (forall p,
        EvRmtree p ∉ trace (main BASEDIR now shell mkdtemp_path args w).2) /\
     (shell_keeps_dirs shell ->
      forall tmpdir,
        EvMkdtemp tmpdir
          ∈ trace (main BASEDIR now shell mkdtemp_path args w).2 ->
        tmpdir ∈ dirs (fs (main BASEDIR now shell mkdtemp_path args w).2))).
Proof.
  intros Hw. pose proof (main_trace BASEDIR now shell mkdtemp_path args w Hw)
    as (_ & Hguard & Hres).
  split; [exact Hguard|].
  intros message rtlog subject email status Hin Hnz.
  assert (Hr : is_raise (main BASEDIR now shell mkdtemp_path args w).1).
  { destruct (main BASEDIR now shell mkdtemp_path args w).1; [|exact I].
    apply Hnz, (Hres _ _ Hin). }
  split; [exact Hr|]. split.
  - destruct (main BASEDIR now shell mkdtemp_path args w).1;
      [destruct Hr | exact Hres].
  - intros Hk tmpdir Hmk. eapply main_kept; eauto.
Qed.

Lemma sim_shell_keeps_dirs fails logtext :
  shell_keeps_dirs (Sim.shell fails logtext).
Proof.
  intros cmd dir f. unfold Sim.shell.
  destruct (fails cmd); [reflexivity|].
  destruct (String.prefix "git clone" cmd); [cbn; set_solver|].
  destruct (String.prefix "NEMS_MACHINE=" cmd); reflexivity.
Qed.

Ltac find_event :=
  apply list_elem_of_In; vm_compute;
  repeat first [ left; reflexivity | right ].

Lemma failed_run_stops_at_once_and_keeps_workdir_witness :
  is_raise (main Sim.BASEDIR Sim.now
              (Sim.shell Sim.harness_fails Sim.passing_log) Sim.mkdtemp_path
              Sim.args_hera Sim.world0).1 /\
  (forall p,
     EvRmtree p ∉ trace (main Sim.BASEDIR Sim.now
                           (Sim.shell Sim.harness_fails Sim.passing_log)
                           Sim.mkdtemp_path Sim.args_hera Sim.world0).2) /\
  Sim.tmpdir ∈ dirs (fs (main Sim.BASEDIR Sim.now
                           (Sim.shell Sim.harness_fails Sim.passing_log)
                           Sim.mkdtemp_path Sim.args_hera Sim.world0).2).
Proof.
  destruct (failed_run_stops_at_once_and_keeps_workdir
              Sim.BASEDIR Sim.now
              (Sim.shell Sim.harness_fails Sim.passing_log) Sim.mkdtemp_path
              Sim.args_hera Sim.world0 eq_refl) as [_ H].
  assert (Hr : is_raise (main Sim.BASEDIR Sim.now
                           (Sim.shell Sim.harness_fails Sim.passing_log)
                           Sim.mkdtemp_path Sim.args_hera Sim.world0).1)
    by (vm_compute; exact I).
  destruct (H Hr) as [Hno Hkept].
  split; [exact Hr|]. split; [exact Hno|].
  apply Hkept; [apply sim_shell_keeps_dirs | find_event].
Defined.

Lemma workdir_is_deleted_only_after_mail_succeeded_witness :
  is_raise (main Sim.BASEDIR Sim.now
              (Sim.shell Sim.mail_fails Sim.passing_log) Sim.mkdtemp_path
              Sim.args_hera Sim.world0).1 /\
  (forall p,
     EvRmtree p ∉ trace (main Sim.BASEDIR Sim.now
                           (Sim.shell Sim.mail_fails Sim.passing_log)
                           Sim.mkdtemp_path Sim.args_hera Sim.world0).2) /\
  Sim.tmpdir ∈ dirs (fs (main Sim.BASEDIR Sim.now
                           (Sim.shell Sim.mail_fails Sim.passing_log)
                           Sim.mkdtemp_path Sim.args_hera Sim.world0).2).
Proof.
  destruct (workdir_is_deleted_only_after_mail_succeeded
              Sim.BASEDIR Sim.now
              (Sim.shell Sim.mail_fails Sim.passing_log) Sim.mkdtemp_path
              Sim.args_hera Sim.world0 eq_refl) as [_ H].
  destruct (H ("Regression tests passed, see regression test log "
               ++ Sim.rtlog ++ ".")
              Sim.rtlog "hera/intel: regression tests passed"
              "heinzell@ucar.edu" 1%Z
              ltac:(find_event) ltac:(discriminate))
    as (Hr & Hno & Hkept).
  split; [exact Hr|]. split; [exact Hno|].
  apply Hkept; [apply sim_shell_keeps_dirs | find_event].
Defined.

(** ** Runs that return normally *)

Lemma succeeds_bind {A B} (P : World -> Prop) (m : M A)
    (R : A -> World -> Prop) (k : A -> M B) (Q : B -> World -> Prop) :
  succeeds P m R -> (forall a, succeeds (R a) (k a) Q) ->
  succeeds P (bind m k) Q.
Proof.
  intros Hm Hk w HP. destruct (Hm w HP) as (a & w1 & E & HR).
  rewrite (bind_ok _ _ _ _ _ E). apply (Hk a w1 HR).
Qed.

Lemma succeeds_weaken {A} (P P' : World -> Prop) (m : M A)
    (Q Q' : A -> World -> Prop) :
  succeeds P m Q -> (forall w, P' w -> P w) ->
  (forall a w, Q a w -> Q' a w) -> succeeds P' m Q'.
Proof.
  intros H HP HQ w HP'. destruct (H w (HP w HP')) as (a & w1 & E & HQ1).
  exists a, w1. auto.
Qed.

Lemma succeeds_getitem {V} (d : gmap string V) k v (P : World -> Prop) :
  d !! k = Some v ->
  succeeds P (getitem d k) (fun a w => a = v /\ P w).
Proof.
  intros H w HP. exists v, w. split; [apply getitem_ok, H | auto].
Qed.

Lemma succeeds_logging_log lvl message c D F :
  succeeds (standing c D F) (logging_log lvl message)
    (fun _ => standing c D F).
Proof.
  intros w H. destruct (logging_log_run lvl message w) as (logs & -> & _).
  eexists tt, _. split; [reflexivity | exact H].
Qed.

Lemma succeeds_chdir path c D F :
  path_join c path ∈ D ->
  succeeds (standing c D F) (os_chdir path)
    (fun _ => standing (path_join c path) D F).
Proof.
  intros Hin w (Hc & HD & HF). unfold os_chdir. cbv zeta. rewrite Hc.
  rewrite bool_decide_eq_true_2 by (apply HD, Hin).
  eexists tt, _. split; [reflexivity|]. repeat split; assumption.
Qed.

Lemma succeeds_read_text path c D F (G : string -> Prop) :
  (forall fl, F fl -> exists text, fl !! path_join c path = Some text /\ G text) ->
  succeeds (standing c D F) (read_text path)
    (fun text w => G text /\ standing c D F w).
Proof.
  intros HF w (Hc & HD & Hfl).
  destruct (HF _ Hfl) as (text & Hl & HG).
  rewrite <- Hc in Hl. rewrite (read_text_ok _ _ _ Hl).
  eexists text, _. split; [reflexivity|]. repeat split; assumption.
Qed.

(** *** Paths *)

Lemma path_join_absolute a b :
  String.prefix "/" b = true -> path_join a b = b.
Proof. unfold path_join. intros ->. reflexivity. Qed.

Lemma absolute_inv a :
  String.prefix "/" a = true -> exists rest, a = String "/" rest.
Proof.
  intros H. destruct (prefix_inv _ _ H) as [t ->]. exists t. reflexivity.
Qed.

Lemma prefix_nil s : String.prefix "" s = true.
Proof. destruct s; reflexivity. Qed.

Lemma path_join_stays_absolute a b :
  String.prefix "/" a = true -> String.prefix "/" (path_join a b) = true.
Proof.
  intros Ha. unfold path_join.
  destruct (String.prefix "/" b) eqn:Hb; [exact Hb|].
  destruct (absolute_inv _ Ha) as [rest ->].
  destruct (negb (truthy (String "/" rest)) || ends_with_slash (String "/" rest));
    rewrite append_cons; cbn; apply prefix_nil.
Qed.

(** *** The executor in a world *)

Lemma execute_world shell cmd w :
  fs (execute shell cmd w).2 = (shell cmd (cwd w) (fs w)).2 /\
  cwd (execute shell cmd w).2 = cwd w.
Proof.
  unfold execute, bind, getEffectiveLevel, logging_debug, Popen_communicate,
    decode, ret, raise.
  destruct (logging_log_run DEBUG ("Executing " ++ dq ++ cmd ++ dq) w)
    as (logs & -> & _).
  cbn [fs cwd loglevel trace].
  destruct (shell cmd (cwd w) (fs w)) as [p f'].
  cbn [fst snd].
  destruct (utf8_valid (stdout_bytes p)); [|split; reflexivity].
  destruct (utf8_valid (stderr_bytes p)); [|split; reflexivity].
  destruct (loglevel w =? DEBUG)%Z.
  - match goal with
    | |- context [logging_log ?l ?m ?w0] =>
        destruct (logging_log_run l m w0) as (logs' & -> & _)
    end.
    destruct (returncode p =? 0)%Z; split; reflexivity.
  - destruct (returncode p =? 0)%Z; split; reflexivity.
Qed.

Section Cooperative.

Variable shell : string -> string -> FileSystem -> Completed * FileSystem.
Hypothesis shell_clean : forall cmd dir f, exits_cleanly (shell cmd dir f).1.
Hypothesis shell_harmless : shell_keeps_dirs shell.

(** What a command that exits cleanly leaves behind, given what the shell
    does to the file system. *)
Lemma succeeds_execute_with cmd c D F (D' : gset string)
    (F' : gmap string string -> Prop) :
  (forall f, D ⊆ dirs f -> F (files f) ->
     D' ⊆ dirs (shell cmd c f).2 /\ F' (files (shell cmd c f).2)) ->
  succeeds (standing c D F) (execute shell cmd) (fun _ => standing c D' F').
Proof.
  intros Hsh w (Hc & HD & HF).
  pose proof (execute_ok shell cmd w (shell_clean _ _ _)) as Hr.
  destruct (execute_world shell cmd w) as [Hfs Hcwd].
  destruct (execute shell cmd w) as [r w1]. cbn [fst snd] in *. subst r.
  eexists _, w1. split; [reflexivity|].
  destruct (Hsh (fs w) HD HF) as [HD' HF'].
  split; [congruence|]. rewrite Hfs, Hc. split; assumption.
Qed.

Lemma succeeds_execute cmd c D F :
  succeeds (standing c D F) (execute shell cmd)
    (fun _ => standing c D any_files).
Proof.
  apply succeeds_execute_with. intros f HD _. split; [|exact I].
  etrans; [exact HD | apply shell_harmless].
Qed.

Lemma succeeds_execute_clone cmd c D F :
  clone_makes_checkout shell ->
  String.prefix "git clone" cmd = true ->
  succeeds (standing c D F) (execute shell cmd)
    (fun _ => standing c
                ({[ path_join c CHECKOUT_DIR ]}
                 ∪ {[ path_join (path_join c CHECKOUT_DIR) TEST_DIR ]} ∪ D)
                any_files).
Proof.
  intros Hclone Hcmd. apply succeeds_execute_with. intros f HD _.
  split; [|exact I].
  destruct (Hclone cmd c f Hcmd) as [H1 H2].
  pose proof (shell_harmless cmd c f) as Hk.
  intros x Hx. apply elem_of_union in Hx as [Hx|Hx];
    [apply elem_of_union in Hx as [Hx|Hx];
       apply elem_of_singleton in Hx; subst x; assumption|].
  apply Hk, HD, Hx.
Qed.

Lemma succeeds_execute_harness cmd c D F path :
  harness_writes_passing_log shell path ->
  String.prefix "NEMS_MACHINE=" cmd = true ->
  succeeds (standing c D F) (execute shell cmd)
    (fun _ => standing c D (passing_log_at path)).
Proof.
  intros Hh Hcmd. apply succeeds_execute_with. intros f HD _. split.
  - etrans; [exact HD | apply shell_harmless].
  - apply Hh, Hcmd.
Qed.

Lemma succeeds_assume {A} (phi : Prop) (P : World -> Prop) (m : M A)
    (Q : A -> World -> Prop) :
  (phi -> succeeds P m Q) -> succeeds (fun w => phi /\ P w) m Q.
Proof. intros H w [Hphi HP]. apply (H Hphi w HP). Qed.

Lemma succeeds_chdir_absolute path c D F :
  String.prefix "/" path = true -> path ∈ D ->
  succeeds (standing c D F) (os_chdir path) (fun _ => standing path D F).
Proof.
  intros Habs Hin.
  pose proof (succeeds_chdir path c D F) as H.
  rewrite (path_join_absolute c path Habs) in H. apply H, Hin.
Qed.

Variable BASEDIR : string.
Hypothesis base_absolute : String.prefix "/" BASEDIR = true.
Hypothesis clone_ok : clone_makes_checkout shell.

Lemma succeeds_checkout_code fork fork_entry branch tmpdir c D F :
  FORKS !! fork = Some fork_entry ->
  String.prefix "/" tmpdir = true ->
  tmpdir ∈ D -> BASEDIR ∈ D ->
  succeeds (standing c D F)
    (checkout_code BASEDIR shell fork branch tmpdir)
    (fun _ =>
       standing BASEDIR
         ({[ path_join tmpdir CHECKOUT_DIR ]}
          ∪ {[ path_join (path_join tmpdir CHECKOUT_DIR) TEST_DIR ]} ∪ D)
         any_files).
Proof.
  intros Hf Habs Htmp Hbase. unfold checkout_code, logging_info. cbv zeta.
  eapply succeeds_bind; [apply (succeeds_getitem _ _ _ _ Hf)|].
  intros a. apply succeeds_assume. intros Ha. subst a.
  eapply succeeds_bind; [apply succeeds_logging_log|]. intros ?.
  eapply succeeds_bind;
    [apply succeeds_chdir_absolute; [exact Habs | exact Htmp]|]. intros ?.
  eapply succeeds_bind;
    [apply succeeds_execute_clone; [exact clone_ok | reflexivity]|].
  intros ?.
  eapply succeeds_bind; [apply succeeds_logging_log|]. intros ?.
  eapply succeeds_bind;
    [apply succeeds_chdir; apply elem_of_union_l, elem_of_union_l,
       elem_of_singleton; reflexivity|]. intros ?.
  eapply succeeds_bind; [apply succeeds_execute|]. intros ?.
  eapply succeeds_bind; [apply succeeds_execute|]. intros ?.
  apply succeeds_chdir_absolute;
    [exact base_absolute | apply elem_of_union_r, Hbase].
Qed.

Variable now : datetime.
Hypothesis harness_ok :
  harness_writes_passing_log shell
    (path_join BASEDIR (strftime now (RT_LOG BASEDIR))).

Lemma succeeds_run_tests system compiler project rtconfig keep tmpdir c D F :
  String.prefix "/" tmpdir = true ->
  path_join (path_join tmpdir CHECKOUT_DIR) TEST_DIR ∈ D ->
  BASEDIR ∈ D ->
  succeeds (standing c D F)
    (run_tests BASEDIR shell now system compiler project rtconfig keep tmpdir)
    (fun rtlog w =>
       rtlog = strftime now (RT_LOG BASEDIR) /\
       standing BASEDIR D (passing_log_at (path_join BASEDIR rtlog)) w).
Proof.
  intros Habs Htests Hbase. unfold run_tests, logging_info. cbv zeta.
  eapply succeeds_bind;
    [apply succeeds_chdir_absolute;
       [apply path_join_stays_absolute, path_join_stays_absolute, Habs
       | exact Htests]|]. intros ?.
  eapply succeeds_bind; [apply succeeds_logging_log|]. intros ?.
  eapply succeeds_bind;
    [apply succeeds_execute_harness; [exact harness_ok | apply prefix_app]|].
  intros ?.
  eapply succeeds_bind;
    [apply succeeds_chdir_absolute; [exact base_absolute | exact Hbase]|].
  intros ?.
  intros w H. eexists _, w. split; [reflexivity|]. split; [reflexivity|exact H].
Qed.

Lemma succeeds_check_logs system compiler tmpdir rtlog keep email D :
  succeeds (standing BASEDIR D (passing_log_at (path_join BASEDIR rtlog)))
    (check_logs shell system compiler tmpdir rtlog keep email)
    (fun success w => success = true /\ standing BASEDIR D any_files w).
Proof.
  unfold check_logs, logging_info, logging_error.
  eapply succeeds_bind;
    [apply (succeeds_read_text rtlog BASEDIR D _
              (fun text => str_in RT_SUCCESSFUL text = true));
     intros fl (text & Hl & _ & Hm); exists text; auto|].
  intros text. apply succeeds_assume. intros Hmarker. cbv zeta.
  rewrite Hmarker.
  eapply succeeds_bind
    with (R := fun _ => standing BASEDIR D
                          (passing_log_at (path_join BASEDIR rtlog))).
  - destruct keep; cbn [andb negb];
      (eapply succeeds_bind; [apply succeeds_logging_log|]; intros ?;
       intros w H; eexists _, w; split; [reflexivity | exact H]).
  - intros [subject message].
    eapply succeeds_bind; [apply succeeds_execute|]. intros ?.
    intros w H. eexists _, w. split; [reflexivity|]. split; [reflexivity|exact H].
Qed.

Lemma succeeds_knows {A} ev (m : M A) (P : World -> Prop)
    (Q : A -> World -> Prop) (Q0 : result A -> list event -> Prop) :
  emits m Q0 -> succeeds P m Q ->
  succeeds (fun w => knows ev w /\ P w) m (fun a w => knows ev w /\ Q a w).
Proof.
  intros He Hs w [Hk HP]. destruct (Hs w HP) as (a & w1 & E & HQ).
  destruct (He w) as (evs & T & _). rewrite E in T. cbn [snd] in T.
  exists a, w1. split; [exact E|]. split; [|exact HQ].
  unfold knows. rewrite T. apply elem_of_app. left. exact Hk.
Qed.

Lemma succeeds_logs_only {A} (m : M A) (a : A) c D F :
  only_logs m -> (forall w, (m w).1 = Ok a) ->
  succeeds (standing c D F) m (fun r w => r = a /\ standing c D F w).
Proof.
  intros Ho Hr w (Hc & HD & HF). specialize (Ho w). specialize (Hr w).
  destruct (m w) as [r w1]. cbn [fst snd] in *. subst r.
  destruct Ho as (Hfs & Hcwd & _).
  exists a, w1. split; [reflexivity|]. split; [reflexivity|].
  unfold standing. rewrite Hfs, Hcwd. auto.
Qed.

Lemma setup_logging_ok w : (setup_logging w).1 = Ok tt.
Proof.
  unfold setup_logging, bind, logging_basicConfig, getEffectiveLevel,
    logging_info. destruct (handlers w); cbn [loglevel];
  match goal with
  | |- context [logging_log ?l ?m ?w0] =>
      destruct (logging_log_run l m w0) as (logs & -> & H)
  end; reflexivity.
Qed.

Variable mkdtemp_path : string -> FileSystem -> string.
Hypothesis tmp_absolute :
  forall prefix f, String.prefix "/" (mkdtemp_path prefix f) = true.

Lemma succeeds_get_workdir fork branch compiler c D F :
  succeeds (standing c D F)
    (get_workdir mkdtemp_path now fork branch compiler)
    (fun tmpdir w =>
       String.prefix "/" tmpdir = true /\
       knows (EvMkdtemp tmpdir) w /\
       standing c ({[ tmpdir ]} ∪ D) F w).
Proof.
  intros w (Hc & HD & HF). unfold get_workdir, logging_info.
  unfold bind at 1. unfold tempfile_mkdtemp at 1. cbv zeta.
  step_log. eexists _, _. split; [reflexivity|].
  split; [apply tmp_absolute|]. split.
  - unfold knows. cbn [trace]. apply elem_of_app. left.
    apply elem_of_app. right. left.
  - split; [exact Hc|]. cbn [fs dirs files]. split; [|exact HF].
    apply union_mono_l, HD.
Qed.

Lemma succeeds_cleanup_tail tmpdir D :
  String.prefix "/" tmpdir = true -> tmpdir ∈ D ->
  succeeds (fun w => knows (EvMkdtemp tmpdir) w
                     /\ standing BASEDIR D any_files w)
    (run cleanup true false tmpdir;
     logging_info "Finished automatic regression test")
    (fun _ w =>
       knows (EvMkdtemp tmpdir) w /\ knows (EvRmtree tmpdir) w /\
       tmpdir ∉ dirs (fs w)).
Proof.
  intros Habs Hin w (Hk & Hc & HD & _).
  unfold cleanup, logging_debug, logging_info. cbn [andb negb].
  rewrite bind_assoc. step_log.
  unfold bind at 1. unfold shutil_rmtree. cbv zeta. cbn [fs cwd].
  rewrite Hc, (path_join_absolute BASEDIR tmpdir Habs).
  rewrite bool_decide_eq_true_2 by (apply HD, Hin).
  match goal with
  | |- context [logging_log ?l ?m ?w0] =>
      destruct (logging_log_run l m w0) as (logs' & -> & _)
  end.
  eexists tt, _. split; [reflexivity|]. cbn [trace fs]. unfold knows.
  cbn [trace]. repeat split.
  - apply elem_of_app. left. apply elem_of_app. left.
    apply elem_of_app. left. exact Hk.
  - apply elem_of_app. left. apply elem_of_app. right. left.
  - apply remove_tree_gone.
Qed.

Lemma succeeds_assume_inner {A} (phi : Prop) (K P : World -> Prop)
    (m : M A) (Q : A -> World -> Prop) :
  (phi -> succeeds (fun w => K w /\ P w) m Q) ->
  succeeds (fun w => K w /\ (phi /\ P w)) m Q.
Proof. intros H w (HK & Hphi & HP). apply (H Hphi w). auto. Qed.

(** With a cooperative platform the run for emc/develop on hera returns
    normally and the directory it made is gone at the end. *)
Lemma succeeds_main_emc_develop_hera email c D F :
  BASEDIR ∈ D ->
  succeeds (standing c D F)
    (main BASEDIR now shell mkdtemp_path
       {| arg_fork := "emc"; arg_branch := "develop"; arg_system := "hera";
          arg_compiler := None; arg_project := None; arg_rtconfig := None;
          arg_keep := false; arg_email := email |})
    (fun _ w =>
       exists tmpdir,
         knows (EvMkdtemp tmpdir) w /\ knows (EvRmtree tmpdir) w /\
         tmpdir ∉ dirs (fs w)).
Proof.
  intros Hbase. unfold main, logging_info. cbv zeta.
  eapply succeeds_bind;
    [apply (succeeds_logs_only setup_logging tt);
       [apply only_logs_setup_logging | apply setup_logging_ok]|].
  intros ?. apply succeeds_assume. intros _.
  eapply succeeds_bind; [apply succeeds_logging_log|]. intros ?.
  eapply succeeds_bind;
    [apply (succeeds_logs_only (parse_arguments _)
              ("emc", "develop", "hera", "intel", "gmtb", "rt.conf", false,
               chosen email DEFAULT_EMAIL_RECIPIENT));
       [apply only_logs_parse_arguments
       | intros w; apply resolve_emc_develop_hera]|].
  intros params. apply succeeds_assume. intros Hp. subst params.
  cbv beta iota.
  eapply succeeds_bind; [apply succeeds_get_workdir|].
  intros tmpdir. apply succeeds_assume. intros Habs.
  eapply succeeds_bind;
    [eapply succeeds_knows;
       [apply quiet_checkout_code
       | apply (succeeds_checkout_code _ _ _ _ _ _ _ FORKS_emc Habs);
           [apply elem_of_union_l, elem_of_singleton; reflexivity
           | apply elem_of_union_r, Hbase]]|].
  intros ?.
  eapply succeeds_bind;
    [eapply succeeds_knows;
       [apply quiet_run_tests
       | apply (succeeds_run_tests _ _ _ _ _ _ _ _ _ Habs);
           [apply elem_of_union_l, elem_of_union_r, elem_of_singleton;
            reflexivity
           | apply elem_of_union_r, elem_of_union_r, Hbase]]|].
  intros rtlog. apply succeeds_assume_inner. intros Hrtlog.
  eapply succeeds_bind;
    [eapply succeeds_knows;
       [apply quiet_check_logs | apply succeeds_check_logs]|].
  intros success. apply succeeds_assume_inner. intros Hs. subst success.
  match goal with
  | |- succeeds (fun w => _ /\ standing _ ?D' _ w) _ _ =>
      apply (succeeds_weaken _ _ _ _ _
               (succeeds_cleanup_tail tmpdir D' Habs
                  ltac:(apply elem_of_union_r, elem_of_union_l,
                          elem_of_singleton; reflexivity)))
  end.
  - auto.
  - intros ? w H. exists tmpdir. exact H.
Qed.

End Cooperative.

(** C5.  With fork 'emc', branch 'develop', system 'hera' and no compiler,
    project or rtconfig override, the resolver returns compiler 'intel',
    project 'gmtb' and rtconfig 'rt.conf'.  On a platform whose commands
    exit cleanly and remove no directory, whose [git clone] makes the
    checkout and whose harness leaves a text log containing
    'REGRESSION TEST WAS SUCCESSFUL', [check_logs] returns true, and the run
    of [main] with keep = false returns normally with the directory made by
    [mkdtemp] removed by [rmtree] and absent from the final file system. *)
Theorem end_to_end_emc_develop_hera
    BASEDIR now shell mkdtemp_path email w :
  String.prefix "/" BASEDIR = true ->
  BASEDIR ∈ dirs (fs w) ->
  (forall prefix f, String.prefix "/" (mkdtemp_path prefix f) = true) ->
  (forall cmd dir f, exits_cleanly (shell cmd dir f).1) ->
  shell_keeps_dirs shell ->
  clone_makes_checkout shell ->
  harness_writes_passing_log shell
    (path_join BASEDIR (strftime now (RT_LOG BASEDIR))) ->
  (parse_arguments
     {| arg_fork := "emc"; arg_branch := "develop"; arg_system := "hera";
        arg_compiler := None; arg_project := None; arg_rtconfig := None;
        arg_keep := false; arg_email := email |} w).1
  = Ok ("emc", "develop", "hera", "intel", "gmtb", "rt.conf", false,
        chosen email DEFAULT_EMAIL_RECIPIENT) /\
  (forall w' tmpdir D,
     standing BASEDIR D
       (passing_log_at (path_join BASEDIR (strftime now (RT_LOG BASEDIR))))
       w' ->
     (check_logs shell "hera" "intel" tmpdir (strftime now (RT_LOG BASEDIR))
        false (chosen email DEFAULT_EMAIL_RECIPIENT) w').1 = Ok true) /\
  (main BASEDIR now shell mkdtemp_path
     {| arg_fork := "emc"; arg_branch := "develop"; arg_system := "hera";
        arg_compiler := None; arg_project := None; arg_rtconfig := None;
        arg_keep := false; arg_email := email |} w).1 = Ok tt /\
  exists tmpdir,
    EvMkdtemp tmpdir
      ∈ trace (main BASEDIR now shell mkdtemp_path
                 {| arg_fork := "emc"; arg_branch := "develop";
                    arg_system := "hera"; arg_compiler := None;
                    arg_project := None; arg_rtconfig := None;
                    arg_keep := false; arg_email := email |} w).2 /\
    EvRmtree tmpdir
      ∈ trace (main BASEDIR now shell mkdtemp_path
                 {| arg_fork := "emc"; arg_branch := "develop";
                    arg_system := "hera"; arg_compiler := None;
                    arg_project := None; arg_rtconfig := None;
                    arg_keep := false; arg_email := email |} w).2 /\
    tmpdir
      ∉ dirs (fs (main BASEDIR now shell mkdtemp_path
                    {| arg_fork := "emc"; arg_branch := "develop";
                       arg_system := "hera"; arg_compiler := None;
                       arg_project := None; arg_rtconfig := None;
                       arg_keep := false; arg_email := email |} w).2).
Proof.
  intros Habs Hbase Htmp Hclean Hkeeps Hclone Hharness.
  split; [apply resolve_emc_develop_hera|]. split.
  - intros w' tmpdir D Hst.
    destruct (succeeds_check_logs shell Hclean Hkeeps BASEDIR
                "hera" "intel" tmpdir (strftime now (RT_LOG BASEDIR)) false
                (chosen email DEFAULT_EMAIL_RECIPIENT) D w' Hst)
      as (success & w1 & E & -> & _).
    rewrite E. reflexivity.
  - destruct (succeeds_main_emc_develop_hera shell Hclean Hkeeps BASEDIR Habs
                Hclone now Hharness mkdtemp_path Htmp email
                (cwd w) (dirs (fs w)) any_files Hbase w)
      as ([] & w1 & E & tmpdir & H1 & H2 & H3).
    + repeat split. reflexivity.
    + rewrite E. split; [reflexivity|]. exists tmpdir. auto.
Qed.

Lemma clone_is_not_the_harness cmd :
  String.prefix "git clone" cmd = true ->
  String.prefix "NEMS_MACHINE=" cmd = false.
Proof.
  intros H. destruct (prefix_inv _ _ H) as [t ->]. reflexivity.
Qed.

Lemma sim_clone_makes_checkout logtext :
  clone_makes_checkout (Sim.shell Sim.never logtext).
Proof.
  intros cmd dir f H. unfold Sim.shell, Sim.never. rewrite H. cbn [snd dirs].
  split.
  - apply elem_of_union_l, elem_of_union_l, elem_of_singleton. reflexivity.
  - apply elem_of_union_l, elem_of_union_r, elem_of_singleton. reflexivity.
Qed.

Lemma sim_harness_writes_passing_log :
  harness_writes_passing_log (Sim.shell Sim.never Sim.passing_log) Sim.rtlog.
Proof.
  intros cmd dir f H. unfold Sim.shell, Sim.never.
  destruct (String.prefix "git clone" cmd) eqn:Hc.
  - rewrite (clone_is_not_the_harness _ Hc) in H. discriminate H.
  - rewrite H. cbn [snd]. exists Sim.passing_log. split.
    + apply files_lookup. cbn [contents].
      split; [apply lookup_insert_eq | reflexivity].
    + split; reflexivity.
Qed.

Lemma end_to_end_emc_develop_hera_witness :
  (main Sim.BASEDIR Sim.now (Sim.shell Sim.never Sim.passing_log)
     Sim.mkdtemp_path Sim.args_hera Sim.world0).1 = Ok tt /\
  exists tmpdir,
    EvMkdtemp tmpdir
      ∈ trace (main Sim.BASEDIR Sim.now (Sim.shell Sim.never Sim.passing_log)
                 Sim.mkdtemp_path Sim.args_hera Sim.world0).2 /\
    EvRmtree tmpdir
      ∈ trace (main Sim.BASEDIR Sim.now (Sim.shell Sim.never Sim.passing_log)
                 Sim.mkdtemp_path Sim.args_hera Sim.world0).2 /\
    tmpdir
      ∉ dirs (fs (main Sim.BASEDIR Sim.now
                    (Sim.shell Sim.never Sim.passing_log)
                    Sim.mkdtemp_path Sim.args_hera Sim.world0).2).
Proof.
  apply (end_to_end_emc_develop_hera Sim.BASEDIR Sim.now
           (Sim.shell Sim.never Sim.passing_log) Sim.mkdtemp_path None
           Sim.world0).
  - reflexivity.
  - apply (bool_decide_unpack _). vm_compute. exact I.
  - intros prefix f. reflexivity.
  - intros cmd dir f. apply sim_shell_never_clean.
  - apply sim_shell_keeps_dirs.
  - apply sim_clone_makes_checkout.
  - exact sim_harness_writes_passing_log.
Defined.

(** ** More on the process executor *)

Lemma append_nl_nonempty t : t ++ nl <> "".
Proof. destruct t; discriminate. Qed.

(** [rstrip_nl] takes a run of newlines off the end, and all of it. *)
Lemma rstrip_nl_spec s :
  (exists k, s = rstrip_nl s ++ newlines k) /\
  (forall t, rstrip_nl s <> t ++ nl).
Proof.
  induction s as [|c rest [[k Hk] Hend]].
  - split; [exists 0; reflexivity|]. intros t H. symmetry in H.
    exact (append_nl_nonempty t H).
  - cbn [rstrip_nl]. destruct (rstrip_nl rest) as [|d r] eqn:Hr.
    + rewrite append_nil_l in Hk. destruct (Ascii.eqb c "010") eqn:Hc.
      * apply Ascii.eqb_eq in Hc. subst c. split.
        -- exists (S k). rewrite Hk at 1. reflexivity.
        -- intros t H. symmetry in H. exact (append_nl_nonempty t H).
      * split.
        -- exists k. rewrite Hk at 1. reflexivity.
        -- intros t H. destruct t as [|e t].
           ++ injection H as ->. discriminate Hc.
           ++ injection H as _ H. symmetry in H.
              exact (append_nl_nonempty t H).
    + split.
      * exists k. rewrite Hk at 1. reflexivity.
      * intros t H. destruct t as [|e t].
        -- injection H as _ H. discriminate H.
        -- injection H as _ H. exact (Hend t H).
Qed.

(** X1.  Whatever the outcome (a returned triple, an execution error or
    a decoding error), [execute] runs its command exactly once, in the
    current working directory: the trace grows by log records, one
    subprocess event for the command with the exit status it finished
    with, and log records again.  The working directory is the one before
    the call, and the file system is the one the command left. *)
Theorem execute_runs_the_command_once shell cmd w :
  exists logs1 logs2,
    Forall is_log logs1 /\ Forall is_log logs2 /\
    trace (execute shell cmd w).2
    = (trace w ++ logs1
       ++ EvPopen cmd (returncode (shell cmd (cwd w) (fs w)).1) :: logs2)%list
    /\ cwd (execute shell cmd w).2 = cwd w
    /\ fs (execute shell cmd w).2 = (shell cmd (cwd w) (fs w)).2.
Proof.
  destruct (execute_trace shell cmd w) as (l1 & l2 & H1 & H2 & E).
  destruct (execute_world shell cmd w) as [Hfs Hcwd].
  exists l1, l2. auto.
Qed.

(** X2.  A triple returned by [execute] has status zero, which is the
    command's exit status, and each of its two streams is what the command
    printed on that stream with the whole run of newlines at its end taken
    off and nothing else: the returned stream does not end in a newline. *)
Theorem execute_returned_triple shell cmd w status stdout stderr :
  (execute shell cmd w).1 = Ok (status, stdout, stderr) ->
  status = 0%Z /\
  returncode (shell cmd (cwd w) (fs w)).1 = 0%Z /\
  (exists k, stdout_bytes (shell cmd (cwd w) (fs w)).1 = stdout ++ newlines k) /\
  (exists k, stderr_bytes (shell cmd (cwd w) (fs w)).1 = stderr ++ newlines k) /\
  (forall t, stdout <> t ++ nl) /\ (forall t, stderr <> t ++ nl).
Proof.
  rewrite execute_result. cbv zeta.
  destruct (utf8_valid _); [|discriminate].
  destruct (utf8_valid _); [|discriminate].
  destruct (returncode _ =? 0)%Z eqn:Hz; [|discriminate].
  apply Z.eqb_eq in Hz. intros H. injection H as Hs Hout Herr.
  subst stdout stderr. rewrite Hz in Hs. subst status.
  destruct (rstrip_nl_spec (stdout_bytes (shell cmd (cwd w) (fs w)).1))
    as [Ho1 Ho2].
  destruct (rstrip_nl_spec (stderr_bytes (shell cmd (cwd w) (fs w)).1))
    as [He1 He2].
  auto 10.
Qed.

Lemma execute_returned_triple_witness :
  (exists k,
     "Cloning into 'ufs-weather-model'..." ++ nl
     = "Cloning into 'ufs-weather-model'..." ++ newlines k) /\
  (forall t, "Cloning into 'ufs-weather-model'..." <> t ++ nl).
Proof.
  destruct (execute_returned_triple
              (Sim.shell Sim.never Sim.passing_log)
              "git clone -v -b develop u d" Sim.world0
              0%Z "" "Cloning into 'ufs-weather-model'..."
              ltac:(rewrite execute_result; vm_compute; reflexivity))
    as (_ & _ & _ & He & _ & Hend).
  split; [exact He | exact Hend].
Defined.

(** X3.  On well-formed output, [execute] writes the record announcing the
    command when the logger's level is DEBUG or below, and the record with
    the exit status and both streams only when the level is exactly DEBUG,
    before it looks at the exit status: a failed command is reported in
    the log as well as in the exception, and at a level below DEBUG the
    announcement is written without the report. *)
Theorem execute_log_records shell cmd w :
  utf8_valid (stdout_bytes (shell cmd (cwd w) (fs w)).1) = true ->
  utf8_valid (stderr_bytes (shell cmd (cwd w) (fs w)).1) = true ->
  trace (execute shell cmd w).2
  = (trace w
     ++ (if (loglevel w <=? DEBUG)%Z
         then [EvLog DEBUG ("Executing " ++ dq ++ cmd ++ dq)] else [])
     ++ EvPopen cmd (returncode (shell cmd (cwd w) (fs w)).1)
     :: (if (loglevel w =? DEBUG)%Z
         then [EvLog DEBUG
                 (debug_message cmd
                    (returncode (shell cmd (cwd w) (fs w)).1)
                    (rstrip_nl (stdout_bytes (shell cmd (cwd w) (fs w)).1))
                    (rstrip_nl (stderr_bytes (shell cmd (cwd w) (fs w)).1)))]
         else []))%list.
Proof.
  intros Hout Herr.
  unfold execute, bind, getEffectiveLevel, logging_debug, logging_log, emit,
    with_handler, Popen_communicate, decode, ret, raise.
  destruct (shell cmd (cwd w) (fs w)) as [p f'] eqn:E. cbn [fst] in *.
  destruct (loglevel w <=? DEBUG)%Z eqn:Hle; cbn [fs cwd loglevel trace];
    rewrite E; cbn [fs cwd loglevel trace]; rewrite Hout, Herr;
    destruct (loglevel w =? DEBUG)%Z eqn:Heq; cbn [fs cwd loglevel trace].
  - rewrite Hle. destruct (negb _); cbn [snd trace];
      rewrite <- !app_assoc; reflexivity.
  - destruct (negb _); cbn [snd trace]; rewrite <- !app_assoc; reflexivity.
  - apply Z.eqb_eq in Heq. apply Z.leb_gt in Hle. lia.
  - destruct (negb _); cbn [snd trace]; reflexivity.
Qed.

Lemma execute_log_records_witness :
  trace (execute (Sim.shell Sim.clone_fails Sim.passing_log)
           "git clone -v -b develop u d"
           (Sim.world_with_log Sim.passing_log)).2
  = [ EvLog DEBUG
        ("Executing " ++ dq ++ "git clone -v -b develop u d" ++ dq);
      EvPopen "git clone -v -b develop u d" 1;
      EvLog DEBUG
        (debug_message "git clone -v -b develop u d" 1 "" "failed") ].
Proof.
  exact (execute_log_records (Sim.shell Sim.clone_fails Sim.passing_log)
           "git clone -v -b develop u d"
           (Sim.world_with_log Sim.passing_log) eq_refl eq_refl).
Defined.

(** ** More on the resolver *)

Lemma FORKS_inv fork entry :
  FORKS !! fork = Some entry ->
  (fork = "dtc" /\
   entry = {| branches := [ "dtc/develop" ];
              url := "https://github.com/NCAR/ufs-weather-model" |})
  \/
  (fork = "emc" /\
   entry = {| branches := [ "develop" ];
              url := "https://github.com/ufs-community/ufs-weather-model" |})
  \/
  (fork = "dom" /\
   entry = {| branches := [ "nems_machine_env_var" ];
              url := "https://github.com/climbfuji/ufs-weather-model" |}).
Proof.
  unfold FORKS. intros H.
  apply lookup_insert_Some in H as [[<- <-]|[_ H]]; [left; auto|].
  apply lookup_insert_Some in H as [[<- <-]|[_ H]]; [right; left; auto|].
  apply lookup_insert_Some in H as [[<- <-]|[_ H]]; [right; right; auto|].
  rewrite lookup_empty in H. discriminate.
Qed.

(** The four table checks, decided in the resolver's order. *)
Lemma selection_cases args :
  arg_fork args ∉ dom FORKS
  \/ (exists fork_entry,
        FORKS !! arg_fork args = Some fork_entry /\
        arg_branch args ∉ branches fork_entry)
  \/ (exists fork_entry,
        FORKS !! arg_fork args = Some fork_entry /\
        arg_branch args ∈ branches fork_entry /\
        arg_system args ∉ dom SYSTEMS)
  \/ (exists fork_entry system_entry,
        FORKS !! arg_fork args = Some fork_entry /\
        arg_branch args ∈ branches fork_entry /\
        SYSTEMS !! arg_system args = Some system_entry /\
        chosen (arg_compiler args) (default_compiler system_entry)
          ∉ compilers system_entry)
  \/ (exists fork_entry system_entry,
        valid_selection args fork_entry system_entry).
Proof.
  destruct (FORKS !! arg_fork args) as [fork_entry|] eqn:Hf.
  2:{ left. apply not_elem_of_dom, Hf. }
  destruct (decide (arg_branch args ∈ branches fork_entry)) as [Hb|Hb].
  2:{ right; left. eauto. }
  destruct (SYSTEMS !! arg_system args) as [system_entry|] eqn:Hs.
  2:{ right; right; left. exists fork_entry. repeat split; auto.
      apply not_elem_of_dom, Hs. }
  destruct (decide (chosen (arg_compiler args) (default_compiler system_entry)
                      ∈ compilers system_entry)) as [Hc|Hc].
  2:{ right; right; right; left. exists fork_entry, system_entry. auto. }
  right; right; right; right. exists fork_entry, system_entry.
  repeat split; auto.
Qed.

Lemma chosen_nonempty a d : d <> "" -> chosen a d <> "".
Proof.
  intros H. destruct a as [s|]; [|exact H]. cbn.
  destruct s; [exact H | discriminate].
Qed.

(** X4.  For every argument set and in every world, the resolver either
    returns, and then the selection passes the four table checks, or it
    raises an [Exception] whose message starts with "Invalid ", and then the
    selection fails one of them.  None of its table lookups ([FORKS[fork]],
    [SYSTEMS[system]], the default test configuration of the compiler) ever
    fails with a [KeyError]. *)
Theorem parse_arguments_never_fails_on_a_lookup args w :
  match (parse_arguments args w).1 with
  | Ok _ =>
      exists fork_entry system_entry,
        valid_selection args fork_entry system_entry
  | Raise e =>
      invalid_selection args /\
      exists message,
        e = Exception message /\ String.prefix "Invalid " message = true
  end.
Proof.
  destruct (selection_cases args)
    as [H|[(fe & Hf & Hb)|[(fe & Hf & Hb & Hs)
        |[(fe & se & Hf & Hb & Hs & Hc)|(fe & se & Hv)]]]].
  - rewrite parse_arguments_bad_fork by exact H.
    split; [left; exact H|]. eexists. split; reflexivity.
  - rewrite (parse_arguments_bad_branch _ _ _ Hf Hb).
    split; [right; left; eauto|]. eexists. split; reflexivity.
  - rewrite (parse_arguments_bad_system _ _ _ Hf Hb Hs).
    split; [right; right; left; exact Hs|]. eexists. split; reflexivity.
  - rewrite (parse_arguments_bad_compiler _ _ _ _ Hf Hb Hs Hc).
    split; [right; right; right; eauto|]. eexists. split; reflexivity.
  - destruct (parse_arguments_valid _ _ _ Hv) as (rt & _ & E).
    rewrite E. eauto.
Qed.

(** X5.  The checks are made in the order fork, branch, system, compiler
    and the first one that fails is the one reported: the exception names
    the fork when the fork is unknown; the branch (and not the fork, which
    the message format drops) when the fork is known and the branch is not
    one of its branches; the system when fork and branch are fine and the
    system is unknown; the compiler after defaulting, with the system, when
    only the compiler is not allowed. *)
Theorem parse_arguments_reports_the_first_failed_check args w e :
  (parse_arguments args w).1 = Raise e ->
  ((arg_fork args ∉ dom FORKS) /\
   (e = Exception ("Invalid fork " ++ arg_fork args)))
  \/ (exists fork_entry,
        FORKS !! arg_fork args = Some fork_entry /\
        (arg_branch args ∉ branches fork_entry) /\
        (e = Exception ("Invalid branch " ++ arg_branch args ++ " of fork")))
  \/ (exists fork_entry,
        FORKS !! arg_fork args = Some fork_entry /\
        arg_branch args ∈ branches fork_entry /\
        (arg_system args ∉ dom SYSTEMS) /\
        (e = Exception ("Invalid system " ++ arg_system args)))
  \/ (exists fork_entry system_entry,
        FORKS !! arg_fork args = Some fork_entry /\
        arg_branch args ∈ branches fork_entry /\
        SYSTEMS !! arg_system args = Some system_entry /\
        (chosen (arg_compiler args) (default_compiler system_entry)
           ∉ compilers system_entry) /\
        (e = Exception
               ("Invalid compiler "
                ++ chosen (arg_compiler args) (default_compiler system_entry)
                ++ " for system " ++ arg_system args))).
Proof.
  intros E.
  destruct (selection_cases args)
    as [H|[(fe & Hf & Hb)|[(fe & Hf & Hb & Hs)
        |[(fe & se & Hf & Hb & Hs & Hc)|(fe & se & Hv)]]]].
  - rewrite parse_arguments_bad_fork in E by exact H.
    injection E as <-. left. auto.
  - rewrite (parse_arguments_bad_branch _ _ _ Hf Hb) in E.
    injection E as <-. right; left. eauto.
  - rewrite (parse_arguments_bad_system _ _ _ Hf Hb Hs) in E.
    injection E as <-. right; right; left. eauto.
  - rewrite (parse_arguments_bad_compiler _ _ _ _ Hf Hb Hs Hc) in E.
    injection E as <-. right; right; right. exists fe, se. auto.
  - destruct (parse_arguments_valid _ _ _ Hv) as (rt & _ & E').
    rewrite E' in E. discriminate.
Qed.

(** X6.  For every branch of a known fork and every known system, leaving
    the compiler out (or giving it as the empty string) never fails: the
    resolver returns the system's default compiler, which the tables allow
    for that system and for which they hold a default test configuration. *)
Theorem omitted_compiler_always_resolves args fork_entry system_entry w :
  FORKS !! arg_fork args = Some fork_entry ->
  arg_branch args ∈ branches fork_entry ->
  SYSTEMS !! arg_system args = Some system_entry ->
  arg_compiler args = None \/ arg_compiler args = Some "" ->
  exists default_config,
    default_rtconfig system_entry !! default_compiler system_entry
    = Some default_config /\
    (parse_arguments args w).1
    = Ok (arg_fork args, arg_branch args, arg_system args,
          default_compiler system_entry,
          chosen (arg_project args) (default_project system_entry),
          chosen (arg_rtconfig args) default_config,
          arg_keep args,
          chosen (arg_email args) DEFAULT_EMAIL_RECIPIENT).
Proof.
  intros Hf Hb Hs Hc.
  assert (Hd : chosen (arg_compiler args) (default_compiler system_entry)
               = default_compiler system_entry).
  { destruct Hc as [-> | ->]; reflexivity. }
  assert (Hv : valid_selection args fork_entry system_entry).
  { repeat split; auto. rewrite Hd.
    eapply default_compiler_allowed, Hs. }
  destruct (parse_arguments_valid _ _ _ Hv) as (rt & Hrt & E).
  rewrite Hd in Hrt. exists rt. split; [exact Hrt|].
  rewrite E, Hd. reflexivity.
Qed.

(** X7.  What the resolver returns or raises depends on the arguments
    alone, not on the file system, the working directory, the logging level
    or what has happened before; and it changes nothing but the log. *)
Theorem parse_arguments_reads_only_its_arguments args w w' :
  (parse_arguments args w).1 = (parse_arguments args w').1 /\
  logs_only w (parse_arguments args w).2.
Proof.
  split; [|apply only_logs_parse_arguments].
  destruct (selection_cases args)
    as [H|[(fe & Hf & Hb)|[(fe & Hf & Hb & Hs)
        |[(fe & se & Hf & Hb & Hs & Hc)|(fe & se & Hv)]]]].
  - rewrite !parse_arguments_bad_fork by exact H. reflexivity.
  - rewrite !(parse_arguments_bad_branch _ _ _ Hf Hb). reflexivity.
  - rewrite !(parse_arguments_bad_system _ _ _ Hf Hb Hs). reflexivity.
  - rewrite !(parse_arguments_bad_compiler _ _ _ _ Hf Hb Hs Hc). reflexivity.
  - destruct (parse_arguments_valid _ _ _ Hv) as (rt & _ & E).
    rewrite !E. reflexivity.
Qed.

(** X8.  The run parameters the resolver returns are consistent with the
    tables and complete: the fork is a key of [FORKS] and the branch one of
    its branches, the system is a key of [SYSTEMS] and the compiler one of
    its compilers, the keep flag is the one given, and none of the seven
    strings is empty, whatever was given on the command line (an empty
    option value is replaced by its default). *)
Theorem resolved_parameters_are_complete
    args w fork branch system compiler project rtconfig keep email :
  (parse_arguments args w).1
  = Ok (fork, branch, system, compiler, project, rtconfig, keep, email) ->
  (exists fork_entry system_entry,
     FORKS !! fork = Some fork_entry /\ branch ∈ branches fork_entry /\
     SYSTEMS !! system = Some system_entry /\
     compiler ∈ compilers system_entry) /\
  keep = arg_keep args /\
  fork <> "" /\ branch <> "" /\ system <> "" /\ compiler <> "" /\
  project <> "" /\ rtconfig <> "" /\ email <> "".
Proof.
  intros E.
  destruct (selection_cases args)
    as [H|[(fe & Hf & Hb)|[(fe & Hf & Hb & Hs)
        |[(fe & se & Hf & Hb & Hs & Hc)|(fe & se & Hv)]]]].
  - rewrite parse_arguments_bad_fork in E by exact H. discriminate.
  - rewrite (parse_arguments_bad_branch _ _ _ Hf Hb) in E. discriminate.
  - rewrite (parse_arguments_bad_system _ _ _ Hf Hb Hs) in E. discriminate.
  - rewrite (parse_arguments_bad_compiler _ _ _ _ Hf Hb Hs Hc) in E.
    discriminate.
  - destruct (parse_arguments_valid _ _ _ Hv) as (rt & Hrt & E').
    rewrite E' in E. injection E as <- <- <- <- <- <- <- <-.
    destruct Hv as (Hf & Hb & Hs & Hc).
    split; [exists fe, se; auto|]. split; [reflexivity|].
    assert (Hne : forall x (l : list string),
               x ∈ l -> Forall (fun y => y <> "") l -> x <> "").
    { intros x l Hx Hl. rewrite Forall_forall in Hl. auto. }
    destruct (FORKS_inv _ _ Hf) as [[Ef ->]|[[Ef ->]|[Ef ->]]];
      destruct (SYSTEMS_inv _ _ Hs) as [[Es ->]|[Es ->]];
      rewrite Ef, Es; cbn [branches compilers default_project
                             default_compiler default_rtconfig] in *;
      (split; [discriminate|]);
      (split; [eapply Hne; [exact Hb|]; repeat constructor; discriminate|]);
      (split; [discriminate|]);
      (split; [eapply Hne; [exact Hc|]; repeat constructor; discriminate|]);
      (split; [apply chosen_nonempty; discriminate|]);
      (split; [|apply chosen_nonempty; discriminate]);
      apply chosen_nonempty; intros ->;
      repeat (apply lookup_insert_Some in Hrt as [[_ Hrt]|[_ Hrt]];
              [discriminate Hrt|]);
      rewrite lookup_empty in Hrt; discriminate.
Qed.

Lemma parse_arguments_reports_the_first_failed_check_witness :
  (parse_arguments
     {| arg_fork := "emc"; arg_branch := "dtc/develop";
        arg_system := "jet"; arg_compiler := Some "pgi";
        arg_project := None; arg_rtconfig := None;
        arg_keep := false; arg_email := None |} Sim.world0).1
  = Raise (Exception "Invalid branch dtc/develop of fork").
Proof.
  destruct (parse_arguments_reports_the_first_failed_check
              {| arg_fork := "emc"; arg_branch := "dtc/develop";
                 arg_system := "jet"; arg_compiler := Some "pgi";
                 arg_project := None; arg_rtconfig := None;
                 arg_keep := false; arg_email := None |} Sim.world0
              (Exception "Invalid branch dtc/develop of fork") eq_refl)
    as [[_ E]|[(fe & _ & _ & E)|[(fe & _ & _ & Hs & E)
        |(fe & se & _ & _ & Hs & _)]]].
  - discriminate E.
  - reflexivity.
  - discriminate E.
  - discriminate Hs.
Defined.

Lemma omitted_compiler_always_resolves_witness :
  exists default_config,
    (parse_arguments
       {| arg_fork := "dtc"; arg_branch := "dtc/develop";
          arg_system := "cheyenne"; arg_compiler := Some "";
          arg_project := None; arg_rtconfig := None;
          arg_keep := true; arg_email := None |} Sim.world0).1
    = Ok ("dtc", "dtc/develop", "cheyenne", "intel", "P48503002",
          default_config, true, "heinzell@ucar.edu").
Proof.
  destruct (omitted_compiler_always_resolves
              {| arg_fork := "dtc"; arg_branch := "dtc/develop";
                 arg_system := "cheyenne"; arg_compiler := Some "";
                 arg_project := None; arg_rtconfig := None;
                 arg_keep := true; arg_email := None |}
              {| branches := [ "dtc/develop" ];
                 url := "https://github.com/NCAR/ufs-weather-model" |}
              {| compilers := [ "intel"; "gnu" ];
                 default_compiler := "intel";
                 default_project := "P48503002";
                 default_rtconfig :=
                   <[ "intel" := "rt.conf" ]>
                   (<[ "gnu" := "rt_gnu.conf" ]> ∅) |}
              Sim.world0 eq_refl ltac:(left) eq_refl
              ltac:(right; reflexivity))
    as (default_config & _ & E).
  exists default_config. exact E.
Defined.

Lemma resolved_parameters_are_complete_witness :
  (parse_arguments
     {| arg_fork := "dom"; arg_branch := "nems_machine_env_var";
        arg_system := "cheyenne"; arg_compiler := Some "gnu";
        arg_project := Some ""; arg_rtconfig := Some "";
        arg_keep := false; arg_email := Some "" |} Sim.world0).1
  = Ok ("dom", "nems_machine_env_var", "cheyenne", "gnu", "P48503002",
        "rt_gnu.conf", false, "heinzell@ucar.edu")
  /\ exists fork_entry system_entry,
       (FORKS !! "dom" = Some fork_entry) /\
       ("nems_machine_env_var" ∈ branches fork_entry) /\
       (SYSTEMS !! "cheyenne" = Some system_entry) /\
       ("gnu" ∈ compilers system_entry).
Proof.
  split; [vm_compute; reflexivity|].
  exact (proj1 (resolved_parameters_are_complete
                  {| arg_fork := "dom"; arg_branch := "nems_machine_env_var";
                     arg_system := "cheyenne"; arg_compiler := Some "gnu";
                     arg_project := Some ""; arg_rtconfig := Some "";
                     arg_keep := false; arg_email := Some "" |}
                  Sim.world0
                  "dom" "nems_machine_env_var" "cheyenne" "gnu" "P48503002"
                  "rt_gnu.conf" false "heinzell@ucar.edu"
                  ltac:(vm_compute; reflexivity))).
Defined.

(** ** More on the work directory and the checkout *)

Lemma str_in_char_cons (c d : ascii) (s : string) :
  str_in (String c "") (String d s)
  = Ascii.eqb c d || str_in (String c "") s.
Proof.
  cbn [str_in String.prefix].
  destruct (ascii_dec c d) as [->|Hne].
  - rewrite Ascii.eqb_refl. destruct s; reflexivity.
  - apply Ascii.eqb_neq in Hne. rewrite Hne. reflexivity.
Qed.

Lemma str_in_char_app (c : ascii) (a b : string) :
  str_in (String c "") (a ++ b)
  = str_in (String c "") a || str_in (String c "") b.
Proof.
  induction a as [|d a IH].
  - rewrite append_nil_l. reflexivity.
  - rewrite append_cons, !str_in_char_cons, IH, orb_assoc. reflexivity.
Qed.

Lemma replace_char_gone (old new : ascii) (s : string) :
  old <> new -> str_in (String old "") (replace_char old new s) = false.
Proof.
  intros Hne. induction s as [|c s IH]; [reflexivity|].
  cbn [replace_char]. rewrite str_in_char_cons, IH, orb_false_r.
  destruct (Ascii.eqb c old) eqn:E.
  - apply Ascii.eqb_neq, Hne.
  - rewrite Ascii.eqb_sym. exact E.
Qed.

Lemma os_chdir_ok path w :
  path_join (cwd w) path ∈ dirs (fs w) ->
  os_chdir path w
  = (Ok tt, {| fs := fs w; cwd := path_join (cwd w) path;
               loglevel := loglevel w; handlers := handlers w;
               trace := trace w ++ [EvChdir (path_join (cwd w) path)] |}).
Proof.
  intros H. unfold os_chdir. cbv zeta.
  rewrite bool_decide_eq_true_2 by exact H. reflexivity.
Qed.

Lemma os_chdir_missing path w :
  path_join (cwd w) path ∉ dirs (fs w) ->
  os_chdir path w = (Raise (FileNotFoundError path), w).
Proof.
  intros H. unfold os_chdir. cbv zeta.
  rewrite bool_decide_eq_false_2 by exact H. reflexivity.
Qed.

(** X9.  The prefix [get_workdir] hands to [tempfile.mkdtemp] contains no
    path separator when the fork, the compiler and the formatted time
    contain none, whatever the branch: the slashes of a branch name such as
    "dtc/develop" are replaced before the name is used.  The directory
    returned is the one [mkdtemp] picks for that prefix. *)
Theorem workdir_prefix_has_no_slash now fork branch compiler :
  str_in "/" fork = false ->
  str_in "/" compiler = false ->
  str_in "/" (strftime now "%Y%m%dT%H%M%S") = false ->
  exists prefix,
    str_in "/" prefix = false /\
    forall mkdtemp_path w,
      (get_workdir mkdtemp_path now fork branch compiler w).1
      = Ok (mkdtemp_path prefix (fs w)) /\
      EvMkdtemp (mkdtemp_path prefix (fs w))
        ∈ trace (get_workdir mkdtemp_path now fork branch compiler w).2.
Proof.
  intros Hf Hc Ht. eexists. split.
  2:{ intros mk w.
      unfold get_workdir, logging_info, bind, tempfile_mkdtemp, ret.
      cbv zeta.
      match goal with
      | |- context [logging_log ?l ?m ?w0] =>
          destruct (logging_log_run l m w0) as (logs & -> & _)
      end.
      cbn [fst snd trace]. split; [reflexivity|].
      rewrite !elem_of_app, elem_of_cons. auto. }
  rewrite !str_in_char_app, Hf, Hc, Ht.
  rewrite (replace_char_gone "/" "-") by discriminate. reflexivity.
Qed.

Lemma workdir_prefix_has_no_slash_witness :
  exists prefix,
    str_in "/" prefix = false /\
    forall mkdtemp_path w,
      (get_workdir mkdtemp_path Sim.now "dtc" "dtc/develop" "intel" w).1
      = Ok (mkdtemp_path prefix (fs w)) /\
      EvMkdtemp (mkdtemp_path prefix (fs w))
        ∈ trace (get_workdir mkdtemp_path Sim.now "dtc" "dtc/develop"
                   "intel" w).2.
Proof.
  exact (workdir_prefix_has_no_slash Sim.now "dtc" "dtc/develop" "intel"
           eq_refl eq_refl eq_refl).
Defined.

(** X10.  [checkout_code] looks its fork up without a check of its own:
    called with a fork that is not a key of [FORKS] it raises [KeyError]
    for that fork, before it logs, changes directory or runs anything. *)
Theorem checkout_code_unknown_fork BASEDIR shell fork branch tmpdir w :
  fork ∉ dom FORKS ->
  checkout_code BASEDIR shell fork branch tmpdir w = (Raise (KeyError fork), w).
Proof.
  intros H. apply not_elem_of_dom in H.
  unfold checkout_code, bind, getitem. rewrite H. reflexivity.
Qed.

Lemma checkout_code_unknown_fork_witness :
  checkout_code Sim.BASEDIR (Sim.shell Sim.never Sim.passing_log)
    "ncar" "develop" Sim.tmpdir Sim.world0
  = (Raise (KeyError "ncar"), Sim.world0).
Proof.
  apply (checkout_code_unknown_fork Sim.BASEDIR
           (Sim.shell Sim.never Sim.passing_log)
           "ncar" "develop" Sim.tmpdir Sim.world0).
  apply (bool_decide_unpack _). vm_compute. exact I.
Defined.



(** X12.  [checkout_code] does not go back when a step fails: if the clone
    command exits with a non-zero status, [checkout_code] raises, the clone
    is the only command it has run, and the process is left standing in the
    work directory, not in the directory it was started from. *)
Theorem failed_clone_leaves_the_process_in_the_workdir
    BASEDIR shell fork fork_entry branch tmpdir w :
  FORKS !! fork = Some fork_entry ->
  path_join (cwd w) tmpdir ∈ dirs (fs w) ->
  returncode
    (shell ("git clone -v -b " ++ branch ++ " " ++ url fork_entry ++ " "
            ++ CHECKOUT_DIR)
       (path_join (cwd w) tmpdir) (fs w)).1 <> 0%Z ->
  is_raise (checkout_code BASEDIR shell fork branch tmpdir w).1 /\
  cwd (checkout_code BASEDIR shell fork branch tmpdir w).2
  = path_join (cwd w) tmpdir /\
  exists before after,
    trace (checkout_code BASEDIR shell fork branch tmpdir w).2
    = (trace w ++ before
       ++ EvPopen ("git clone -v -b " ++ branch ++ " " ++ url fork_entry
                   ++ " " ++ CHECKOUT_DIR)
            (returncode
               (shell ("git clone -v -b " ++ branch ++ " "
                       ++ url fork_entry ++ " " ++ CHECKOUT_DIR)%string
                  (path_join (cwd w) tmpdir) (fs w)).1)
       :: after)%list /\
    no_popen before /\ no_popen after.
Proof.
  intros Hf Hd Hnz. unfold checkout_code, logging_info.
  step_ok (getitem_ok _ _ _ w Hf). cbv zeta. step_log.
  match goal with
  | |- context [bind (os_chdir ?p) ?k ?w0] =>
      rewrite (bind_ok _ k _ _ _ (os_chdir_ok p w0 Hd))
  end.
  cbn [fs cwd loglevel handlers trace].
  match goal with
  | |- context [bind (execute shell ?c) ?k ?w0] =>
      set (cmd := c); set (w1 := w0);
      pose proof (execute_result shell cmd w1) as Hres;
      destruct (execute_trace shell cmd w1) as (l1 & l2 & Hl1 & Hl2 & Htr);
      destruct (execute_world shell cmd w1) as [_ Hcwd]
  end.
  cbv zeta in Hres. subst w1. cbn [fs cwd loglevel handlers trace] in *.
  apply Z.eqb_neq in Hnz. fold cmd in Hnz. rewrite Hnz in Hres.
  assert (exists e, (execute shell cmd
                       {| fs := fs w; cwd := path_join (cwd w) tmpdir;
                          loglevel := loglevel w; handlers := true;
                          trace := (trace w ++ logs)
                                   ++ [EvChdir (path_join (cwd w) tmpdir)] |}).1
                    = Raise e) as [e He].
  { rewrite Hres. destruct (utf8_valid _); [destruct (utf8_valid _)|]; eauto. }
  rewrite (bind_fst_raise _ _ _ _ He). cbn [fst snd].
  split; [exact I|]. split; [exact Hcwd|].
  exists (logs ++ EvChdir (path_join (cwd w) tmpdir) :: l1)%list, l2.
  split; [|split].
  - rewrite Htr, <- !app_assoc. reflexivity.
  - intros c s Hin. apply elem_of_app in Hin as [Hin|Hin].
    + rewrite Forall_forall in Hlogs. apply Hlogs in Hin. exact Hin.
    + apply elem_of_cons in Hin as [Hin|Hin]; [discriminate|].
      rewrite Forall_forall in Hl1. apply Hl1 in Hin. exact Hin.
  - intros c s Hin. rewrite Forall_forall in Hl2. apply Hl2 in Hin. exact Hin.
Qed.

Lemma failed_clone_leaves_the_process_in_the_workdir_witness :
  is_raise
    (checkout_code Sim.BASEDIR (Sim.shell Sim.clone_fails Sim.passing_log)
       "emc" "develop" Sim.tmpdir (Sim.world_with_log Sim.passing_log)).1 /\
  cwd (checkout_code Sim.BASEDIR (Sim.shell Sim.clone_fails Sim.passing_log)
         "emc" "develop" Sim.tmpdir (Sim.world_with_log Sim.passing_log)).2
  = Sim.tmpdir.
Proof.
  destruct (failed_clone_leaves_the_process_in_the_workdir
              Sim.BASEDIR (Sim.shell Sim.clone_fails Sim.passing_log)
              "emc"
              {| branches := [ "develop" ];
                 url := "https://github.com/ufs-community/ufs-weather-model" |}
              "develop" Sim.tmpdir (Sim.world_with_log Sim.passing_log)
              eq_refl
              ltac:(apply (bool_decide_unpack _); vm_compute; exact I)
              ltac:(vm_compute; discriminate))
    as (Hraise & Hcwd & _).
  split; [exact Hraise | exact Hcwd].
Defined.

(** ** More on the test runner *)

Lemma is_log_no_popen logs : Forall is_log logs -> no_popen logs.
Proof.
  intros H c s Hin. rewrite Forall_forall in H. apply H in Hin. exact Hin.
Qed.



(** X14.  [BASEDIR] being absolute (it is [os.getcwd()]): when
    [run_tests] returns, the path it returns is the run's log name (the
    start time formatted with [RT_LOG]) and it is the file the harness
    output was redirected to: [run_tests] has entered the tests directory of
    the checkout, run there exactly one command, the harness with the three
    environment variables, the test configuration, [-k] exactly when keep is
    set and [> rtlog 2>&1], to exit status zero, and has then changed
    directory to [BASEDIR], where the process is left. *)
Theorem run_tests_returns_where_the_harness_logged
    BASEDIR shell now system compiler project rtconfig keep tmpdir w rtlog :
  String.prefix "/" BASEDIR = true ->
  (run_tests BASEDIR shell now system compiler project rtconfig keep tmpdir
     w).1 = Ok rtlog ->
  rtlog = strftime now (RT_LOG BASEDIR) /\
  cwd (run_tests BASEDIR shell now system compiler project rtconfig keep
         tmpdir w).2 = BASEDIR /\
  exists logs1 logs2,
    Forall is_log logs1 /\ Forall is_log logs2 /\
    trace (run_tests BASEDIR shell now system compiler project rtconfig keep
             tmpdir w).2
    = (trace w
       ++ EvChdir (path_join (cwd w)
                     (path_join (path_join tmpdir CHECKOUT_DIR) TEST_DIR))
       :: logs1
       ++ EvPopen ("NEMS_MACHINE=" ++ system ++ " NEMS_COMPILER=" ++ compiler
                   ++ " ACCNR=" ++ project ++ " ./rt.sh -l " ++ rtconfig
                   ++ " " ++ (if keep then "-k" else "") ++ " > " ++ rtlog
                   ++ " 2>&1") 0
       :: logs2
       ++ [EvChdir BASEDIR])%list.
Proof.
  intros Habs. unfold run_tests, logging_info.
  destruct (decide (path_join (cwd w)
                      (path_join (path_join tmpdir CHECKOUT_DIR) TEST_DIR)
                    ∈ dirs (fs w))) as [Hd|Hd].
  2:{ rewrite (bind_raise _ _ _ _ _ (os_chdir_missing _ _ Hd)). discriminate. }
  rewrite (bind_ok _ _ _ _ _ (os_chdir_ok _ _ Hd)). cbv zeta. step_log.
  cbn [fs cwd loglevel handlers trace].
  match goal with
  | |- context [bind (execute shell ?c) ?k ?w0] =>
      set (cmd := c); set (w1 := w0);
      pose proof (execute_returns_only_on_zero shell cmd w1) as Hzero;
      destruct (execute_trace shell cmd w1) as (l1 & l2 & Hl1 & Hl2 & Htr);
      destruct (execute_world shell cmd w1) as [Hfs Hcwd];
      destruct (execute shell cmd w1) as [[triple|e] w2] eqn:Hex
  end.
  2:{ rewrite (bind_raise _ _ _ _ _ Hex). discriminate. }
  rewrite (bind_ok _ _ _ _ _ Hex).
  specialize (Hzero triple eq_refl). cbn [snd] in Htr, Hfs, Hcwd.
  rewrite Hzero in Htr. subst w1. cbn [trace] in Htr.
  destruct (decide (path_join (cwd w2) BASEDIR ∈ dirs (fs w2))) as [Hb|Hb].
  2:{ rewrite (bind_raise _ _ _ _ _ (os_chdir_missing _ _ Hb)). discriminate. }
  rewrite (bind_ok _ _ _ _ _ (os_chdir_ok _ _ Hb)).
  rewrite (path_join_absolute _ _ Habs).
  cbn [ret fst snd trace cwd]. intros E. injection E as <-.
  split; [reflexivity|]. split; [reflexivity|].
  exists (logs ++ l1)%list, l2.
  split; [apply Forall_app; auto|]. split; [exact Hl2|].
  rewrite Htr. cbn [app]. rewrite <- !app_assoc. reflexivity.
Qed.

Lemma run_tests_returns_where_the_harness_logged_witness :
  Sim.rtlog = strftime Sim.now (RT_LOG Sim.BASEDIR) /\
  cwd (run_tests Sim.BASEDIR (Sim.shell Sim.never Sim.passing_log)
         Sim.now "hera" "intel" "gmtb" "rt.conf" false Sim.tmpdir
         {| fs := {| dirs := {[ "/home/user" ]}
                             ∪ {[ path_join
                                    (path_join Sim.tmpdir CHECKOUT_DIR)
                                    TEST_DIR ]};
                     contents := ∅ |};
            cwd := "/home/user"; loglevel := 10; handlers := true;
            trace := [] |}).2
  = Sim.BASEDIR.
Proof.
  assert (E : (run_tests Sim.BASEDIR (Sim.shell Sim.never Sim.passing_log)
                 Sim.now "hera" "intel" "gmtb" "rt.conf" false Sim.tmpdir
                 {| fs := {| dirs := {[ "/home/user" ]}
                                     ∪ {[ path_join
                                            (path_join Sim.tmpdir CHECKOUT_DIR)
                                            TEST_DIR ]};
                             contents := ∅ |};
                    cwd := "/home/user"; loglevel := 10; handlers := true;
                    trace := [] |}).1
              = Ok Sim.rtlog)
    by (vm_compute; reflexivity).
  destruct (run_tests_returns_where_the_harness_logged Sim.BASEDIR _ _ _ _
              _ _ _ _ _ _ eq_refl E) as (Hlog & Hcwd & _).
  split; [exact Hlog | exact Hcwd].
Defined.

(** ** More on the log evaluator and the cleanup *)

Lemma str_in_refl (s : string) : str_in s s = true.
Proof.
  apply str_in_here. induction s as [|c s IH]; [reflexivity|].
  cbn [String.prefix]. destruct (ascii_dec c c); [exact IH | congruence].
Qed.

(** X15.  When there is nothing at the log path, neither a file nor a
    directory, [check_logs] raises [FileNotFoundError] for it and nothing
    else happens: no message is composed or logged and no mail is sent. *)
Theorem check_logs_missing_log_sends_no_mail
    shell system compiler tmpdir rtlog keep email w :
  contents (fs w) !! path_join (cwd w) rtlog = None ->
  path_join (cwd w) rtlog ∉ dirs (fs w) ->
  check_logs shell system compiler tmpdir rtlog keep email w
  = (Raise (FileNotFoundError rtlog), w).
Proof.
  intros H Hd. unfold check_logs, bind, read_text. cbv zeta. rewrite H.
  rewrite bool_decide_eq_false_2 by exact Hd. reflexivity.
Qed.

Lemma check_logs_missing_log_sends_no_mail_witness :
  check_logs (Sim.shell Sim.never Sim.passing_log) "hera" "intel"
    Sim.tmpdir Sim.rtlog false "heinzell@ucar.edu" Sim.world0
  = (Raise (FileNotFoundError Sim.rtlog), Sim.world0).
Proof.
  apply (check_logs_missing_log_sends_no_mail
           (Sim.shell Sim.never Sim.passing_log) "hera" "intel"
           Sim.tmpdir Sim.rtlog false "heinzell@ucar.edu" Sim.world0).
  - reflexivity.
  - intros H. apply (bool_decide_pack _) in H. vm_compute in H. exact H.
Defined.

(** X16.  With a readable log, [check_logs] sends its mail whatever the
    verdict: after opening the log it runs exactly one command, the mail
    command to the given recipient with the log attached, between log
    records only.  The subject says "passed" when the log carries the
    success marker and "did NOT PASS" when it does not; the body names the
    log, and names the work directory unless the run passed and the
    directory is not kept. *)
Theorem check_logs_mails_whatever_the_verdict
    shell system compiler tmpdir rtlog keep email w text :
  files (fs w) !! path_join (cwd w) rtlog = Some text ->
  exists message status logs1 logs2,
    Forall is_log logs1 /\ Forall is_log logs2 /\
    trace (check_logs shell system compiler tmpdir rtlog keep email w).2
    = (trace w
       ++ EvOpen (path_join (cwd w) rtlog)
       :: logs1
       ++ EvPopen
            (mail_cmd message rtlog
               (system ++ "/" ++ compiler
                ++ (if str_in RT_SUCCESSFUL text
                    then ": regression tests passed"
                    else ": regression tests did NOT PASS"))
               email) status
       :: logs2)%list /\
    str_in rtlog message = true /\
    (str_in RT_SUCCESSFUL text && negb keep = false ->
     str_in tmpdir message = true).
Proof.
  intros Hlog. unfold check_logs, logging_info, logging_error.
  step_ok (read_text_ok _ _ _ Hlog). cbv zeta.
  destruct (str_in RT_SUCCESSFUL text), keep; cbn [andb negb];
    rewrite bind_assoc; step_log; rewrite bind_ret;
    match goal with
    | |- context [bind (execute shell ?c) ?k ?w0] =>
        destruct (execute_trace shell c w0) as (l1 & l2 & Hl1 & Hl2 & Htr);
        destruct (execute shell c w0) as [[triple|e] w2] eqn:Hex;
        [rewrite (bind_ok _ _ _ _ _ Hex) | rewrite (bind_raise _ _ _ _ _ Hex)]
    end;
    cbn [ret fst snd trace] in *;
    eexists _, _, (logs ++ l1)%list, l2;
    (split; [apply Forall_app; auto|]);
    (split; [exact Hl2|]);
    (split; [rewrite Htr, <- !app_assoc; reflexivity|]);
    (split; [find_substring|]);
    first [ intros Hf; discriminate Hf
          | intros _; find_substring; apply str_in_refl ].
Qed.

Lemma check_logs_mails_whatever_the_verdict_witness :
  exists message status logs1 logs2,
    Forall is_log logs1 /\ Forall is_log logs2 /\
    trace (check_logs (Sim.shell Sim.never Sim.failing_log) "hera" "intel"
             Sim.tmpdir Sim.rtlog false "heinzell@ucar.edu"
             (Sim.world_with_log Sim.failing_log)).2
    = (EvOpen Sim.rtlog
       :: logs1
       ++ EvPopen
            (mail_cmd message Sim.rtlog
               "hera/intel: regression tests did NOT PASS"
               "heinzell@ucar.edu") status
       :: logs2)%list /\
    str_in Sim.tmpdir message = true.
Proof.
  destruct (check_logs_mails_whatever_the_verdict
              (Sim.shell Sim.never Sim.failing_log) "hera" "intel"
              Sim.tmpdir Sim.rtlog false "heinzell@ucar.edu"
              (Sim.world_with_log Sim.failing_log) Sim.failing_log eq_refl)
    as (message & status & logs1 & logs2 & H1 & H2 & Htr & _ & Hdir).
  exists message, status, logs1, logs2.
  split; [exact H1|]. split; [exact H2|]. split; [exact Htr|].
  apply Hdir. reflexivity.
Defined.



(** ** The commands of a run, in order *)

Lemma commands_app evs1 evs2 :
  commands (evs1 ++ evs2) = (commands evs1 ++ commands evs2)%list.
Proof.
  induction evs1 as [|ev evs1 IH]; [reflexivity|].
  destruct ev; cbn [commands app]; rewrite IH; reflexivity.
Qed.

Lemma commands_logs logs : Forall is_log logs -> commands logs = [].
Proof.
  induction 1 as [|ev logs Hev _ IH]; [reflexivity|].
  destruct ev; try destruct Hev. exact IH.
Qed.

Lemma in_order_app_l kinds1 kinds2 cmds :
  in_order kinds1 cmds = true -> in_order (kinds1 ++ kinds2) cmds = true.
Proof.
  revert cmds. induction kinds1 as [|kind kinds1 IH]; intros [|cmd cmds] H;
    try reflexivity; try discriminate.
  cbn [in_order app] in *. apply andb_true_iff in H as [-> H].
  apply IH, H.
Qed.

Lemma in_order_app kinds1 kinds2 cmds1 cmds2 :
  in_order kinds1 cmds1 = true -> length cmds1 = length kinds1 ->
  in_order kinds2 cmds2 = true ->
  in_order (kinds1 ++ kinds2) (cmds1 ++ cmds2) = true.
Proof.
  revert cmds1. induction kinds1 as [|kind kinds1 IH];
    intros [|cmd cmds1] H1 Hlen H2; cbn [length] in Hlen;
    try discriminate.
  - exact H2.
  - cbn [in_order app] in *. apply andb_true_iff in H1 as [-> H1].
    apply IH; [exact H1 | congruence | exact H2].
Qed.

Lemma follows_bind {A B} (m : M A) (k : A -> M B) kinds1 kinds2 :
  emits m (follows kinds1) -> (forall a, emits (k a) (follows kinds2)) ->
  emits (bind m k) (follows (kinds1 ++ kinds2)).
Proof.
  intros Hm Hk.
  apply (emits_bind m k (follows kinds1) (fun _ => follows kinds2));
    [exact Hm | exact Hk | |].
  - intros e evs [H _]. split; [apply in_order_app_l, H | exact I].
  - intros a r evs1 evs2 [H1 L1] [H2 L2]. unfold follows.
    rewrite commands_app. split.
    + apply in_order_app; assumption.
    + destruct r; [|exact I]. rewrite !length_app. congruence.
Qed.

(** A step that runs no command. *)
Lemma follows_bind_nil {A B} (m : M A) (k : A -> M B) kinds :
  emits m (follows []) -> (forall a, emits (k a) (follows kinds)) ->
  emits (bind m k) (follows kinds).
Proof. apply (follows_bind m k [] kinds). Qed.

(** A step that runs one command. *)
Lemma follows_bind_cons {A B} (m : M A) (k : A -> M B) kind kinds :
  emits m (follows [kind]) -> (forall a, emits (k a) (follows kinds)) ->
  emits (bind m k) (follows (kind :: kinds)).
Proof. apply (follows_bind m k [kind] kinds). Qed.

Lemma follows_nil {A} (r : result A) evs :
  commands evs = [] -> follows [] r evs.
Proof. intros H. unfold follows. rewrite H. split; [|destruct r]; auto. Qed.

Lemma follows_only_logs {A} (m : M A) : only_logs m -> emits m (follows []).
Proof.
  intros H w. destruct (H w) as (_ & _ & logs & E & Hlogs).
  exists logs. split; [exact E|]. apply follows_nil, commands_logs, Hlogs.
Qed.

Lemma follows_ret {A} (a : A) : emits (ret a) (follows []).
Proof. apply follows_only_logs, only_logs_silent, silent_ret. Qed.

Lemma follows_getitem {V} (d : gmap string V) k :
  emits (getitem d k) (follows []).
Proof. apply follows_only_logs, only_logs_silent, silent_getitem. Qed.

Lemma follows_logging_log lvl message :
  emits (logging_log lvl message) (follows []).
Proof. apply follows_only_logs, only_logs_logging_log. Qed.

Lemma follows_chdir path : emits (os_chdir path) (follows []).
Proof.
  intros w. unfold os_chdir. case_bool_decide.
  - eexists [_]. split; [reflexivity|]. apply follows_nil. reflexivity.
  - exists []. cbn. rewrite app_nil_r. split; [reflexivity|].
    apply follows_nil. reflexivity.
Qed.

Lemma follows_read_text path : emits (read_text path) (follows []).
Proof.
  intros w. unfold read_text. cbv zeta.
  destruct (contents (fs w) !! _);
    [destruct (utf8_valid _) | case_bool_decide].
  1,2: eexists [_]; split; [reflexivity|]; apply follows_nil; reflexivity.
  all: exists []; cbn [fst snd]; rewrite app_nil_r; split; [reflexivity|];
       apply follows_nil; reflexivity.
Qed.

Lemma follows_rmtree path : emits (shutil_rmtree path) (follows []).
Proof.
  intros w. unfold shutil_rmtree. case_bool_decide.
  - eexists [_]. split; [reflexivity|]. apply follows_nil. reflexivity.
  - exists []. cbn. rewrite app_nil_r. split; [reflexivity|].
    apply follows_nil. reflexivity.
Qed.

Lemma follows_mkdtemp mk prefix :
  emits (tempfile_mkdtemp mk prefix) (follows []).
Proof.
  intros w. eexists [_]. split; [reflexivity|]. apply follows_nil.
  reflexivity.
Qed.

Lemma follows_execute shell cmd (kind : string -> bool) :
  kind cmd = true -> emits (execute shell cmd) (follows [kind]).
Proof.
  intros Hk w.
  destruct (execute_trace shell cmd w) as (l1 & l2 & H1 & H2 & E).
  eexists. split; [exact E|].
  assert (Hc : commands (l1 ++ EvPopen cmd
                                 (returncode (shell cmd (cwd w) (fs w)).1)
                               :: l2) = [cmd]).
  { rewrite commands_app. cbn [commands].
    rewrite (commands_logs l1 H1), (commands_logs l2 H2). reflexivity. }
  unfold follows. rewrite Hc. cbn [in_order]. rewrite Hk.
  split; [reflexivity|]. destruct (execute shell cmd w).1; auto.
Qed.

Create HintDb follows.
#[export] Hint Resolve follows_ret follows_getitem follows_logging_log
  follows_chdir follows_read_text follows_rmtree follows_mkdtemp : follows.

(** Walk through a sequence of steps, counting the commands. *)
Ltac follows_steps :=
  repeat first
    [ progress cbv zeta
    | solve [ auto with follows ]
    | apply follows_bind_nil; [solve [ auto with follows ]|intros ?]
    | match goal with
      | |- emits (logging_info _) _ => apply follows_logging_log
      | |- emits (logging_debug _) _ => apply follows_logging_log
      | |- emits (logging_error _) _ => apply follows_logging_log
      | |- emits (bind (logging_info _) _) _ =>
          apply follows_bind_nil; [apply follows_logging_log|intros ?]
      | |- emits (bind (logging_debug _) _) _ =>
          apply follows_bind_nil; [apply follows_logging_log|intros ?]
      | |- emits (bind (logging_error _) _) _ =>
          apply follows_bind_nil; [apply follows_logging_log|intros ?]
      | |- emits (bind (execute _ _) _) _ =>
          apply follows_bind_cons; [apply follows_execute|intros ?]
      end ].

Lemma follows_checkout_code BASEDIR shell fork branch tmpdir :
  emits (checkout_code BASEDIR shell fork branch tmpdir)
    (follows [is_clone; is_submodule_sync; is_submodule_update]).
Proof.
  unfold checkout_code. follows_steps. apply prefix_app.
Qed.

Lemma follows_run_tests BASEDIR shell now system compiler project rtconfig
    keep tmpdir :
  emits (run_tests BASEDIR shell now system compiler project rtconfig keep
           tmpdir) (follows [is_harness]).
Proof.
  unfold run_tests. follows_steps.
  unfold is_harness. apply andb_true_iff. split; [apply prefix_app|].
  find_substring.
Qed.

Lemma follows_check_logs shell system compiler tmpdir rtlog keep email :
  emits (check_logs shell system compiler tmpdir rtlog keep email)
    (follows [is_mail]).
Proof.
  unfold check_logs.
  apply follows_bind_nil; [apply follows_read_text|intros text]. cbv zeta.
  apply follows_bind_nil.
  - destruct (str_in RT_SUCCESSFUL text && keep);
      [|destruct (str_in RT_SUCCESSFUL text && negb keep)]; follows_steps.
  - intros [subject message]. follows_steps.
    unfold is_mail, mail_cmd. apply andb_true_iff.
    split; [apply prefix_app | find_substring].
Qed.

Lemma follows_given_or a fallback :
  emits fallback (follows []) -> emits (given_or a fallback) (follows []).
Proof.
  intros H. destruct a as [s|]; [destruct s|]; cbn [given_or truthy];
    auto with follows.
Qed.

Lemma follows_main BASEDIR now shell mk args :
  emits (main BASEDIR now shell mk args) (follows workflow).
Proof.
  unfold main. cbv zeta.
  apply follows_bind_nil;
    [apply follows_only_logs, only_logs_setup_logging|intros _].
  apply follows_bind_nil; [apply follows_logging_log|intros _].
  apply follows_bind_nil;
    [apply follows_only_logs, only_logs_parse_arguments|].
  intros [[[[[[[fork branch] system] compiler] project] rtconfig] keep] email].
  apply follows_bind_nil.
  { unfold get_workdir. follows_steps. }
  intros tmpdir.
  apply (follows_bind _ _
           [is_clone; is_submodule_sync; is_submodule_update]
           [is_harness; is_mail]);
    [apply follows_checkout_code|intros _].
  apply follows_bind_cons; [apply follows_run_tests|intros rtlog].
  apply (follows_bind _ _ [is_mail] []);
    [apply follows_check_logs|intros success].
  apply follows_bind_nil; [|intros _; apply follows_logging_log].
  unfold cleanup. destruct (success && negb keep); follows_steps.
Qed.

(** X18.  Whatever the arguments, the shell and the world it starts in, a
    run of [main] runs its external commands in one fixed order: the git
    clone, [git submodule sync], [git submodule update --init --recursive],
    the test harness, the mail command.  A run that raises has run a
    leading part of this sequence (possibly nothing); a run that returns
    has run all five.  No command is run twice and none is skipped. *)
Theorem main_runs_its_commands_in_order BASEDIR now shell mkdtemp_path args w :
  exists evs,
    trace (main BASEDIR now shell mkdtemp_path args w).2
    = (trace w ++ evs)%list /\
    in_order workflow (commands evs) = true /\
    match (main BASEDIR now shell mkdtemp_path args w).1 with
    | Ok _ => length (commands evs) = 5
    | Raise _ => length (commands evs) <= 5
    end.
Proof.
  destruct (follows_main BASEDIR now shell mkdtemp_path args w)
    as (evs & E & Hord & Hlen).
  exists evs. split; [exact E|]. split; [exact Hord|].
  destruct (main BASEDIR now shell mkdtemp_path args w).1; [exact Hlen|].
  clear -Hord. revert Hord. generalize (commands evs). intros cmds.
  unfold workflow.
  do 5 (destruct cmds as [|? cmds]; [cbn [length]; lia|];
        cbn [in_order]; rewrite ?andb_true_iff; intros [_ Hord]; revert Hord).
  destruct cmds; cbn [in_order]; intros Hord; [cbn [length]; lia|].
  discriminate.
Qed.

(** ** Lookups that cannot fail *)

Lemma raises_only_bind {A B} (P : exn -> Prop) (m : M A) (k : A -> M B) :
  raises_only P m ->
  (forall a, (exists w, (m w).1 = Ok a) -> raises_only P (k a)) ->
  raises_only P (bind m k).
Proof.
  intros Hm Hk w e. unfold bind. destruct (m w) as [[a|e'] w1] eqn:E.
  - apply Hk. exists w. rewrite E. reflexivity.
  - cbn [fst]. intros [= <-]. apply (Hm w). rewrite E. reflexivity.
Qed.

Lemma raises_only_never {A} (P : exn -> Prop) (m : M A) :
  (forall w, exists a, (m w).1 = Ok a) -> raises_only P m.
Proof. intros H w e E. destruct (H w) as [a Ha]. congruence. Qed.

Lemma raises_only_ret {A} (P : exn -> Prop) (a : A) : raises_only P (ret a).
Proof. apply raises_only_never. intros w. exists a. reflexivity. Qed.

Lemma raises_only_logging_log P lvl message :
  raises_only P (logging_log lvl message).
Proof.
  apply raises_only_never. intros w.
  destruct (logging_log_run lvl message w) as (logs & -> & _).
  exists tt. reflexivity.
Qed.

Lemma raises_only_setup_logging P : raises_only P setup_logging.
Proof.
  apply raises_only_never. intros w. exists tt. apply setup_logging_ok.
Qed.

Lemma raises_only_getitem {V} P (d : gmap string V) k :
  k ∈ dom d -> raises_only P (getitem d k).
Proof.
  intros H. apply elem_of_dom in H as [v Hv].
  apply raises_only_never. intros w. exists v.
  rewrite (getitem_ok _ _ _ w Hv). reflexivity.
Qed.

Lemma raises_only_chdir path : raises_only not_KeyError (os_chdir path).
Proof.
  intros w e. unfold os_chdir. case_bool_decide; cbn [fst];
    [discriminate|]. intros [= <-]. exact I.
Qed.

Lemma raises_only_read_text path : raises_only not_KeyError (read_text path).
Proof.
  intros w e. unfold read_text. cbv zeta.
  destruct (contents (fs w) !! _);
    [destruct (utf8_valid _) | case_bool_decide]; cbn [fst];
    try discriminate; intros [= <-]; exact I.
Qed.

Lemma raises_only_rmtree path : raises_only not_KeyError (shutil_rmtree path).
Proof.
  intros w e. unfold shutil_rmtree. case_bool_decide; cbn [fst];
    [discriminate|]. intros [= <-]. exact I.
Qed.

Lemma raises_only_execute shell cmd :
  raises_only not_KeyError (execute shell cmd).
Proof.
  intros w e. rewrite execute_result. cbv zeta.
  destruct (utf8_valid _); [|intros [= <-]; exact I].
  destruct (utf8_valid _); [|intros [= <-]; exact I].
  destruct (returncode _ =? 0)%Z; [discriminate|].
  intros [= <-]. exact I.
Qed.

Lemma raises_only_parse_arguments args :
  raises_only not_KeyError (parse_arguments args).
Proof.
  intros w e E.
  destruct (selection_cases args)
    as [H|[(fe & Hf & Hb)|[(fe & Hf & Hb & Hs)
        |[(fe & se & Hf & Hb & Hs & Hc)|(fe & se & Hv)]]]].
  - rewrite parse_arguments_bad_fork in E by exact H.
    injection E as <-. exact I.
  - rewrite (parse_arguments_bad_branch _ _ _ Hf Hb) in E.
    injection E as <-. exact I.
  - rewrite (parse_arguments_bad_system _ _ _ Hf Hb Hs) in E.
    injection E as <-. exact I.
  - rewrite (parse_arguments_bad_compiler _ _ _ _ Hf Hb Hs Hc) in E.
    injection E as <-. exact I.
  - destruct (parse_arguments_valid _ _ _ Hv) as (rt & _ & E').
    rewrite E' in E. discriminate.
Qed.

(** The fork the resolver returns is a key of [FORKS]. *)
Lemma parse_arguments_fork
    args w fork branch system compiler project rtconfig keep email :
  (parse_arguments args w).1
  = Ok (fork, branch, system, compiler, project, rtconfig, keep, email) ->
  fork ∈ dom FORKS.
Proof.
  intros E.
  destruct (selection_cases args)
    as [H|[(fe & Hf & Hb)|[(fe & Hf & Hb & Hs)
        |[(fe & se & Hf & Hb & Hs & Hc)|(fe & se & Hv)]]]].
  - rewrite parse_arguments_bad_fork in E by exact H. discriminate.
  - rewrite (parse_arguments_bad_branch _ _ _ Hf Hb) in E. discriminate.
  - rewrite (parse_arguments_bad_system _ _ _ Hf Hb Hs) in E. discriminate.
  - rewrite (parse_arguments_bad_compiler _ _ _ _ Hf Hb Hs Hc) in E.
    discriminate.
  - destruct (parse_arguments_valid _ _ _ Hv) as (rt & _ & E').
    rewrite E' in E. injection E as <-.
    apply elem_of_dom. destruct Hv as [Hf _]. eauto.
Qed.

Ltac raises_only_steps :=
  repeat first
    [ progress cbv zeta
    | apply raises_only_ret
    | apply raises_only_logging_log
    | apply raises_only_chdir
    | apply raises_only_read_text
    | apply raises_only_rmtree
    | apply raises_only_execute
    | apply raises_only_bind; [|intros ? _]
    | match goal with
      | |- raises_only _ (logging_info _) => apply raises_only_logging_log
      | |- raises_only _ (logging_debug _) => apply raises_only_logging_log
      | |- raises_only _ (logging_error _) => apply raises_only_logging_log
      | |- raises_only _ (if ?c then _ else _) => destruct c
      | |- raises_only _ (match ?x with _ => _ end) => destruct x
      end ].

Lemma raises_only_checkout_code BASEDIR shell fork branch tmpdir :
  fork ∈ dom FORKS ->
  raises_only not_KeyError (checkout_code BASEDIR shell fork branch tmpdir).
Proof.
  intros Hf. unfold checkout_code.
  apply raises_only_bind; [apply raises_only_getitem, Hf|intros fe _].
  raises_only_steps.
Qed.

Lemma raises_only_main BASEDIR now shell mk args :
  raises_only not_KeyError (main BASEDIR now shell mk args).
Proof.
  unfold main. cbv zeta.
  apply raises_only_bind; [apply raises_only_setup_logging|intros _ _].
  apply raises_only_bind; [apply raises_only_logging_log|intros _ _].
  apply raises_only_bind; [apply raises_only_parse_arguments|].
  intros [[[[[[[fork branch] system] compiler] project] rtconfig] keep] email]
    [w0 Hp].
  apply parse_arguments_fork in Hp.
  apply raises_only_bind.
  { unfold get_workdir.
    apply raises_only_bind;
      [apply raises_only_never; intros w; eexists; reflexivity|intros ? _].
    raises_only_steps. }
  intros tmpdir _.
  apply raises_only_bind; [apply raises_only_checkout_code, Hp|intros _ _].
  apply raises_only_bind; [unfold run_tests; raises_only_steps|intros rtlog _].
  apply raises_only_bind; [unfold check_logs; raises_only_steps|].
  intros success _.
  apply raises_only_bind; [unfold cleanup; raises_only_steps|intros _ _].
  apply raises_only_logging_log.
Qed.

(** X19.  A run of [main] never ends with a [KeyError]: the lookup
    [FORKS[fork]] in [checkout_code], which raises one for an unknown fork,
    is reached only with a fork the resolver has checked, and the lookups
    [SYSTEMS[system]] and [default_rtconfig[compiler]] of the resolver are
    made only behind its membership tests. *)
Theorem main_never_raises_KeyError
    BASEDIR now shell mkdtemp_path args w key :
  (main BASEDIR now shell mkdtemp_path args w).1 <> Raise (KeyError key).
Proof.
  intros E. exact (raises_only_main BASEDIR now shell mkdtemp_path args w _ E).
Qed.

(** ** What a run writes to the log *)

Lemma announced_no_popen evs : no_popen evs -> announced evs.
Proof.
  intros H before cmd status after ->. exfalso. apply (H cmd status).
  apply elem_of_app. right. left.
Qed.

Lemma announced_app evs1 evs2 :
  announced evs1 -> announced evs2 -> announced (evs1 ++ evs2).
Proof.
  intros H1 H2 before cmd status after E.
  apply app_eq_app in E as [l [[E1 E2]|[E1 E2]]].
  - destruct l as [|ev l].
    + simpl in E2. symmetry in E2. rewrite app_nil_r in E1. subst before.
      destruct (H2 [] cmd status after E2) as [earlier He].
      destruct earlier; discriminate He.
    + simpl in E2. injection E2 as <- E2.
      exact (H1 before cmd status l E1).
  - destruct (H2 l cmd status after E2) as [earlier He].
    exists (evs1 ++ earlier)%list. rewrite E1, He, app_assoc. reflexivity.
Qed.

Lemma at_debug_bind {A B} (m : M A) (k : A -> M B)
    (Q : result B -> list event -> Prop) :
  at_debug m orderly -> (forall a, at_debug (k a) Q) ->
  (forall e evs, orderly (@Raise A e) evs -> Q (Raise e) evs) ->
  (forall r evs1 evs2,
     announced evs1 -> finished_record ∉ evs1 -> Q r evs2 ->
     Q r (evs1 ++ evs2)%list) ->
  at_debug (bind m k) Q.
Proof.
  intros Hm Hk Hraise Hok w Hw. unfold bind.
  destruct (Hm w Hw) as (L1 & evs1 & E1 & H1).
  destruct (m w) as [[a|e] w1]; cbn [fst snd] in *.
  - destruct (Hk a w1 L1) as (L2 & evs2 & E2 & H2).
    split; [exact L2|]. exists (evs1 ++ evs2)%list. split.
    + rewrite E2, E1, app_assoc. reflexivity.
    + destruct H1 as [Ha Hf]. apply Hok; assumption.
  - split; [exact L1|]. exists evs1. split; [exact E1|]. apply Hraise, H1.
Qed.

Lemma orderly_bind {A B} (m : M A) (k : A -> M B) :
  at_debug m orderly -> (forall a, at_debug (k a) orderly) ->
  at_debug (bind m k) orderly.
Proof.
  intros Hm Hk. apply at_debug_bind; [exact Hm | exact Hk | |].
  - intros e evs H. exact H.
  - intros r evs1 evs2 Ha Hf [Ha2 Hf2]. split.
    + apply announced_app; assumption.
    + intros Hin. apply elem_of_app in Hin as [Hin|Hin]; auto.
Qed.

Lemma complete_bind {A B} (m : M A) (k : A -> M B) :
  at_debug m orderly -> (forall a, at_debug (k a) complete) ->
  at_debug (bind m k) complete.
Proof.
  intros Hm Hk. apply at_debug_bind; [exact Hm | exact Hk | |].
  - intros e evs [Ha Hf]. split; [exact Ha|]. split.
    + intros Hin. destruct (Hf Hin).
    + intros H. destruct H. exact I.
  - intros r evs1 evs2 Ha Hf [Ha2 Hf2]. split.
    + apply announced_app; assumption.
    + rewrite elem_of_app. split.
      * intros [Hin|Hin]; [destruct (Hf Hin) | apply Hf2, Hin].
      * intros H. right. apply Hf2, H.
Qed.

Lemma orderly_nil {A} (r : result A) : orderly r [].
Proof.
  split.
  - apply announced_no_popen. intros c s H. inversion H.
  - intros H. inversion H.
Qed.

Lemma orderly_one {A} (r : result A) ev :
  ev <> finished_record -> (forall cmd status, ev <> EvPopen cmd status) ->
  orderly r [ev].
Proof.
  intros Hf Hp. split.
  - apply announced_no_popen. intros c s H.
    apply elem_of_cons in H as [H|H]; [|inversion H].
    exact (Hp c s (eq_sym H)).
  - intros H. apply elem_of_cons in H as [H|H]; [|inversion H].
    exact (Hf (eq_sym H)).
Qed.

Lemma at_debug_silent {A} (m : M A) : silent m -> at_debug m orderly.
Proof.
  intros H w Hw. pose proof (H w) as E. split; [rewrite E; exact Hw|].
  exists []. rewrite E, app_nil_r. split; [reflexivity | apply orderly_nil].
Qed.

Lemma at_debug_logging_log lvl message :
  EvLog lvl message <> finished_record ->
  at_debug (logging_log lvl message) orderly.
Proof.
  intros Hne w Hw. unfold logging_log, emit.
  destruct (loglevel w <=? lvl)%Z; cbn [fst snd loglevel trace].
  - split; [exact Hw|]. eexists. split; [reflexivity|].
    apply orderly_one; [exact Hne | discriminate].
  - split; [exact Hw|]. exists []. rewrite app_nil_r.
    split; [reflexivity | apply orderly_nil].
Qed.

Lemma not_finished_first lvl c rest :
  c <> "F"%char -> EvLog lvl (String c rest) <> finished_record.
Proof. intros Hc [= _ H]. exact (Hc H). Qed.

Lemma not_finished_level lvl message :
  lvl <> INFO -> EvLog lvl message <> finished_record.
Proof. intros Hl [= H _]. exact (Hl H). Qed.

Lemma at_debug_chdir path : at_debug (os_chdir path) orderly.
Proof.
  intros w Hw. unfold os_chdir. case_bool_decide; cbn [fst snd loglevel trace].
  - split; [exact Hw|]. eexists. split; [reflexivity|].
    apply orderly_one; discriminate.
  - split; [exact Hw|]. exists []. rewrite app_nil_r.
    split; [reflexivity | apply orderly_nil].
Qed.

Lemma at_debug_read_text path : at_debug (read_text path) orderly.
Proof.
  intros w Hw. unfold read_text. cbv zeta.
  destruct (contents (fs w) !! _);
    [destruct (utf8_valid _) | case_bool_decide];
    cbn [fst snd loglevel trace].
  1,2: split; [exact Hw|]; eexists; split; [reflexivity|];
       apply orderly_one; discriminate.
  all: split; [exact Hw|]; exists []; rewrite app_nil_r;
       split; [reflexivity | apply orderly_nil].
Qed.

Lemma at_debug_rmtree path : at_debug (shutil_rmtree path) orderly.
Proof.
  intros w Hw. unfold shutil_rmtree. case_bool_decide;
    cbn [fst snd loglevel trace].
  - split; [exact Hw|]. eexists. split; [reflexivity|].
    apply orderly_one; discriminate.
  - split; [exact Hw|]. exists []. rewrite app_nil_r.
    split; [reflexivity | apply orderly_nil].
Qed.

Lemma at_debug_mkdtemp mk prefix :
  at_debug (tempfile_mkdtemp mk prefix) orderly.
Proof.
  intros w Hw. unfold tempfile_mkdtemp. cbn [fst snd loglevel trace].
  split; [exact Hw|]. eexists. split; [reflexivity|].
  apply orderly_one; discriminate.
Qed.

(** At level DEBUG [execute] announces its command right before it runs
    it, and writes at most one more record, at level DEBUG. *)
Lemma at_debug_execute shell cmd : at_debug (execute shell cmd) orderly.
Proof.
  intros w Hw.
  unfold execute, bind, getEffectiveLevel, logging_debug, logging_log, emit,
    with_handler, Popen_communicate, decode, ret, raise.
  cbn [fst snd fs cwd loglevel handlers trace]. rewrite Hw.
  change (DEBUG <=? DEBUG)%Z with true. cbn [fst snd fs cwd loglevel handlers trace].
  destruct (shell cmd (cwd w) (fs w)) as [p f'].
  cbn [fst snd fs cwd loglevel handlers trace].
  assert (Hann : forall tail,
             no_popen tail -> finished_record ∉ tail ->
             @orderly (Z * string * string) (Ok (0%Z, "", ""))
               (EvLog DEBUG ("Executing " ++ dq ++ cmd ++ dq)
                :: EvPopen cmd (returncode p) :: tail)).
  { intros tail Hp Hf. split.
    - intros before c s after E. destruct before as [|ev1 before].
      + discriminate E.
      + injection E as <- E. destruct before as [|ev2 before].
        * injection E as <- _ _. exists []. reflexivity.
        * injection E as _ E. exfalso. apply (Hp c s). rewrite E.
          apply elem_of_app. right. left.
    - intros Hin. apply elem_of_cons in Hin as [Hin|Hin]; [discriminate|].
      apply elem_of_cons in Hin as [Hin|Hin]; [discriminate|]. auto. }
  assert (Hnil : no_popen [] /\ finished_record ∉ [])
    by (split; [intros c s H|intros H]; inversion H).
  assert (Hone : forall message,
             no_popen [EvLog DEBUG message] /\
             finished_record ∉ [EvLog DEBUG message]).
  { intros message. split; [intros c s H|intros H];
      apply elem_of_cons in H as [H|H]; try discriminate; inversion H. }
  destruct (utf8_valid (stdout_bytes p));
    [destruct (utf8_valid (stderr_bytes p))|];
    cbn [fst snd fs cwd loglevel handlers trace].
  - change (DEBUG =? DEBUG)%Z with true. cbv beta iota.
    cbn [fst snd fs cwd loglevel handlers trace].
    change (DEBUG <=? DEBUG)%Z with true. cbv beta iota.
    destruct (negb (returncode p =? 0)%Z); cbn [fst snd loglevel trace];
      (split; [reflexivity|]); eexists;
      (split; [rewrite <- !app_assoc; reflexivity|]);
      apply Hann; apply Hone.
  - split; [reflexivity|]. eexists.
    split; [rewrite <- !app_assoc; reflexivity|]. apply Hann; apply Hnil.
  - split; [reflexivity|]. eexists.
    split; [rewrite <- !app_assoc; reflexivity|]. apply Hann; apply Hnil.
Qed.

Lemma at_debug_given_or a fallback :
  at_debug fallback orderly -> at_debug (given_or a fallback) orderly.
Proof.
  intros H. destruct a as [s|]; [destruct s|]; cbn [given_or truthy];
    auto; apply at_debug_silent, silent_ret.
Qed.

Ltac not_finished :=
  first [ apply not_finished_level; unfold DEBUG, INFO, ERROR; lia
        | rewrite ?append_cons; apply not_finished_first; discriminate ].

(** Walk through a sequence of steps at level DEBUG. *)
Ltac debug_steps :=
  repeat first
    [ progress cbv zeta
    | apply at_debug_silent;
      first [ apply silent_ret | apply silent_raise | apply silent_getitem
            | apply silent_getEffectiveLevel | apply silent_decode ]
    | apply at_debug_chdir
    | apply at_debug_read_text
    | apply at_debug_rmtree
    | apply at_debug_mkdtemp
    | apply at_debug_execute
    | apply at_debug_logging_log; not_finished
    | apply at_debug_given_or
    | apply orderly_bind; [|intros ?]
    | match goal with
      | |- at_debug (if ?c then _ else _) _ => destruct c
      | |- at_debug (match ?x with _ => _ end) _ => destruct x
      end ].

Lemma at_debug_parse_arguments args :
  at_debug (parse_arguments args) orderly.
Proof. unfold parse_arguments, logging_info. debug_steps. Qed.

Lemma at_debug_get_workdir mk now fork branch compiler :
  at_debug (get_workdir mk now fork branch compiler) orderly.
Proof. unfold get_workdir, logging_info. debug_steps. Qed.

Lemma at_debug_checkout_code BASEDIR shell fork branch tmpdir :
  at_debug (checkout_code BASEDIR shell fork branch tmpdir) orderly.
Proof. unfold checkout_code, logging_info. debug_steps. Qed.

Lemma at_debug_run_tests BASEDIR shell now system compiler project rtconfig
    keep tmpdir :
  at_debug (run_tests BASEDIR shell now system compiler project rtconfig keep
              tmpdir) orderly.
Proof. unfold run_tests, logging_info. debug_steps. Qed.

Lemma at_debug_check_logs shell system compiler tmpdir rtlog keep email :
  at_debug (check_logs shell system compiler tmpdir rtlog keep email) orderly.
Proof.
  unfold check_logs, logging_info, logging_error. debug_steps.
Qed.

Lemma at_debug_cleanup success keep tmpdir :
  at_debug (cleanup success keep tmpdir) orderly.
Proof. unfold cleanup, logging_debug. debug_steps. Qed.

Lemma at_debug_finish :
  at_debug (logging_info "Finished automatic regression test")
    (@complete unit).
Proof.
  intros w Hw. unfold logging_info, logging_log, emit, with_handler.
  rewrite Hw. change (DEBUG <=? INFO)%Z with true.
  cbn [fst snd fs cwd loglevel handlers trace].
  split; [reflexivity|]. eexists. split; [reflexivity|]. split.
  - apply announced_no_popen. intros c s H.
    apply elem_of_cons in H as [H|H]; [discriminate | inversion H].
  - split; [intros _ []|intros _; left].
Qed.

(** In a process whose root logger has no handler yet, [setup_logging]
    sets the level to DEBUG and records it. *)
Lemma setup_logging_run w :
  handlers w = false ->
  setup_logging w
  = (Ok tt, {| fs := fs w; cwd := cwd w; loglevel := DEBUG;
               handlers := true;
               trace := trace w ++ [EvLog INFO "Logging level set to 10"] |}).
Proof.
  intros H. unfold setup_logging, bind, logging_basicConfig. rewrite H.
  reflexivity.
Qed.

Lemma at_debug_main_rest BASEDIR now shell mk args :
  at_debug
    (run logging_info "Starting automatic regression test";
     do '(fork, branch, system, compiler, project, rtconfig, keep, email) <-
       parse_arguments args;
     do tmpdir <- get_workdir mk now fork branch compiler;
     run checkout_code BASEDIR shell fork branch tmpdir;
     do rtlog <- run_tests BASEDIR shell now system compiler project rtconfig
                   keep tmpdir;
     do success <- check_logs shell system compiler tmpdir rtlog keep email;
     run cleanup success keep tmpdir;
     logging_info "Finished automatic regression test")
    complete.
Proof.
  apply complete_bind;
    [apply at_debug_logging_log; not_finished|intros _].
  apply complete_bind; [apply at_debug_parse_arguments|].
  intros [[[[[[[fork branch] system] compiler] project] rtconfig] keep] email].
  apply complete_bind; [apply at_debug_get_workdir|intros tmpdir].
  apply complete_bind; [apply at_debug_checkout_code|intros _].
  apply complete_bind; [apply at_debug_run_tests|intros rtlog].
  apply complete_bind; [apply at_debug_check_logs|intros success].
  apply complete_bind; [apply at_debug_cleanup|intros _].
  apply at_debug_finish.
Qed.

Lemma main_log BASEDIR now shell mk args w :
  handlers w = false ->
  loglevel (main BASEDIR now shell mk args w).2 = DEBUG /\
  exists rest,
    trace (main BASEDIR now shell mk args w).2
    = (trace w ++ EvLog INFO "Logging level set to 10" :: rest)%list /\
    complete (main BASEDIR now shell mk args w).1 rest.
Proof.
  intros Hfresh. unfold main. cbv zeta.
  rewrite (bind_ok _ _ _ _ _ (setup_logging_run w Hfresh)).
  match goal with
  | |- context [bind ?m ?k ?w1] =>
      destruct (at_debug_main_rest BASEDIR now shell mk args w1 eq_refl)
        as (Hl & rest & E & Hc)
  end.
  split; [exact Hl|]. exists rest. split; [|exact Hc].
  rewrite E. cbn [trace]. rewrite <- app_assoc. reflexivity.
Qed.

(** X20.  In a process whose root logger has no handler yet, as when the
    script is started, and whatever the logger's level then is, [main]
    first sets the level to DEBUG and records it ("Logging level set to
    10"), and the level is DEBUG when [main] ends, however it ends.  From
    then on every external command is announced: each subprocess in the
    trace comes immediately after the record [Executing "<command>"] for
    that very command. *)
Theorem main_announces_every_command BASEDIR now shell mkdtemp_path args w :
  handlers w = false ->
  loglevel (main BASEDIR now shell mkdtemp_path args w).2 = DEBUG /\
  exists rest,
    trace (main BASEDIR now shell mkdtemp_path args w).2
    = (trace w ++ EvLog INFO "Logging level set to 10" :: rest)%list /\
    announced rest.
Proof.
  intros Hfresh.
  destruct (main_log BASEDIR now shell mkdtemp_path args w Hfresh)
    as (Hl & rest & E & Ha & _).
  split; [exact Hl|]. exists rest. split; [exact E | exact Ha].
Qed.

Lemma main_announces_every_command_witness :
  loglevel (main Sim.BASEDIR Sim.now
              (Sim.shell Sim.harness_fails Sim.passing_log)
              Sim.mkdtemp_path Sim.args_hera Sim.world0).2 = DEBUG /\
  exists rest,
    trace (main Sim.BASEDIR Sim.now
             (Sim.shell Sim.harness_fails Sim.passing_log)
             Sim.mkdtemp_path Sim.args_hera Sim.world0).2
    = EvLog INFO "Logging level set to 10" :: rest /\
    announced rest.
Proof.
  exact (main_announces_every_command Sim.BASEDIR Sim.now
           (Sim.shell Sim.harness_fails Sim.passing_log)
           Sim.mkdtemp_path Sim.args_hera Sim.world0 eq_refl).
Defined.

(** X21.  In a process whose root logger has no handler yet, as when the
    script is started, the record "Finished automatic regression test" is
    written by a run of [main] exactly when the run returns: a run that
    ends with an exception, whichever, does not write it, and a run that
    returns does, whatever the logger's level was at the start. *)
Theorem finished_is_logged_exactly_when_main_returns
    BASEDIR now shell mkdtemp_path args w :
  handlers w = false ->
  exists evs,
    trace (main BASEDIR now shell mkdtemp_path args w).2
    = (trace w ++ evs)%list /\
    (EvLog INFO "Finished automatic regression test" ∈ evs <->
     exists u, (main BASEDIR now shell mkdtemp_path args w).1 = Ok u).
Proof.
  intros Hfresh.
  destruct (main_log BASEDIR now shell mkdtemp_path args w Hfresh)
    as (_ & rest & E & _ & Hf).
  exists (EvLog INFO "Logging level set to 10" :: rest). split; [exact E|].
  rewrite elem_of_cons. fold finished_record. split.
  - intros [H|H]; [discriminate H|]. apply Hf in H.
    destruct (main BASEDIR now shell mkdtemp_path args w).1 as [u|e];
      [eauto | destruct H; exact I].
  - intros [u Hu]. right. apply Hf. rewrite Hu. intros [].
Qed.

Lemma finished_is_logged_exactly_when_main_returns_witness :
  exists evs,
    trace (main Sim.BASEDIR Sim.now (Sim.shell Sim.never Sim.passing_log)
             Sim.mkdtemp_path Sim.args_hera Sim.world0).2 = evs /\
    (EvLog INFO "Finished automatic regression test" ∈ evs <->
     exists u,
       (main Sim.BASEDIR Sim.now (Sim.shell Sim.never Sim.passing_log)
          Sim.mkdtemp_path Sim.args_hera Sim.world0).1 = Ok u).
Proof.
  exact (finished_is_logged_exactly_when_main_returns Sim.BASEDIR Sim.now
           (Sim.shell Sim.never Sim.passing_log)
           Sim.mkdtemp_path Sim.args_hera Sim.world0 eq_refl).
Defined.
